(** * Shallow embedding of the subagent pool (provision, unlock, claim,
      dispatch) and of the workspace-template materializer
      [transformWorkspacePaths].

    Sources: src/unnamed/part_004 (src/vscode/provision.ts: provisionSubagents,
    unlockSubagents), src/src/vscode/agentDispatch.ts (findUnlockedSubagent,
    dispatchAgent, waitForResponseOutput), src/src/utils/workspace.ts
    (transformWorkspacePaths) and the fs helpers of src/utils/fs.ts (pathExists,
    readDirEntries, ensureDir, removeIfExists).

    The code runs on Node.js: the pieces of the JavaScript runtime and of
    Node's [path] module that the code relies on (integer-valued Numbers,
    [Number.parseInt], Number to string, posix [path.join], [path.resolve],
    [path.isAbsolute], [path.basename]) are modelled first. *)

From Stdlib Require Import String Ascii List ZArith Bool Lia Permutation Sorted.
Import ListNotations.
#[local] Set Warnings "-register-all,-notation-overridden".

Local Open Scope string_scope.
Local Open Scope Z_scope.

(** ** JavaScript Numbers that hold integers

    The code only stores integer values in Numbers (ordinals, counters).
    An integer-valued Number is modelled by the integer it denotes; arithmetic
    results are rounded to the nearest double (ties to even), which is where
    Numbers stop being exact: beyond 2^53 not every integer is a double. *)
Module JsNumber.

  (** Rounding of an exact integer to the nearest IEEE-754 double
      (53-bit significand, round half to even); overflow is not handled here,
      see [parseInt]. *)
Definition round_double (z : Z) : Z :=
    let a := Z.abs z in
    if a <? 2 ^ 53 then z
    else
      let e := Z.log2 a - 52 in
      let q := a / 2 ^ e in
      let r := a mod 2 ^ e in
      let h := 2 ^ (e - 1) in
      let q' := if (h <? r) || ((r =? h) && Z.odd q) then q + 1 else q in
      Z.sgn z * (q' * 2 ^ e).

  (** The [+= 1] of the code on an integer-valued Number. *)
Definition add1 (x : Z) : Z := round_double (x + 1).

Definition is_digit (c : ascii) : bool :=
    let n := nat_of_ascii c in (48 <=? n)%nat && (n <=? 57)%nat.

Definition digit_value (c : ascii) : Z := Z.of_nat (nat_of_ascii c) - 48.

  (** White space skipped by [parseInt] (the ASCII members of WhiteSpace and
      LineTerminator; strings here are byte strings). *)
Definition is_js_space (c : ascii) : bool :=
    let n := nat_of_ascii c in
    (n =? 32)%nat || ((9 <=? n)%nat && (n <=? 13)%nat).

Fixpoint skip_spaces (s : string) : string :=
    match s with
    | String c r => if is_js_space c then skip_spaces r else s
    | EmptyString => s
    end.

  (** Longest prefix of decimal digits. *)
Fixpoint digit_prefix (s : string) : string :=
    match s with
    | String c r => if is_digit c then String c (digit_prefix r) else EmptyString
    | EmptyString => EmptyString
    end.

Fixpoint digits_value_acc (acc : Z) (s : string) : Z :=
    match s with
    | String c r => digits_value_acc (10 * acc + digit_value c) r
    | EmptyString => acc
    end.

Definition digits_value (s : string) : Z := digits_value_acc 0 s.

  (** [Number.parseInt(s, 10)] followed by [Number.isInteger]: [None] when
      the result is NaN (no digits) or Infinity (too large for a double). *)
Definition parseInt (s : string) : option Z :=
    let t := skip_spaces s in
    let '(sign, u) :=
      match t with
      | String c r =>
          if Ascii.eqb c "+"%char then (1, r)
          else if Ascii.eqb c "-"%char then (-1, r)
          else (1, t)
      | EmptyString => (1, t)
      end in
    let ds := digit_prefix u in
    match ds with
    | EmptyString => None
    | _ =>
        let v := round_double (digits_value ds) in
        if 2 ^ 1024 <=? v then None else Some (sign * v)
    end.

Definition digit_char (d : Z) : ascii := ascii_of_nat (Z.to_nat (48 + d)).

  (** Decimal digits of a non-negative integer, [fuel] bounding their number. *)
Fixpoint decimal_aux (fuel : nat) (z : Z) (acc : string) : string :=
    match fuel with
    | O => acc
    | S f =>
        let acc' := String (digit_char (z mod 10)) acc in
        if z / 10 =? 0 then acc' else decimal_aux f (z / 10) acc'
    end.

Definition decimal (z : Z) : string :=
    decimal_aux (Z.to_nat (Z.log2 z + 1)) z EmptyString.

Definition ndigits (z : Z) : Z := Z.of_nat (String.length (decimal z)).

Fixpoint zeros (n : nat) : string :=
    match n with O => EmptyString | S k => String "0"%char (zeros k) end.

  (** Shortest significand of Number::toString for an integer double
      [x >= 2^53]: the least [k] and an [s] with [k] digits such that
      [s * 10^(n-k)] rounds to [x] (closest, then even); returns [(s, k, n)]. *)
Fixpoint shortest_from (x nd : Z) (k : Z) (fuel : nat) : Z * Z * Z :=
    match fuel with
    | O => (x, nd, nd)
    | S f =>
        let e := nd - k in
        let p := 10 ^ e in
        let s1 := x / p in
        let ok s := round_double (s * p) =? x in
        let pick :=
          match ok s1, ok (s1 + 1) with
          | true, true =>
              let d1 := x - s1 * p in
              let d2 := (s1 + 1) * p - x in
              if d1 <? d2 then Some s1
              else if d2 <? d1 then Some (s1 + 1)
              else if Z.even s1 then Some s1 else Some (s1 + 1)
          | true, false => Some s1
          | false, true => Some (s1 + 1)
          | false, false => None
          end in
        match pick with
        | Some s =>
            if s =? 10 ^ k then (1, 1, nd + 1) else (s, k, nd)
        | None => shortest_from x nd (k + 1) f
        end
    end.

  (** [String(x)] for an integer-valued Number [x]. *)
Definition toString (x : Z) : string :=
    let a := Z.abs x in
    let body :=
      if a <? 2 ^ 53 then decimal a
      else
        let '(s, k, n) := shortest_from a (ndigits a) 1 17 in
        let ds := decimal s in
        if n <=? 21 then ds ++ zeros (Z.to_nat (n - k))
        else
          match ds with
          | String d rest =>
              String d (if k =? 1 then EmptyString else String "."%char rest)
                ++ "e+" ++ decimal (n - 1)
          | EmptyString => EmptyString
          end in
    if x <? 0 then "-" ++ body else body.

End JsNumber.

(** ** Node's posix [path] module *)
Module NodePath.

  (** [s.split(c)] for a one-character separator. *)
Fixpoint split_on (c : ascii) (s : string) : list string :=
    match s with
    | EmptyString => [EmptyString]
    | String a r =>
        let rest := split_on c r in
        if Ascii.eqb a c then EmptyString :: rest
        else match rest with
             | x :: xs => String a x :: xs
             | [] => [String a EmptyString]
             end
    end.

Definition is_absolute (p : string) : bool :=
    match p with String c _ => Ascii.eqb c "/"%char | EmptyString => false end.

  (** One segment of [normalizeString]: empty and ["."] segments vanish,
      [".."] removes the last segment or, above the root of a relative path,
      is kept. *)
Definition norm_step (allowAboveRoot : bool) (st : list string) (seg : string)
      : list string :=
    if String.eqb seg "" || String.eqb seg "." then st
    else if String.eqb seg ".." then
      match st with
      | x :: r => if String.eqb x ".." then (if allowAboveRoot then ".." :: st else st) else r
      | [] => if allowAboveRoot then [".."] else []
      end
    else seg :: st.

Definition normalizeString (p : string) (allowAboveRoot : bool) : string :=
    String.concat "/" (rev (fold_left (norm_step allowAboveRoot) (split_on "/"%char p) [])).

Definition ends_with_slash (p : string) : bool :=
    match String.get (String.length p - 1) p with
    | Some c => Ascii.eqb c "/"%char
    | None => false
    end.

Definition normalize (p : string) : string :=
    if String.eqb p "" then "."
    else
      let isAbs := is_absolute p in
      let trailing := ends_with_slash p in
      let r := normalizeString p (negb isAbs) in
      if String.eqb r "" then (if isAbs then "/" else if trailing then "./" else ".")
      else
        let r' := if trailing then r ++ "/" else r in
        if isAbs then "/" ++ r' else r'.

  (** [path.join(...args)]. *)
Definition join (args : list string) : string :=
    match filter (fun a => negb (String.eqb a "")) args with
    | [] => "."
    | a :: r => normalize (fold_left (fun acc x => acc ++ "/" ++ x) r a)
    end.

  (** [path.resolve(...args)], [cwd] being [process.cwd()]. *)
Fixpoint resolve_scan (ps : list string) (acc : string) : string * bool :=
    match ps with
    | [] => (acc, false)
    | p :: r =>
        if String.eqb p "" then resolve_scan r acc
        else
          let acc' := p ++ "/" ++ acc in
          if is_absolute p then (acc', true) else resolve_scan r acc'
    end.

Definition resolve (cwd : string) (args : list string) : string :=
    let '(rp, abs) := resolve_scan (rev args ++ [cwd])%list "" in
    let n := normalizeString rp (negb abs) in
    if abs then "/" ++ n else if String.eqb n "" then "." else n.

  (** [path.basename(p)]: the last non-empty segment. *)
Definition basename (p : string) : string :=
    last (filter (fun s => negb (String.eqb s "")) (split_on "/"%char p)) "".

End NodePath.

(** ** Parsed workspace documents and [transformWorkspacePaths]
    (src/src/utils/workspace.ts) *)
Module Workspace.

  (** JSON5 numbers: a finite value [m * 10^e], NaN or an infinity. *)
Inductive jsnum := NFinite (m e : Z) | NNaN | NInfinity (negative : bool).

  (** Values produced by [JSON5.parse]; an object is the list of its own
      properties in JavaScript enumeration order. *)
Inductive json :=
  | JNull
  | JBool (b : bool)
  | JNum (n : jsnum)
  | JStr (s : string)
  | JArr (items : list json)
  | JObj (props : list (string * json)).

  (** JavaScript truthiness of a property read ([None] is [undefined]). *)
Definition truthy (v : option json) : bool :=
    match v with
    | None | Some JNull => false
    | Some (JBool b) => b
    | Some (JNum (NFinite m _)) => negb (m =? 0)
    | Some (JNum NNaN) => false
    | Some (JNum (NInfinity _)) => true
    | Some (JStr s) => negb (String.eqb s "")
    | Some (JArr _) | Some (JObj _) => true
    end.

Fixpoint lookup (k : string) (kv : list (string * json)) : option json :=
    match kv with
    | [] => None
    | (k', v) :: r => if String.eqb k k' then Some v else lookup k r
    end.

  (** [v.key] on a non-null value: the keys the code reads ("folders",
      "settings", "path" and the chat settings keys) are own properties of
      objects only; on any other value they read as [undefined]. *)
Definition prop (v : json) (k : string) : option json :=
    match v with JObj kv => lookup k kv | _ => None end.

  (** [o[k] = v]: an existing property keeps its place, a new one is
      appended. *)
Fixpoint obj_set (kv : list (string * json)) (k : string) (v : json)
      : list (string * json) :=
    match kv with
    | [] => [(k, v)]
    | (k', v') :: r => if String.eqb k k' then (k', v) :: r else (k', v') :: obj_set r k v
    end.

Fixpoint indexed_from (i : nat) (l : list json) : list (string * json) :=
    match l with
    | [] => []
    | x :: r => (JsNumber.decimal (Z.of_nat i), x) :: indexed_from (S i) r
    end.

  (** [Object.entries(v)] / [{...v}] for the values the code spreads. *)
Definition entries (v : json) : list (string * json) :=
    match v with
    | JObj kv => kv
    | JArr l => indexed_from 0 l
    | JStr s => indexed_from 0 (map (fun c => JStr (String c EmptyString)) (list_ascii_of_string s))
    | _ => []
    end.

Definition is_object (v : json) : bool :=
    match v with JObj _ | JArr _ => true | _ => false end.

  (** The errors [transformWorkspacePaths] throws. *)
Inductive ws_error :=
  | InvalidWorkspaceJson   (* "Invalid workspace JSON: ..." *)
  | MissingFolders         (* "Workspace file must contain a 'folders' array" *)
  | FoldersNotArray        (* "Workspace 'folders' must be an array" *)
  | TypeError.             (* a runtime TypeError (null document, non-string path) *)

  (** [locationPath.search(/[*]/)]. *)
Fixpoint index_of (c : ascii) (s : string) : option nat :=
    match s with
    | EmptyString => None
    | String a r => if Ascii.eqb a c then Some O else option_map S (index_of c r)
    end.

  (** [s.lastIndexOf(c, pos)]: the last index [<= pos] holding [c]. *)
Fixpoint last_index_upto (c : ascii) (s : string) (pos : nat) : option nat :=
    match s with
    | EmptyString => None
    | String a r =>
        let later := match pos with
                     | O => None
                     | S p => option_map S (last_index_upto c r p)
                     end in
        match later with
        | Some i => Some i
        | None => if Ascii.eqb a c then Some O else None
        end
    end.

Definition substring_from (n : nat) (s : string) : string :=
    String.substring n (String.length s - n) s.

  (** [.replace(/\\/g, '/')]. *)
Fixpoint replace_backslashes (s : string) : string :=
    match s with
    | EmptyString => EmptyString
    | String a r =>
        String (if Ascii.eqb a "\"%char then "/"%char else a) (replace_backslashes r)
    end.

Definition chatSettingsKeys : list string :=
    ["chat.promptFilesLocations"; "chat.instructionsFilesLocations"; "chat.modeFilesLocations"].

Section Transform.

    (** [JSON5.parse]: [None] when it throws. *)
Variable JSON5_parse : string -> option json.
    (** [process.cwd()], used by [path.resolve]. *)
Variable cwd : string.

    (** One key of a chat settings location map. *)
Definition location_key (templateDir locationPath : string) : string :=
      if NodePath.is_absolute locationPath then locationPath
      else
        match index_of "*"%char locationPath with
        | None => replace_backslashes (NodePath.resolve cwd [templateDir; locationPath])
        | Some firstGlobIndex =>
            let basePathEnd := last_index_upto "/"%char locationPath firstGlobIndex in
            let basePath :=
              match basePathEnd with
              | Some b => String.substring 0 b locationPath
              | None => "."
              end in
            let patternPath :=
              substring_from (match basePathEnd with Some b => b | None => O end) locationPath in
            replace_backslashes (NodePath.resolve cwd [templateDir; basePath] ++ patternPath)
        end.

Definition transform_location_map (templateDir : string) (locationMap : json) : json :=
      JObj (fold_left (fun acc '(k, v) => obj_set acc (location_key templateDir k) v)
                      (entries locationMap) []).

    (** One iteration of the settings loop. *)
Definition settings_step (templateDir : string) (settings : json)
        (ts : list (string * json)) (settingKey : string) : list (string * json) :=
      let locationMap := prop settings settingKey in
      match locationMap with
      | Some lm =>
          if truthy locationMap && is_object lm
          then obj_set ts settingKey (transform_location_map templateDir lm)
          else ts
      | None => ts
      end.

    (** The settings loop, starting from [{...workspace.settings}]. *)
Definition transform_settings (templateDir : string) (settings : json)
        : list (string * json) :=
      fold_left (settings_step templateDir settings) chatSettingsKeys (entries settings).

    (** One folder of [workspace.folders.map(...)]; [None] when [folder.path]
        is not a string ([path.isAbsolute] throws) or [folder] is null. *)
Definition transform_folder (templateDir : string) (folder : json) : option json :=
      match folder with
      | JObj kv =>
          match lookup "path" kv with
          | Some (JStr folderPath) =>
              if NodePath.is_absolute folderPath then Some folder
              else Some (JObj (obj_set kv "path"
                                 (JStr (NodePath.resolve cwd [templateDir; folderPath]))))
          | _ => None
          end
      | _ => None
      end.

Fixpoint map_opt {A B} (f : A -> option B) (l : list A) : option (list B) :=
      match l with
      | [] => Some []
      | x :: r =>
          match f x with
          | Some y => option_map (cons y) (map_opt f r)
          | None => None
          end
      end.

    (** The transformed workspace, before [JSON.stringify(_, null, 2)]
        (a [settings] property that reads [undefined] is dropped by the
        serialization and is left out here). *)
Definition transformWorkspacePaths (workspaceContent templateDir : string)
        : ws_error + json :=
      match JSON5_parse workspaceContent with
      | None => inl InvalidWorkspaceJson
      | Some JNull => inl TypeError
      | Some workspace =>
          let folders := prop workspace "folders" in
          if negb (truthy folders) then inl MissingFolders
          else
            match folders with
            | Some (JArr fs) =>
                match map_opt (transform_folder templateDir) fs with
                | None => inl TypeError
                | Some transformedFolders =>
                    let updatedFolders := JObj [("path", JStr ".")] :: transformedFolders in
                    let settings := prop workspace "settings" in
                    let transformedSettings :=
                      if truthy settings
                      then option_map (fun s => JObj (transform_settings templateDir s)) settings
                      else settings in
                    let o := obj_set (entries workspace) "folders" (JArr updatedFolders) in
                    let o := match transformedSettings with
                             | Some s => obj_set o "settings" s
                             | None => o
                             end in
                    inr (JObj o)
                end
            | _ => inl FoldersNotArray
            end
      end.

End Transform.

End Workspace.

(** ** The pool directory

    The part of the filesystem the pool operations touch: the pool root, the
    entries directly under it (in [readdir] order) and, for each directory
    entry, the files directly inside it with their contents. A slot's lock
    marker and configuration are such files. *)
Module Pool.

Record Entry := mkEntry {
    name : string;
    isDirectory : bool;
    files : list (string * string)
  }.

Inductive Root :=
  | NoRoot
  | RootFile
  | RootDir (entries : list Entry).

  (** Lines written to stdout / stderr by the dispatch code. *)
Inductive Message :=
  | ErrNoUnlocked                  (* "error: No unlocked subagents available. ..." *)
  | ErrText (msg : string)         (* any other console.error line *)
  | OutSuccess (subagent_name response_file : string)  (* {success: true, ...} *)
  | OutDispatched (subagent response_file temp_file : string)  (* {status: "dispatched", ...} *)
  | OutError (error : string)      (* {success: false, error} *)
  | OutResponse (content : string). (* the agent response echoed to stdout *)

  (** The effects issued, in order: filesystem calls and output lines. *)
Inductive Effect :=
  | MakeDir (path : string)
  | WriteFile (path content : string)
  | RemoveFile (path : string)
  | Print (m : Message).

Record FS := mkFS { root : Root; log : list Effect }.

  (** Outcome of running code on a filesystem: a value, a thrown error, or
      a loop that never ends. *)
Inductive Outcome (A : Type) :=
  | Done (a : A) (fs : FS)
  | Thrown (msg : string) (fs : FS)
  | Diverges.
Arguments Done {A}. Arguments Thrown {A}. Arguments Diverges {A}.

Definition M (A : Type) := FS -> Outcome A.

Definition ret {A} (a : A) : M A := fun fs => Done a fs.
Definition throw {A} (msg : string) : M A := fun fs => Thrown msg fs.
Definition bind {A B} (m : M A) (k : A -> M B) : M B :=
    fun fs => match m fs with
              | Done a fs' => k a fs'
              | Thrown e fs' => Thrown e fs'
              | Diverges => Diverges
              end.
Definition get : M FS := fun fs => Done fs fs.
  (** [try { m } catch (error) { h(error.message) }] *)
Definition catch {A} (m : M A) (h : string -> M A) : M A :=
    fun fs => match m fs with
              | Thrown e fs' => h e fs'
              | r => r
              end.

Notation "x <- m ;; k" := (bind m (fun x => k))
    (at level 61, m at next level, right associativity).
Notation "m ;;; k" := (bind m (fun _ => k)) (at level 61, right associativity).

Definition log_action (a : Effect) (fs : FS) : list Effect := log fs ++ [a].

Definition emit (m : Message) : M unit :=
    fun fs => Done tt (mkFS (root fs) (log_action (Print m) fs)).

Section Fs.
    (** The pool root, as [path.resolve] returned it. *)
Variable targetPath : string.

    (** [entry.absolutePath] of [readDirEntries]. *)
Definition slot_path (e : Entry) : string := NodePath.join [targetPath; name e].

Definition at_slot (dir : string) (e : Entry) : bool := String.eqb (slot_path e) dir.

Definition has_file (f : string) (e : Entry) : bool :=
      existsb (fun '(n, _) => String.eqb n f) (files e).

    (** [pathExists(targetPath)]. *)
Definition pathExists_root : M bool :=
      fun fs => Done (match root fs with NoRoot => false | _ => true end) fs.

    (** [pathExists(dir)] for a child [dir] of the root. *)
Definition pathExists_slot (dir : string) : M bool :=
      fun fs => Done (match root fs with
                      | RootDir es => existsb (at_slot dir) es
                      | _ => false
                      end) fs.

    (** [pathExists(path.join(dir, f))] for a child [dir] of the root. *)
Definition pathExists_in (dir f : string) : M bool :=
      fun fs => Done (match root fs with
                      | RootDir es =>
                          existsb (fun e => at_slot dir e && isDirectory e && has_file f e) es
                      | _ => false
                      end) fs.

Record DirectoryEntry := mkDirectoryEntry {
      de_name : string;
      absolutePath : string;
      de_isDirectory : bool
    }.

    (** [readDirEntries(targetPath)]. *)
Definition readDirEntries : M (list DirectoryEntry) :=
      fun fs => match root fs with
                | RootDir es =>
                    Done (map (fun e => mkDirectoryEntry (name e) (slot_path e) (isDirectory e)) es) fs
                | RootFile => Thrown "ENOTDIR" fs
                | NoRoot => Thrown "ENOENT" fs
                end.

    (** [ensureDir(targetPath)] ([mkdir -p]). *)
Definition ensureDir_root : M unit :=
      fun fs => let l := log_action (MakeDir targetPath) fs in
                match root fs with
                | NoRoot => Done tt (mkFS (RootDir []) l)
                | RootDir es => Done tt (mkFS (RootDir es) l)
                | RootFile => Thrown "EEXIST" fs
                end.

    (** [ensureDir(dir)] for a child [dir] of the root. *)
Definition ensureDir_slot (dir : string) : M unit :=
      fun fs =>
        let l := log_action (MakeDir dir) fs in
        let fresh := mkEntry (NodePath.basename dir) true [] in
        match root fs with
        | NoRoot => Done tt (mkFS (RootDir [fresh]) l)
        | RootFile => Thrown "ENOTDIR" fs
        | RootDir es =>
            match find (at_slot dir) es with
            | Some e => if isDirectory e then Done tt (mkFS (RootDir es) l)
                        else Thrown "EEXIST" fs
            | None => Done tt (mkFS (RootDir (es ++ [fresh])) l)
            end
        end.

Fixpoint set_file (f c : string) (fl : list (string * string)) : list (string * string) :=
      match fl with
      | [] => [(f, c)]
      | (n, c') :: r => if String.eqb n f then (n, c) :: r else (n, c') :: set_file f c r
      end.

Definition update_slot (dir : string) (g : Entry -> Entry) (es : list Entry) : list Entry :=
      map (fun e => if at_slot dir e then g e else e) es.

    (** [writeFile(path.join(dir, f), content)] for a child [dir]. *)
Definition writeFile_in (dir f content : string) : M unit :=
      fun fs =>
        match root fs with
        | RootDir es =>
            if existsb (fun e => at_slot dir e && isDirectory e) es
            then Done tt (mkFS (RootDir (update_slot dir
                                 (fun e => mkEntry (name e) true (set_file f content (files e))) es))
                               (log_action (WriteFile (NodePath.join [dir; f]) content) fs))
            else Thrown "ENOENT" fs
        | _ => Thrown "ENOENT" fs
        end.

    (** [removeIfExists(path.join(dir, f))] for a child [dir]. *)
Definition removeIfExists_in (dir f : string) : M unit :=
      fun fs =>
        let l := log_action (RemoveFile (NodePath.join [dir; f])) fs in
        match root fs with
        | RootDir es =>
            match find (at_slot dir) es with
            | Some e =>
                if isDirectory e
                then Done tt (mkFS (RootDir (update_slot dir
                        (fun e => mkEntry (name e) true
                                    (filter (fun '(n, _) => negb (String.eqb n f)) (files e))) es)) l)
                else Thrown "ENOTDIR" fs
            | None => Done tt (mkFS (RootDir es) l)
            end
        | _ => Done tt (mkFS (root fs) l)
        end.

End Fs.

  (** Ordinal of a slot directory name: [Number.parseInt(name.split("-")[1], 10)]
      with [Number.isInteger]. *)
Definition slot_number (n : string) : option Z :=
    JsNumber.parseInt (nth 1 (NodePath.split_on "-"%char n) "").

Definition is_slot_name (n : string) : bool := String.prefix "subagent-" n.

  (** [arr.sort((a, b) => a.number - b.number)]: a stable sort by ordinal. *)
Fixpoint insert_by_number {A} (x : Z * A) (l : list (Z * A)) : list (Z * A) :=
    match l with
    | [] => [x]
    | y :: r => if fst x <? fst y then x :: y :: r else y :: insert_by_number x r
    end.

Definition sort_by_number {A} (l : list (Z * A)) : list (Z * A) :=
    fold_left (fun acc x => insert_by_number x acc) l [].

  (** String order of [Array.prototype.sort()] (code unit by code unit). *)
Fixpoint str_ltb (a b : string) : bool :=
    match a, b with
    | EmptyString, EmptyString => false
    | EmptyString, String _ _ => true
    | String _ _, EmptyString => false
    | String x a', String y b' =>
        if (nat_of_ascii x <? nat_of_ascii y)%nat then true
        else if Ascii.eqb x y then str_ltb a' b' else false
    end.

Fixpoint insert_string (x : string) (l : list string) : list string :=
    match l with
    | [] => [x]
    | y :: r => if str_ltb x y then x :: y :: r else y :: insert_string x r
    end.

Definition sort_strings (l : list string) : list string :=
    fold_left (fun acc x => insert_string x acc) l [].

  (** [Set<string>] in insertion order. *)
Definition set_add (x : string) (s : list string) : list string :=
    if existsb (String.eqb x) s then s else s ++ [x].
Definition set_delete (x : string) (s : list string) : list string :=
    filter (fun y => negb (String.eqb x y)) s.

Definition DEFAULT_LOCK_NAME : string := "subagent.lock".
Definition DEFAULT_WAKEUP_FILENAME : string := "wakeup.chatmode.md".

End Pool.

(** ** [provisionSubagents] (src/unnamed/part_004, src/vscode/provision.ts) *)
Module Provision.
Import Pool.

Record ProvisionOptions := mkProvisionOptions {
    targetRoot : string;
    (** an integer-valued Number; non-integers are rejected by the same
        guard as counts below 1 *)
    subagents : Z;
    lockName : string;
    force : bool;
    dryRun : bool;
    (** [JSON.stringify(workspaceTemplate, null, 2)] *)
    workspaceTemplateText : string;
    wakeupContent : string
  }.

Record ProvisionResult := mkProvisionResult {
    created : list string;
    skippedExisting : list string;
    skippedLocked : list string
  }.

  (** [created], [skippedExisting], [lockedSubagents], [subagentsProvisioned]. *)
Record LoopState := mkLoopState {
    ls_created : list string;
    ls_skippedExisting : list string;
    ls_locked : list string;
    ls_provisioned : Z
  }.

Section Provision.
    (** [process.cwd()] *)
Variable cwd : string.
Variable o : ProvisionOptions.

Definition targetPathOf : string := NodePath.resolve cwd [targetRoot o].

Definition workspace_file (subagentDir : string) : string :=
      NodePath.basename subagentDir ++ ".code-workspace".

Definition write_templates (tp subagentDir : string) : M unit :=
      writeFile_in tp subagentDir (workspace_file subagentDir) (workspaceTemplateText o) ;;;
      writeFile_in tp subagentDir DEFAULT_WAKEUP_FILENAME (wakeupContent o).

    (** The [for (const entry of entries)] scan: [highestNumber],
        [lockedSubagents] and [existingSubagents] (before sorting). *)
Fixpoint scan (tp : string) (es : list DirectoryEntry) (highestNumber : Z)
        (lockedSubagents : list string) (existing : list (Z * string))
        : M (Z * list string * list (Z * string)) :=
      match es with
      | [] => ret (highestNumber, lockedSubagents, existing)
      | entry :: rest =>
          if negb (de_isDirectory entry) || negb (is_slot_name (de_name entry))
          then scan tp rest highestNumber lockedSubagents existing
          else
            match slot_number (de_name entry) with
            | None => scan tp rest highestNumber lockedSubagents existing
            | Some parsed =>
                locked <- pathExists_in tp (absolutePath entry) (lockName o) ;;
                scan tp rest (Z.max highestNumber parsed)
                  (if locked then set_add (absolutePath entry) lockedSubagents else lockedSubagents)
                  (existing ++ [(parsed, absolutePath entry)])
            end
      end.

    (** The [for (const subagent of existingSubagents)] loop. *)
Fixpoint existing_loop (tp : string) (existing : list (Z * string)) (st : LoopState)
        : M LoopState :=
      match existing with
      | [] => ret st
      | (_, subagentDir) :: rest =>
          if subagents o <=? ls_provisioned st then ret st
          else
            isLocked <- pathExists_in tp subagentDir (lockName o) ;;
            if isLocked && negb (force o) then existing_loop tp rest st
            else if isLocked && force o then
              (if dryRun o then ret tt
               else removeIfExists_in tp subagentDir (lockName o) ;;; write_templates tp subagentDir) ;;;
              existing_loop tp rest
                (mkLoopState (ls_created st ++ [subagentDir]) (ls_skippedExisting st)
                   (set_delete subagentDir (ls_locked st)) (JsNumber.add1 (ls_provisioned st)))
            else if negb isLocked && force o then
              (if dryRun o then ret tt else write_templates tp subagentDir) ;;;
              existing_loop tp rest
                (mkLoopState (ls_created st ++ [subagentDir]) (ls_skippedExisting st)
                   (ls_locked st) (JsNumber.add1 (ls_provisioned st)))
            else
              (if dryRun o then ret tt
               else ex <- pathExists_in tp subagentDir (workspace_file subagentDir) ;;
                    if ex then ret tt else write_templates tp subagentDir) ;;;
              existing_loop tp rest
                (mkLoopState (ls_created st) (ls_skippedExisting st ++ [subagentDir])
                   (ls_locked st) (JsNumber.add1 (ls_provisioned st)))
      end.

    (** The [while (subagentsProvisioned < subagents)] loop; running out of
        [fuel] means the counter stopped growing (it is stuck at 2^53), so
        the loop never ends. *)
Fixpoint new_loop (tp : string) (fuel : nat) (nextIndex : Z) (st : LoopState)
        : M LoopState :=
      if ls_provisioned st <? subagents o then
        match fuel with
        | O => fun _ => Diverges
        | S f =>
            let nextIndex' := JsNumber.add1 nextIndex in
            let subagentDir := NodePath.join [tp; "subagent-" ++ JsNumber.toString nextIndex'] in
            (if dryRun o then ret tt
             else ensureDir_slot tp subagentDir ;;; write_templates tp subagentDir) ;;;
            new_loop tp f nextIndex'
              (mkLoopState (ls_created st ++ [subagentDir]) (ls_skippedExisting st)
                 (ls_locked st) (JsNumber.add1 (ls_provisioned st)))
        end
      else ret st.

Definition provisionSubagents : M ProvisionResult :=
      if subagents o <? 1 then throw "subagents must be a positive integer"
      else
        let tp := targetPathOf in
        (if dryRun o then ret tt else ensureDir_root tp) ;;;
        ex <- pathExists_root ;;
        sc <- (if ex then es <- readDirEntries tp ;; scan tp es 0 [] [] else ret (0, [], [])) ;;
        let '(highestNumber, lockedSubagents, existing) := sc in
        st <- existing_loop tp (sort_by_number existing) (mkLoopState [] [] lockedSubagents 0) ;;
        st' <- new_loop tp (Z.to_nat (subagents o)) highestNumber st ;;
        ret (mkProvisionResult (ls_created st') (ls_skippedExisting st')
               (sort_strings (ls_locked st'))).

End Provision.

End Provision.

(** ** Slot candidates, [unlockSubagents] and [findUnlockedSubagent] *)
Module Slots.
Import Pool.

  (** [entries.filter(isDirectory && startsWith("subagent-")).map(number)
      .filter(Number.isInteger).sort(by number)]. *)
Definition slot_candidates (es : list DirectoryEntry) : list (Z * string) :=
    sort_by_number
      (flat_map (fun entry =>
                   if de_isDirectory entry && is_slot_name (de_name entry) then
                     match slot_number (de_name entry) with
                     | Some k => [(k, absolutePath entry)]
                     | None => []
                     end
                   else []) es).

Record UnlockOptions := mkUnlockOptions {
    u_targetRoot : string;
    u_lockName : string;
    subagentName : option string;
    unlockAll : bool;
    u_dryRun : bool
  }.

Fixpoint unlock_loop (tp lockName : string) (dryRun : bool) (candidates : list (Z * string))
      (unlocked : list string) : M (list string) :=
    match candidates with
    | [] => ret unlocked
    | (_, p) :: rest =>
        l <- pathExists_in tp p lockName ;;
        if l then
          (if dryRun then ret tt else removeIfExists_in tp p lockName) ;;;
          unlock_loop tp lockName dryRun rest (unlocked ++ [p])
        else unlock_loop tp lockName dryRun rest unlocked
    end.

Section Unlock.
Variable cwd : string.
Variable o : UnlockOptions.

    (** [unlockSubagents] (src/unnamed/part_004, lines 187-239). Slot names
        are resolved with [path.join(targetPath, name)]; paths outside the
        pool root are not part of the model. *)
Definition unlockSubagents : M (list string) :=
      let hasName := match subagentName o with Some _ => true | None => false end in
      if (negb hasName && negb (unlockAll o)) || (hasName && unlockAll o)
      then throw "must specify either --subagent or --all (but not both)"
      else
        let tp := NodePath.resolve cwd [u_targetRoot o] in
        ex <- pathExists_root ;;
        if negb ex then throw ("target root " ++ tp ++ " does not exist")
        else if unlockAll o then
          es <- readDirEntries tp ;;
          unlock_loop tp (u_lockName o) (u_dryRun o) (slot_candidates es) []
        else
          let resolvedName := match subagentName o with Some n => n | None => "" end in
          let subagentDir := NodePath.join [tp; resolvedName] in
          e <- pathExists_slot tp subagentDir ;;
          if negb e then throw (resolvedName ++ " does not exist in " ++ tp)
          else
            l <- pathExists_in tp subagentDir (u_lockName o) ;;
            if l then
              (if u_dryRun o then ret tt else removeIfExists_in tp subagentDir (u_lockName o)) ;;;
              ret [subagentDir]
            else ret [].
End Unlock.

Fixpoint first_unlocked (tp : string) (subagents : list (Z * string)) : M (option string) :=
    match subagents with
    | [] => ret None
    | (_, p) :: rest =>
        l <- pathExists_in tp p DEFAULT_LOCK_NAME ;;
        if l then first_unlocked tp rest else ret (Some p)
    end.

  (** [findUnlockedSubagent(subagentRoot)] (agentDispatch.ts, lines 50-73). *)
Definition findUnlockedSubagent (subagentRoot : string) : M (option string) :=
    ex <- pathExists_root ;;
    if negb ex then ret None
    else
      es <- readDirEntries subagentRoot ;;
      first_unlocked subagentRoot (slot_candidates es).

End Slots.

(** ** [dispatchAgent] (src/src/vscode/agentDispatch.ts, lines 345-442) *)
Module Dispatch.
Import Pool Slots.

Inductive ReadResult := ReadOk (content : string) | ReadErr (code : string).
Inductive PromptCheck := PromptOk | PromptMissing | PromptNotFile.

Record DispatchOptions := mkDispatchOptions {
    userQuery : string;
    promptFile : option string;
    workspaceTemplate : option string;
    dryRun : bool;
    wait : bool;
    vscodeCmd : string;
    subagentRoot : option string
  }.

  (** What the code observes outside the pool directory: the prompt file,
      the default root, random and clock values, the workspace template
      (already transformed by [transformWorkspacePaths]; [None] when
      [copyAgentConfig] throws), the host editor, and the response file. *)
Record World := mkWorld {
    prompt_check : PromptCheck;
    defaultRoot : string;
    chatId : string;
    transformedWorkspace : option string;
    promptContent : string;
    attachments_ok : bool;
    timestamp : string;
    host_open : bool;
    wakeup_template : option string;
    launch_ok : bool;
    response_appears : bool;
    read_result : nat -> ReadResult
  }.

Section Dispatch.
Variable w : World.

Definition ends_with (suffix s : string) : bool :=
      let n := String.length s in
      let k := String.length suffix in
      (k <=? n)%nat && String.eqb (String.substring (n - k) k s) suffix.

    (** [readdir(subagentDir)] for a child of the root. *)
Definition slot_files (tp dir : string) : M (list string) :=
      fun fs => match root fs with
                | RootDir es =>
                    match find (at_slot tp dir) es with
                    | Some e => Done (map fst (files e)) fs
                    | None => Thrown "ENOENT" fs
                    end
                | _ => Thrown "ENOENT" fs
                end.

Fixpoint remove_all (tp dir : string) (fl : list string) : M unit :=
      match fl with
      | [] => ret tt
      | f :: r => removeIfExists_in tp dir f ;;; remove_all tp dir r
      end.

    (** [copyAgentConfig]: writes the transformed workspace into the slot
        (creating [messages/] is below the modelled depth). *)
Definition copyAgentConfig (tp dir : string) : M unit :=
      match transformedWorkspace w with
      | Some content => writeFile_in tp dir (Provision.workspace_file dir) content
      | None => throw "workspace template"
      end.

    (** [createSubagentLock]: purges the slot's [*.chatmode.md] files (the
        files of [messages/] are below the modelled depth) and writes the
        lock marker. *)
Definition createSubagentLock (tp dir : string) : M unit :=
      fl <- slot_files tp dir ;;
      remove_all tp dir (filter (ends_with ".chatmode.md") fl) ;;;
      writeFile_in tp dir DEFAULT_LOCK_NAME "".

Definition prepareSubagentDirectory (tp dir : string) (promptFile : option string)
        (dryRun : bool) : M Z :=
      if dryRun then ret 0
      else
        r1 <- catch (copyAgentConfig tp dir ;;; ret 0)
                    (fun e => emit (ErrText ("error: " ++ e)) ;;; ret 1) ;;
        if negb (r1 =? 0) then ret r1 else
        r2 <- catch (createSubagentLock tp dir ;;; ret 0)
                    (fun e => emit (ErrText ("error: Failed to create subagent lock: " ++ e)) ;;; ret 1) ;;
        if negb (r2 =? 0) then ret r2 else
        match promptFile with
        | Some _ =>
            catch (writeFile_in tp dir (chatId w ++ ".chatmode.md") (promptContent w) ;;; ret 0)
                  (fun e => emit (ErrText ("error: Failed to copy prompt file to chatmode: " ++ e)) ;;; ret 1)
        | None => ret 0
        end.

    (** [launchVsCodeWithChat]: its effects on the slot directory (the
        liveness marker is cleared and the wakeup chat mode copied when the
        host does not have the workspace open); the request file lives in
        [messages/]. Errors are caught and reported as [false]. *)
Definition launchVsCodeWithChat (tp dir : string) : M bool :=
      catch
        ((if host_open w then ret tt
          else removeIfExists_in tp dir ".alive" ;;;
               match wakeup_template w with
               | Some c => writeFile_in tp dir DEFAULT_WAKEUP_FILENAME c
               | None => ret tt
               end) ;;;
         if launch_ok w then ret true
         else emit (ErrText "warning: Failed to launch VS Code") ;;; ret false)
        (fun e => emit (ErrText ("warning: Failed to launch VS Code: " ++ e)) ;;; ret false).

    (** The bounded read loop of [waitForResponseOutput] (maxAttempts = 10). *)
Fixpoint read_loop (attempts : nat) (fuel : nat) : M bool :=
      match fuel with
      | O => ret false
      | S f =>
          match read_result w attempts with
          | ReadOk content => emit (OutResponse content) ;;; ret true
          | ReadErr code =>
              let attempts' := S attempts in
              if negb (String.eqb code "EBUSY") || (10 <=? attempts')%nat
              then emit (ErrText ("error: failed to read agent response: " ++ code)) ;;; ret false
              else read_loop attempts' f
          end
      end.

    (** [waitForResponseOutput]: polls without bound for the response file,
        then reads it with bounded retries. *)
Definition waitForResponseOutput (responseFileFinal : string) : M bool :=
      emit (ErrText ("waiting for agent to finish: " ++ responseFileFinal)) ;;;
      if response_appears w then read_loop 0 10 else (fun _ => Diverges).

Definition dispatchAgent (o : DispatchOptions) : M Z :=
      catch (
        match promptFile o with
        | Some _ =>
            match prompt_check w with
            | PromptOk => ret tt
            | PromptMissing => throw "Prompt file not found"
            | PromptNotFile => throw "Prompt file must be a file, not a directory"
            end
        | None => ret tt
        end ;;;
        let subagentRootPath := match subagentRoot o with Some r => r | None => defaultRoot w end in
        found <- findUnlockedSubagent subagentRootPath ;;
        match found with
        | None => emit ErrNoUnlocked ;;; ret 1
        | Some subagentDir =>
            let name := NodePath.basename subagentDir in
            emit (ErrText ("info: Acquiring subagent: " ++ name)) ;;;
            preparationResult <- prepareSubagentDirectory subagentRootPath subagentDir
                                   (promptFile o) (dryRun o) ;;
            if negb (preparationResult =? 0) then ret preparationResult
            else
              (if attachments_ok w then ret tt else throw "Attachment not found") ;;;
              let messagesDir := NodePath.join [subagentDir; "messages"] in
              let responseFileTmp := NodePath.join [messagesDir; timestamp w ++ "_res.tmp.md"] in
              let responseFileFinal := NodePath.join [messagesDir; timestamp w ++ "_res.md"] in
              emit (OutSuccess name responseFileFinal) ;;;
              if dryRun o then ret 0
              else
                launchSuccess <- launchVsCodeWithChat subagentRootPath subagentDir ;;
                if negb launchSuccess then ret 1
                else if negb (wait o) then
                  emit (OutDispatched name responseFileFinal responseFileTmp) ;;;
                  emit (ErrText ("Agent dispatched. Response will be written to: " ++ responseFileFinal)) ;;;
                  ret 0
                else
                  received <- waitForResponseOutput responseFileFinal ;;
                  if negb received then ret 1
                  else removeIfExists_in subagentRootPath subagentDir DEFAULT_LOCK_NAME ;;; ret 0
        end)
      (fun e => emit (OutError e) ;;; ret 1).

End Dispatch.

End Dispatch.

(** ** [getDefaultSubagentRoot] (src/src/vscode/constants.ts) *)
Module Constants.

  (** [getDefaultSubagentRoot(vscodeCmd)], [homedir] being [os.homedir()]. *)
Definition getDefaultSubagentRoot (homedir vscodeCmd : string) : string :=
    let folder := if String.eqb vscodeCmd "code-insiders"
                  then "vscode-insiders-agents" else "vscode-agents" in
    NodePath.join [homedir; ".subagent"; folder].

End Constants.

(** ** [createRequestPrompt] (src/src/vscode/agentDispatch.ts, lines 266-288) *)
Module RequestPrompt.

Definition nl : string := String (ascii_of_nat 10) EmptyString.

  (** [userQuery.replace(/`/g, '\\`')]. *)
Fixpoint escape_backticks (s : string) : string :=
    match s with
    | EmptyString => EmptyString
    | String a r =>
        if Ascii.eqb a "`"%char then String "\"%char (String "`"%char (escape_backticks r))
        else String a (escape_backticks r)
    end.

Definition createRequestPrompt (userQuery responseFileTmp responseFileFinal subagentName
      vscodeCmd : string) : string :=
    let escapedUserQuery := escape_backticks userQuery in
    "[[ ## task ## ]]" ++ nl ++
    escapedUserQuery ++ nl ++
    nl ++
    "[[ ## system_instructions ## ]]" ++ nl ++
    nl ++
    "**IMPORTANT**: Follow these exact steps:" ++ nl ++
    "1. Create and write your complete response to: " ++ responseFileTmp ++ nl ++
    "2. When completely finished, run these PowerShell commands to signal completion:" ++ nl ++
    "```" ++ nl ++
    "Move-Item -LiteralPath '" ++ responseFileTmp ++ "' -Destination '" ++ responseFileFinal ++ "'" ++ nl ++
    "subagent " ++ vscodeCmd ++ " unlock --subagent " ++ subagentName ++ nl ++
    "```" ++ nl ++
    nl ++
    "Do not proceed to step 2 until your response is completely written to the temporary file.".

End RequestPrompt.

(** ** [dispatchAgentSession] (src/src/vscode/agentDispatch.ts, lines 449-590) *)
Module Session.
Import Pool Slots Dispatch.


Section Session.
Variable w : World.



End Session.
End Session.

(** ** [getAllSubagentWorkspaces], [listSubagents] and [warmupSubagents]
    (src/src/vscode/agentDispatch.ts, lines 25-48 and 592-718) *)
Module Listing.
Import Pool Slots.

  (** [path.dirname(p)] of Node's posix [path]: the index of the last
      separator before the last component, scanning down to index 1. *)
Fixpoint dirname_end (p : string) (i : nat) (matchedSlash : bool) : option nat :=
    match i with
    | O => None
    | S j =>
        match String.get i p with
        | Some c =>
            if Ascii.eqb c "/"%char then
              (if matchedSlash then dirname_end p j true else Some i)
            else dirname_end p j false
        | None => dirname_end p j matchedSlash
        end
    end.

Definition dirname (p : string) : string :=
    if String.eqb p "" then "."
    else
      let hasRoot := NodePath.is_absolute p in
      match dirname_end p (String.length p - 1) true with
      | None => if hasRoot then "/" else "."
      | Some e => if hasRoot && (e =? 1)%nat then "//" else String.substring 0 e p
      end.

  (** [String(n)] for a count. *)
Definition count_str (n : nat) : string := JsNumber.toString (Z.of_nat n).

Definition hint : string :=
    "hint: Provision subagents first with:" ++ RequestPrompt.nl
    ++ "  subagent code provision --subagents <count>".

Fixpoint emit_all (ms : list Message) : M unit :=
    match ms with
    | [] => ret tt
    | m :: r => emit m ;;; emit_all r
    end.

  (** The [for (const subagent of subagents)] loop of
      [getAllSubagentWorkspaces]. *)
Fixpoint workspaces_loop (tp : string) (subagents : list (Z * string)) (workspaces : list string)
      : M (list string) :=
    match subagents with
    | [] => ret workspaces
    | (_, p) :: rest =>
        let workspacePath := NodePath.join [p; Provision.workspace_file p] in
        ex <- pathExists_in tp p (Provision.workspace_file p) ;;
        workspaces_loop tp rest (if ex then workspaces ++ [workspacePath] else workspaces)
    end.

  (** [getAllSubagentWorkspaces(subagentRoot)]. *)
Definition getAllSubagentWorkspaces (subagentRoot : string) : M (list string) :=
    ex <- pathExists_root ;;
    if negb ex then ret []
    else
      es <- readDirEntries subagentRoot ;;
      workspaces_loop subagentRoot (slot_candidates es) [].

Record SubagentInfo := mkSubagentInfo {
    info_name : string;
    info_path : string;
    info_workspace : option string;
    info_locked : bool
  }.

  (** [status: isLocked ? "locked" : "available"] *)
Definition info_status (i : SubagentInfo) : string :=
    if info_locked i then "locked" else "available".

  (** The callback of [subagents.map] in [listSubagents]. *)
Definition subagent_info (tp : string) (subagent : Z * string) : M SubagentInfo :=
    let p := snd subagent in
    let workspaceFile := NodePath.join [p; Provision.workspace_file p] in
    isLocked <- pathExists_in tp p DEFAULT_LOCK_NAME ;;
    workspaceExists <- pathExists_in tp p (Provision.workspace_file p) ;;
    ret (mkSubagentInfo (NodePath.basename p) p
           (if workspaceExists then Some workspaceFile else None) isLocked).

  (** [Promise.all(subagents.map(...))]: the callbacks only read. *)
Fixpoint infos_of (tp : string) (subagents : list (Z * string)) : M (list SubagentInfo) :=
    match subagents with
    | [] => ret []
    | s :: rest =>
        i <- subagent_info tp s ;;
        is <- infos_of tp rest ;;
        ret (i :: is)
    end.

Record ListOptions := mkListOptions {
    l_subagentRoot : option string;
    jsonOutput : bool;
    l_vscodeCmd : string
  }.

Inductive WarmupCount :=
  | Int (z : Z)
  | NaN
  | Infinity (negative : bool).

  (** [Math.max(1, x)]. *)
Definition max1 (x : WarmupCount) : WarmupCount :=
    match x with
    | Int z => Int (Z.max 1 z)
    | NaN => NaN
    | Infinity false => Infinity false
    | Infinity true => Int 1
    end.

  (** The number of elements [arr.slice(0, end)] keeps of an array of
      length [len]. *)
Definition slice_end (len : nat) (e : WarmupCount) : nat :=
    match e with
    | Int z => if z <? 0 then Z.to_nat (Z.max (Z.of_nat len + z) 0) else Nat.min (Z.to_nat z) len
    | NaN => O
    | Infinity false => len
    | Infinity true => O
    end.

Record WarmupOptions := mkWarmupOptions {
    w_subagentRoot : option string;
    (** the count after its default (1) was applied: a value of
        [Number.parseInt], which is an integer, NaN or an infinity *)
    w_subagents : WarmupCount;
    w_dryRun : bool;
    w_vscodeCmd : string
  }.

Section Listing.
    (** [os.homedir()] *)
Variable homedir : string.

Definition no_subagents_found (o : ListOptions) (root : string) : M unit :=
      if jsonOutput o then ret tt
      else emit (ErrText ("No subagents found in " ++ root)) ;;; emit (ErrText hint).

    (** [listSubagents(options)]: the exit code and the listing it prints,
        as JSON (the [{subagents: [...]}] document) or as one table line per
        entry; both formats print the same list, the formatting is not
        modelled. *)
Definition listSubagents (o : ListOptions) : M (Z * list SubagentInfo) :=
      let resolvedSubagentRoot :=
        match l_subagentRoot o with
        | Some r => r
        | None => Constants.getDefaultSubagentRoot homedir (l_vscodeCmd o)
        end in
      ex <- pathExists_root ;;
      if negb ex then no_subagents_found o resolvedSubagentRoot ;;; ret (1, [])
      else
        es <- readDirEntries resolvedSubagentRoot ;;
        let subagents := slot_candidates es in
        if (length subagents =? 0)%nat then no_subagents_found o resolvedSubagentRoot ;;; ret (1, [])
        else
          infoList <- infos_of resolvedSubagentRoot subagents ;;
          if jsonOutput o then ret (0, infoList)
          else
            let lockedCount := length (filter info_locked infoList) in
            let availableCount := (length infoList - lockedCount)%nat in
            emit (ErrText ("Found " ++ count_str (length infoList) ++ " subagent(s) in "
                           ++ resolvedSubagentRoot)) ;;;
            emit (ErrText ("  Available: " ++ count_str availableCount)) ;;;
            emit (ErrText ("  Locked: " ++ count_str lockedCount)) ;;;
            emit (ErrText "") ;;;
            ret (0, infoList).

    (** [warmupSubagents(options)]: the exit code and the workspaces passed
        to [spawn], in order. *)
Definition warmupSubagents (o : WarmupOptions) : M (Z * list string) :=
      let resolvedSubagentRoot :=
        match w_subagentRoot o with
        | Some r => r
        | None => Constants.getDefaultSubagentRoot homedir (w_vscodeCmd o)
        end in
      workspaces <- getAllSubagentWorkspaces resolvedSubagentRoot ;;
      if (length workspaces =? 0)%nat then
        emit (ErrText ("info: No provisioned subagents found in " ++ resolvedSubagentRoot)) ;;;
        emit (ErrText hint) ;;;
        ret (1, [])
      else
        let workspacesToOpen :=
          firstn (slice_end (length workspaces) (max1 (w_subagents o))) workspaces in
        emit (ErrText ("Found " ++ count_str (length workspaces) ++ " subagent workspace(s), opening "
                       ++ count_str (length workspacesToOpen))) ;;;
        if w_dryRun o then
          emit (ErrText "Workspaces that would be opened:") ;;;
          emit_all (map (fun ws => ErrText ("  " ++ ws)) workspacesToOpen) ;;;
          ret (0, [])
        else
          emit (ErrText "Opening workspaces...") ;;;
          emit_all (map (fun '(index, ws) =>
                           ErrText ("  [" ++ count_str (S index) ++ "/"
                                    ++ count_str (length workspacesToOpen) ++ "] "
                                    ++ NodePath.basename (dirname ws)))
                        (combine (seq 0 (length workspacesToOpen)) workspacesToOpen)) ;;;
          emit (ErrText "✓ All workspaces opened") ;;;
          ret (0, workspacesToOpen).

End Listing.
End Listing.

(** ** The filesystem, with paths resolved as the kernel resolves them

    The pool code is read a second time on a model of the whole filesystem:
    every file and directory but the root is listed with its path from the
    root, and a path string is resolved one component at a time ([""] and
    ["."] stay, [".."] goes up, every component but the last must name a
    directory). [access], [readdir], [stat], [readFile], [writeFile],
    [mkdir -p], [rm] and [copyFile] fail or succeed as Node's
    [fs/promises] does on such a tree; a failure is its error code. The lines
    the code prints are collected next to the filesystem. *)
Module Disk.

Inductive Node := FileN (content : string) | DirN.

(** A path from the root, as its list of components. *)
Definition Key := list string.

(** Every file and directory but the root (which is a directory); the
    entries of a directory are listed in [readdir] order. *)
Definition FS := list (Key * Node).

(** Outcome of running code: a value, a thrown error, or a loop that never
    ends; with the filesystem reached and the lines printed on the way. *)
Inductive Outcome (A : Type) :=
  | Done (a : A) (fs : FS) (out : list Pool.Message)
  | Thrown (msg : string) (fs : FS) (out : list Pool.Message)
  | Diverges.
Arguments Done {A}. Arguments Thrown {A}. Arguments Diverges {A}.

Definition M (A : Type) := FS -> Outcome A.

Definition prepend {A} (o : list Pool.Message) (r : Outcome A) : Outcome A :=
  match r with
  | Done a fs o' => Done a fs (o ++ o')%list
  | Thrown e fs o' => Thrown e fs (o ++ o')%list
  | Diverges => Diverges
  end.

Definition ret {A} (a : A) : M A := fun fs => Done a fs [].
Definition throw {A} (msg : string) : M A := fun fs => Thrown msg fs [].
Definition bind {A B} (m : M A) (k : A -> M B) : M B :=
  fun fs => match m fs with
            | Done a fs' o => prepend o (k a fs')
            | Thrown e fs' o => Thrown e fs' o
            | Diverges => Diverges
            end.
(** [try { m } catch (error) { h(error) }] *)
Definition catch {A} (m : M A) (h : string -> M A) : M A :=
  fun fs => match m fs with
            | Thrown e fs' o => prepend o (h e fs')
            | r => r
            end.
Definition emit (m : Pool.Message) : M unit := fun fs => Done tt fs [m].

Notation "x <- m ;; k" := (bind m (fun x => k))
  (at level 61, m at next level, right associativity).
Notation "m ;;; k" := (bind m (fun _ => k)) (at level 61, right associativity).

Definition key_eqb (a b : Key) : bool :=
  if list_eq_dec String.string_dec a b then true else false.

Fixpoint lookup (fs : FS) (k : Key) : option Node :=
  match fs with
  | [] => None
  | (k', n) :: r => if key_eqb k' k then Some n else lookup r k
  end.

(** The node at a path; the root is a directory. *)
Definition node_at (fs : FS) (k : Key) : option Node :=
  match k with [] => Some DirN | _ => lookup fs k end.

Definition is_dir (fs : FS) (k : Key) : bool :=
  match node_at fs k with Some DirN => true | _ => false end.

Definition exists_key (fs : FS) (k : Key) : bool :=
  match node_at fs k with Some _ => true | None => false end.

(** Replace the node at [k], or add it as the last entry. *)
Fixpoint set_node (fs : FS) (k : Key) (n : Node) : FS :=
  match fs with
  | [] => [(k, n)]
  | (k', n') :: r => if key_eqb k' k then (k', n) :: r else (k', n') :: set_node r k n
  end.

Definition remove_node (fs : FS) (k : Key) : FS :=
  filter (fun kn => negb (key_eqb (fst kn) k)) fs.

Fixpoint strip (k k' : Key) : option Key :=
  match k, k' with
  | [], r => Some r
  | x :: a, y :: b => if String.eqb x y then strip a b else None
  | _ :: _, [] => None
  end.

(** The entries directly inside the directory [k], in order. *)
Definition list_dir (fs : FS) (k : Key) : list (string * Node) :=
  flat_map (fun kn => match strip k (fst kn) with
                      | Some [c] => [(c, snd kn)]
                      | _ => []
                      end) fs.

(** Where a path leads: to a path from the root, or to [ENOENT] or
    [ENOTDIR] because some component before the last is missing or is not a
    directory. *)
Inductive Loc := At (k : Key) | NoEnt | NotDir.

Fixpoint walk (fs : FS) (cur : Key) (cs : list string) : Loc :=
  match cs with
  | [] => At cur
  | c :: rest =>
      if negb (is_dir fs cur) then (if exists_key fs cur then NotDir else NoEnt)
      else if String.eqb c "" || String.eqb c "." then walk fs cur rest
      else if String.eqb c ".." then walk fs (removelast cur) rest
      else walk fs (cur ++ [c])%list rest
  end.

(** [mkdir(p, { recursive: true })] from the directory [cur]: the missing
    directories are created; a file in the way fails with [EEXIST] when it is
    the target and with [ENOTDIR] otherwise. *)
Fixpoint mkdir_walk (fs : FS) (cur : Key) (cs : list string) : Outcome unit :=
  match cs with
  | [] => Done tt fs []
  | c :: rest =>
      if negb (is_dir fs cur) then Thrown (if exists_key fs cur then "ENOTDIR" else "ENOENT") fs []
      else if String.eqb c "" || String.eqb c "." then mkdir_walk fs cur rest
      else if String.eqb c ".." then mkdir_walk fs (removelast cur) rest
      else
        let k := (cur ++ [c])%list in
        match node_at fs k with
        | Some DirN => mkdir_walk fs k rest
        | Some (FileN _) => Thrown (match rest with [] => "EEXIST" | _ => "ENOTDIR" end) fs []
        | None => mkdir_walk (fs ++ [(k, DirN)])%list k rest
        end
  end.

(** [arr.map(f)] run through [Promise.all]: every call runs, and the call
    fails with the first failure once all have settled. *)
Fixpoint settle_all {A} (f : A -> M unit) (l : list A) (failed : option string) : M unit :=
  match l with
  | [] => match failed with Some e => throw e | None => ret tt end
  | x :: r =>
      e <- catch (f x ;;; ret None) (fun e => ret (Some e)) ;;
      settle_all f r (match failed with Some _ => failed | None => e end)
  end.

Section Ops.
(** [process.cwd()] *)
Variable cwd : string.

Definition cwd_key : Key :=
  rev (fold_left (NodePath.norm_step false) (NodePath.split_on "/"%char cwd) []).

Definition locate (fs : FS) (p : string) : Loc :=
  if String.eqb p "" then NoEnt
  else walk fs (if NodePath.is_absolute p then [] else cwd_key) (NodePath.split_on "/"%char p).

(** [pathExists(p)] ([access(p, F_OK)], false on any error). *)
Definition pathExists (p : string) : M bool :=
  fun fs => Done (match locate fs p with At k => exists_key fs k | _ => false end) fs [].

(** [readdir(p, { withFileTypes: true })]. *)
Definition readdir_types (p : string) : M (list (string * Node)) :=
  fun fs => match locate fs p with
            | At k => match node_at fs k with
                      | Some DirN => Done (list_dir fs k) fs []
                      | Some (FileN _) => Thrown "ENOTDIR" fs []
                      | None => Thrown "ENOENT" fs []
                      end
            | NotDir => Thrown "ENOTDIR" fs []
            | NoEnt => Thrown "ENOENT" fs []
            end.

(** [readdir(p)]: the names. *)
Definition readdir (p : string) : M (list string) :=
  es <- readdir_types p ;; ret (map fst es).

(** [readDirEntries(target)] (src/utils/fs.ts). *)
Definition readDirEntries (target : string) : M (list Pool.DirectoryEntry) :=
  es <- readdir_types target ;;
  ret (map (fun e => Pool.mkDirectoryEntry (fst e) (NodePath.join [target; fst e])
                       (match snd e with DirN => true | FileN _ => false end)) es).

(** [ensureDir(target)] ([mkdir(target, { recursive: true })]). *)
Definition ensureDir (target : string) : M unit :=
  fun fs => if String.eqb target "" then Thrown "ENOENT" fs []
            else mkdir_walk fs (if NodePath.is_absolute target then [] else cwd_key)
                   (NodePath.split_on "/"%char target).

(** [writeFile(p, content)]. *)
Definition writeFile (p content : string) : M unit :=
  fun fs => match locate fs p with
            | At k => match node_at fs k with
                      | Some DirN => Thrown "EISDIR" fs []
                      | _ => Done tt (set_node fs k (FileN content)) []
                      end
            | NotDir => Thrown "ENOTDIR" fs []
            | NoEnt => Thrown "ENOENT" fs []
            end.

(** [rm(p, { force: true, recursive: false })]: a missing path is ignored,
    a directory is refused, a file is unlinked. *)
Definition rm_force (p : string) : M unit :=
  fun fs => match locate fs p with
            | At k => match node_at fs k with
                      | Some DirN => Thrown "ERR_FS_EISDIR" fs []
                      | Some (FileN _) => Done tt (remove_node fs k) []
                      | None => Done tt fs []
                      end
            | NoEnt => Done tt fs []
            | NotDir => Thrown "ENOTDIR" fs []
            end.

(** [removeIfExists(target)] (src/utils/fs.ts). *)
Definition removeIfExists (target : string) : M unit :=
  catch (rm_force target) (fun e => if String.eqb e "ENOENT" then ret tt else throw e).

(** [(await stat(p)).isFile()]. *)
Definition stat_isFile (p : string) : M bool :=
  fun fs => match locate fs p with
            | At k => match node_at fs k with
                      | Some (FileN _) => Done true fs []
                      | Some DirN => Done false fs []
                      | None => Thrown "ENOENT" fs []
                      end
            | NotDir => Thrown "ENOTDIR" fs []
            | NoEnt => Thrown "ENOENT" fs []
            end.

(** [readFile(p, "utf8")]. *)
Definition readFile (p : string) : M string :=
  fun fs => match locate fs p with
            | At k => match node_at fs k with
                      | Some (FileN c) => Done c fs []
                      | Some DirN => Thrown "EISDIR" fs []
                      | None => Thrown "ENOENT" fs []
                      end
            | NotDir => Thrown "ENOTDIR" fs []
            | NoEnt => Thrown "ENOENT" fs []
            end.

(** [copyFile(src, dst)] as libuv runs it: [src] is opened, then [dst] is
    created or truncated and the bytes are copied; when reading [src] fails
    (it is a directory), [dst] is unlinked again. *)
Definition copyFile (src dst : string) : M unit :=
  fun fs => match locate fs src with
            | At ks =>
                match node_at fs ks with
                | None => Thrown "ENOENT" fs []
                | Some n =>
                    match locate fs dst with
                    | At kd =>
                        match node_at fs kd with
                        | Some DirN => Thrown "EISDIR" fs []
                        | _ => match n with
                               | FileN c => Done tt (set_node fs kd (FileN c)) []
                               | DirN => Thrown "EISDIR" (remove_node fs kd) []
                               end
                        end
                    | NotDir => Thrown "ENOTDIR" fs []
                    | NoEnt => Thrown "ENOENT" fs []
                    end
                end
            | NotDir => Thrown "ENOTDIR" fs []
            | NoEnt => Thrown "ENOENT" fs []
            end.

End Ops.

(** A path component as a real filesystem has it. *)
Definition proper (c : string) : bool :=
  negb (String.eqb c "") && negb (String.eqb c ".") && negb (String.eqb c "..")
  && match Workspace.index_of "/"%char c with None => true | Some _ => false end.

Fixpoint keys_distinct (ks : list Key) : bool :=
  match ks with
  | [] => true
  | k :: r => negb (existsb (key_eqb k) r) && keys_distinct r
  end.

(** A filesystem as a real one is: no path listed twice, every path made of
    proper components, and the parent of every entry a directory. *)
Definition wf (fs : FS) : bool :=
  keys_distinct (map fst fs)
  && forallb (fun kn => match fst kn with
                        | [] => false
                        | k => forallb proper k && is_dir fs (removelast k)
                        end) fs.

End Disk.

(** ** [provisionSubagents] on the filesystem (src/unnamed/part_004, lines 52-177) *)
Module DiskProvision.
Import Disk.

Section Provision.
Variable cwd : string.
Variable o : Provision.ProvisionOptions.

Definition write_templates (subagentDir : string) : M unit :=
  writeFile cwd (NodePath.join [subagentDir; Provision.workspace_file subagentDir])
    (Provision.workspaceTemplateText o) ;;;
  writeFile cwd (NodePath.join [subagentDir; Pool.DEFAULT_WAKEUP_FILENAME]) (Provision.wakeupContent o).

(** The [for (const entry of entries)] scan: [highestNumber],
    [lockedSubagents] and [existingSubagents] (before sorting). *)
Fixpoint scan (es : list Pool.DirectoryEntry) (highestNumber : Z)
    (lockedSubagents : list string) (existing : list (Z * string))
    : M (Z * list string * list (Z * string)) :=
  match es with
  | [] => ret (highestNumber, lockedSubagents, existing)
  | entry :: rest =>
      if negb (Pool.de_isDirectory entry) || negb (Pool.is_slot_name (Pool.de_name entry))
      then scan rest highestNumber lockedSubagents existing
      else
        match Pool.slot_number (Pool.de_name entry) with
        | None => scan rest highestNumber lockedSubagents existing
        | Some parsed =>
            let lockFile := NodePath.join [Pool.absolutePath entry; Provision.lockName o] in
            locked <- pathExists cwd lockFile ;;
            scan rest (Z.max highestNumber parsed)
              (if locked then Pool.set_add (Pool.absolutePath entry) lockedSubagents
               else lockedSubagents)
              (existing ++ [(parsed, Pool.absolutePath entry)])%list
        end
  end.

(** The [for (const subagent of existingSubagents)] loop. *)
Fixpoint existing_loop (existing : list (Z * string)) (st : Provision.LoopState)
    : M Provision.LoopState :=
  match existing with
  | [] => ret st
  | (_, subagentDir) :: rest =>
      if Provision.subagents o <=? Provision.ls_provisioned st then ret st
      else
        let lockFile := NodePath.join [subagentDir; Provision.lockName o] in
        let workspaceDst :=
          NodePath.join [subagentDir; Provision.workspace_file subagentDir] in
        isLocked <- pathExists cwd lockFile ;;
        if isLocked && negb (Provision.force o) then existing_loop rest st
        else if isLocked && Provision.force o then
          (if Provision.dryRun o then ret tt
           else removeIfExists cwd lockFile ;;; write_templates subagentDir) ;;;
          existing_loop rest
            (Provision.mkLoopState (Provision.ls_created st ++ [subagentDir])
               (Provision.ls_skippedExisting st)
               (Pool.set_delete subagentDir (Provision.ls_locked st))
               (JsNumber.add1 (Provision.ls_provisioned st)))
        else if negb isLocked && Provision.force o then
          (if Provision.dryRun o then ret tt else write_templates subagentDir) ;;;
          existing_loop rest
            (Provision.mkLoopState (Provision.ls_created st ++ [subagentDir])
               (Provision.ls_skippedExisting st) (Provision.ls_locked st)
               (JsNumber.add1 (Provision.ls_provisioned st)))
        else
          (if Provision.dryRun o then ret tt
           else ex <- pathExists cwd workspaceDst ;;
                if ex then ret tt else write_templates subagentDir) ;;;
          existing_loop rest
            (Provision.mkLoopState (Provision.ls_created st)
               (Provision.ls_skippedExisting st ++ [subagentDir]) (Provision.ls_locked st)
               (JsNumber.add1 (Provision.ls_provisioned st)))
  end.

(** The [while (subagentsProvisioned < subagents)] loop; running out of
    [fuel] means the counter stopped growing (it is stuck at 2^53), so the
    loop never ends. *)
Fixpoint new_loop (tp : string) (fuel : nat) (nextIndex : Z) (st : Provision.LoopState)
    : M Provision.LoopState :=
  if Provision.ls_provisioned st <? Provision.subagents o then
    match fuel with
    | O => fun _ => Diverges
    | S f =>
        let nextIndex' := JsNumber.add1 nextIndex in
        let subagentDir := NodePath.join [tp; "subagent-" ++ JsNumber.toString nextIndex'] in
        (if Provision.dryRun o then ret tt
         else ensureDir cwd subagentDir ;;; write_templates subagentDir) ;;;
        new_loop tp f nextIndex'
          (Provision.mkLoopState (Provision.ls_created st ++ [subagentDir])
             (Provision.ls_skippedExisting st) (Provision.ls_locked st)
             (JsNumber.add1 (Provision.ls_provisioned st)))
    end
  else ret st.

Definition provisionSubagents : M Provision.ProvisionResult :=
  if Provision.subagents o <? 1 then throw "subagents must be a positive integer"
  else
    let tp := Provision.targetPathOf cwd o in
    (if Provision.dryRun o then ret tt else ensureDir cwd tp) ;;;
    ex <- pathExists cwd tp ;;
    sc <- (if ex then es <- readDirEntries cwd tp ;; scan es 0 [] [] else ret (0, [], [])) ;;
    let '(highestNumber, lockedSubagents, existing) := sc in
    st <- existing_loop (Pool.sort_by_number existing)
            (Provision.mkLoopState [] [] lockedSubagents 0) ;;
    st' <- new_loop tp (Z.to_nat (Provision.subagents o)) highestNumber st ;;
    ret (Provision.mkProvisionResult (Provision.ls_created st') (Provision.ls_skippedExisting st')
           (Pool.sort_strings (Provision.ls_locked st'))).

End Provision.
End DiskProvision.

(** ** [unlockSubagents] (src/unnamed/part_004, lines 187-239) and
    [findUnlockedSubagent] (agentDispatch.ts, lines 50-73) on the filesystem *)
Module DiskSlots.
Import Disk.

Section Slots.
Variable cwd : string.

Fixpoint unlock_loop (lockName : string) (dryRun : bool) (candidates : list (Z * string))
    (unlocked : list string) : M (list string) :=
  match candidates with
  | [] => ret unlocked
  | (_, p) :: rest =>
      let lockFile := NodePath.join [p; lockName] in
      l <- pathExists cwd lockFile ;;
      if l then
        (if dryRun then ret tt else removeIfExists cwd lockFile) ;;;
        unlock_loop lockName dryRun rest (unlocked ++ [p])%list
      else unlock_loop lockName dryRun rest unlocked
  end.

Definition unlockSubagents (o : Slots.UnlockOptions) : M (list string) :=
  let hasName := match Slots.subagentName o with Some _ => true | None => false end in
  if (negb hasName && negb (Slots.unlockAll o)) || (hasName && Slots.unlockAll o)
  then throw "must specify either --subagent or --all (but not both)"
  else
    let tp := NodePath.resolve cwd [Slots.u_targetRoot o] in
    ex <- pathExists cwd tp ;;
    if negb ex then throw ("target root " ++ tp ++ " does not exist")
    else if Slots.unlockAll o then
      es <- readDirEntries cwd tp ;;
      unlock_loop (Slots.u_lockName o) (Slots.u_dryRun o) (Slots.slot_candidates es) []
    else
      let resolvedName := match Slots.subagentName o with Some n => n | None => "" end in
      let subagentDir := NodePath.join [tp; resolvedName] in
      e <- pathExists cwd subagentDir ;;
      if negb e then throw (resolvedName ++ " does not exist in " ++ tp)
      else
        let lockFile := NodePath.join [subagentDir; Slots.u_lockName o] in
        l <- pathExists cwd lockFile ;;
        if l then
          (if Slots.u_dryRun o then ret tt else removeIfExists cwd lockFile) ;;;
          ret [subagentDir]
        else ret [].

Fixpoint first_unlocked (subagents : list (Z * string)) : M (option string) :=
  match subagents with
  | [] => ret None
  | (_, p) :: rest =>
      l <- pathExists cwd (NodePath.join [p; Pool.DEFAULT_LOCK_NAME]) ;;
      if l then first_unlocked rest else ret (Some p)
  end.

Definition findUnlockedSubagent (subagentRoot : string) : M (option string) :=
  ex <- pathExists cwd subagentRoot ;;
  if negb ex then ret None
  else
    es <- readDirEntries cwd subagentRoot ;;
    first_unlocked (Slots.slot_candidates es).

End Slots.
End DiskSlots.

(** ** [dispatchAgent] on the filesystem (src/src/vscode/agentDispatch.ts) *)
Module DiskDispatch.
Import Disk.

Record DispatchOptions := mkDispatchOptions {
  userQuery : string;
  promptFile : option string;
  extraAttachments : option (list string);
  workspaceTemplate : option string;
  dryRun : option bool;
  wait : option bool;
  vscodeCmd : option string;
  subagentRoot : option string
}.

(** What the code gets from outside the filesystem: [os.homedir()],
    [DEFAULT_TEMPLATE_DIR], the random chat id, the clock, [JSON5.parse] and
    [JSON.stringify(_, null, 2)], whether the editor has the workspace open
    ([checkWorkspaceOpened]), whether the editor creates [.alive] before the
    60 s timeout, whether the agent ever writes the response file, and what
    each attempt to read it gets. *)
Record World := mkWorld {
  homedir : string;
  templateDir : string;
  chatId : string;
  timestamp : string;
  JSON5_parse : string -> option Workspace.json;
  stringify : Workspace.json -> string;
  host_open : bool;
  editor_ready : bool;
  response_appears : bool;
  read_result : nat -> Dispatch.ReadResult
}.

(** [if (s)] on an optional string: [undefined] and [""] are false. *)
Definition truthy_str (s : option string) : option string :=
  match s with Some t => if String.eqb t "" then None else Some t | None => None end.

Definition ws_error_message (e : Workspace.ws_error) : string :=
  match e with
  | Workspace.InvalidWorkspaceJson => "Invalid workspace JSON"
  | Workspace.MissingFolders => "Workspace file must contain a 'folders' array"
  | Workspace.FoldersNotArray => "Workspace 'folders' must be an array"
  | Workspace.TypeError => "TypeError"
  end.

Definition DEFAULT_WORKSPACE_FILENAME : string := "subagent.code-workspace".
Definition DEFAULT_ALIVE_FILENAME : string := ".alive".

Section Dispatch.
Variable cwd : string.
Variable w : World.

Definition copyAgentConfig (subagentDir : string) (workspaceTemplate : option string) : M unit :=
  let workspaceSrc :=
    match truthy_str workspaceTemplate with
    | Some t => NodePath.resolve cwd [t]
    | None => NodePath.join [templateDir w; DEFAULT_WORKSPACE_FILENAME]
    end in
  ex <- pathExists cwd workspaceSrc ;;
  if negb ex then throw ("workspace template not found: " ++ workspaceSrc) else
  isFile <- stat_isFile cwd workspaceSrc ;;
  if negb isFile then throw ("workspace template must be a file, not a directory: " ++ workspaceSrc)
  else
  workspaceContent <- readFile cwd workspaceSrc ;;
  let tdir := Listing.dirname workspaceSrc in
  match Workspace.transformWorkspacePaths (JSON5_parse w) cwd workspaceContent tdir with
  | inl e => throw (ws_error_message e)
  | inr transformed =>
      let workspaceDst := NodePath.join [subagentDir; Provision.workspace_file subagentDir] in
      writeFile cwd workspaceDst (stringify w transformed) ;;;
      ensureDir cwd (NodePath.join [subagentDir; "messages"])
  end.

Definition createSubagentLock (subagentDir : string) : M unit :=
  let messagesDir := NodePath.join [subagentDir; "messages"] in
  ex <- pathExists cwd messagesDir ;;
  (if ex then
     files <- readdir cwd messagesDir ;;
     settle_all (fun file => removeIfExists cwd (NodePath.join [messagesDir; file])) files None
   else ret tt) ;;;
  chatmodeFiles <- readdir cwd subagentDir ;;
  settle_all (fun file => removeIfExists cwd (NodePath.join [subagentDir; file]))
    (filter (Dispatch.ends_with ".chatmode.md") chatmodeFiles) None ;;;
  writeFile cwd (NodePath.join [subagentDir; Pool.DEFAULT_LOCK_NAME]) "".

Definition removeSubagentLock (subagentDir : string) : M unit :=
  removeIfExists cwd (NodePath.join [subagentDir; Pool.DEFAULT_LOCK_NAME]).

(** The bounded read loop of [waitForResponseOutput] (maxAttempts = 10). *)
Fixpoint read_loop (attempts : nat) (fuel : nat) : M bool :=
  match fuel with
  | O => ret false
  | S f =>
      match read_result w attempts with
      | Dispatch.ReadOk content => emit (Pool.OutResponse content) ;;; ret true
      | Dispatch.ReadErr code =>
          let attempts' := S attempts in
          if negb (String.eqb code "EBUSY") || (10 <=? attempts')%nat
          then emit (Pool.ErrText ("error: failed to read agent response: " ++ code)) ;;; ret false
          else read_loop attempts' f
      end
  end.

(** [waitForResponseOutput]: polls without bound until the response file
    exists, then reads it with bounded retries. *)
Definition waitForResponseOutput (responseFileFinal : string) : M bool :=
  emit (Pool.ErrText ("waiting for agent to finish: " ++ responseFileFinal)) ;;;
  ex <- pathExists cwd responseFileFinal ;;
  if ex || response_appears w then read_loop 0 10 else (fun _ => Diverges).

Definition prepareSubagentDirectory (subagentDir : string) (promptFile : option string)
    (chatId : string) (workspaceTemplate : option string) (dryRun : bool) : M Z :=
  if dryRun then ret 0
  else
    r1 <- catch (copyAgentConfig subagentDir workspaceTemplate ;;; ret 0)
                (fun e => emit (Pool.ErrText ("error: " ++ e)) ;;; ret 1) ;;
    if negb (r1 =? 0) then ret r1 else
    r2 <- catch (createSubagentLock subagentDir ;;; ret 0)
                (fun e => emit (Pool.ErrText ("error: Failed to create subagent lock: " ++ e)) ;;;
                          ret 1) ;;
    if negb (r2 =? 0) then ret r2 else
    match truthy_str promptFile with
    | Some p =>
        let chatmodeFile := NodePath.join [subagentDir; chatId ++ ".chatmode.md"] in
        catch (copyFile cwd p chatmodeFile ;;; ret 0)
              (fun e => emit (Pool.ErrText ("error: Failed to copy prompt file to chatmode: " ++ e)) ;;;
                        ret 1)
    | None => ret 0
    end.

Fixpoint resolve_loop (attachments resolved : list string) : M (list string) :=
  match attachments with
  | [] => ret resolved
  | attachment :: rest =>
      let resolvedPath := NodePath.resolve cwd [attachment] in
      ex <- pathExists cwd resolvedPath ;;
      if negb ex then throw ("Attachment not found: " ++ resolvedPath)
      else resolve_loop rest (resolved ++ [resolvedPath])%list
  end.

Definition resolveAttachments (extraAttachments : option (list string)) : M (list string) :=
  match extraAttachments with
  | None => ret []
  | Some l => resolve_loop l []
  end.

(** [ensureWorkspaceFocused]; the editor is started with [spawn], which
    does not touch the filesystem. *)
Definition ensureWorkspaceFocused (workspacePath workspaceName subagentDir vscodeCmd : string)
    : M bool :=
  if host_open w then ret true
  else
    let aliveFile := NodePath.join [subagentDir; DEFAULT_ALIVE_FILENAME] in
    removeIfExists cwd aliveFile ;;;
    let wakeupSrc := NodePath.join [templateDir w; Pool.DEFAULT_WAKEUP_FILENAME] in
    let wakeupDst := NodePath.join [subagentDir; Pool.DEFAULT_WAKEUP_FILENAME] in
    ex <- pathExists cwd wakeupSrc ;;
    (if ex then copyFile cwd wakeupSrc wakeupDst else ret tt) ;;;
    alive <- pathExists cwd aliveFile ;;
    if alive || editor_ready w then ret true
    else emit (Pool.ErrText "warning: Workspace readiness timeout after 60s") ;;; ret false.

Definition launchVsCodeWithChat (subagentDir chatId : string) (attachmentPaths : list string)
    (requestInstructions timestamp vscodeCmd : string) : M bool :=
  catch
    (let workspacePath := NodePath.join [subagentDir; Provision.workspace_file subagentDir] in
     let messagesDir := NodePath.join [subagentDir; "messages"] in
     ensureDir cwd messagesDir ;;;
     let reqFile := NodePath.join [messagesDir; timestamp ++ "_req.md"] in
     writeFile cwd reqFile requestInstructions ;;;
     workspaceReady <- ensureWorkspaceFocused workspacePath (NodePath.basename subagentDir)
                         subagentDir vscodeCmd ;;
     (if workspaceReady then ret tt
      else emit (Pool.ErrText "warning: Workspace may not be fully ready")) ;;;
     ret true)
    (fun e => emit (Pool.ErrText ("warning: Failed to launch VS Code: " ++ e)) ;;; ret false).

Definition dispatchAgent (o : DispatchOptions) : M Z :=
  let dryRun := match dryRun o with Some b => b | None => false end in
  let wait := match wait o with Some b => b | None => false end in
  let vscodeCmd := match vscodeCmd o with Some c => c | None => "code" end in
  catch (
    resolvedPrompt <-
      (match truthy_str (promptFile o) with
       | Some p =>
           let rp := NodePath.resolve cwd [p] in
           ex <- pathExists cwd rp ;;
           if negb ex then throw ("Prompt file not found: " ++ rp) else
           isFile <- stat_isFile cwd rp ;;
           if negb isFile then throw ("Prompt file must be a file, not a directory: " ++ rp)
           else ret (Some rp)
       | None => ret None
       end) ;;
    let subagentRootPath :=
      match subagentRoot o with
      | Some r => r
      | None => Constants.getDefaultSubagentRoot (homedir w) vscodeCmd
      end in
    found <- DiskSlots.findUnlockedSubagent cwd subagentRootPath ;;
    match truthy_str found with
    | None => emit Pool.ErrNoUnlocked ;;; ret 1
    | Some subagentDir =>
        let name := NodePath.basename subagentDir in
        emit (Pool.ErrText ("info: Acquiring subagent: " ++ name)) ;;;
        preparationResult <- prepareSubagentDirectory subagentDir resolvedPrompt (chatId w)
                               (workspaceTemplate o) dryRun ;;
        if negb (preparationResult =? 0) then ret preparationResult
        else
          attachments <- resolveAttachments (extraAttachments o) ;;
          let messagesDir := NodePath.join [subagentDir; "messages"] in
          let responseFileTmp := NodePath.join [messagesDir; timestamp w ++ "_res.tmp.md"] in
          let responseFileFinal := NodePath.join [messagesDir; timestamp w ++ "_res.md"] in
          let requestInstructions :=
            RequestPrompt.createRequestPrompt (userQuery o) responseFileTmp responseFileFinal
              name vscodeCmd in
          emit (Pool.OutSuccess name responseFileFinal) ;;;
          if dryRun then ret 0
          else
            launchSuccess <- launchVsCodeWithChat subagentDir (chatId w) attachments
                               requestInstructions (timestamp w) vscodeCmd ;;
            if negb launchSuccess then ret 1
            else if negb wait then
              emit (Pool.OutDispatched name responseFileFinal responseFileTmp) ;;;
              emit (Pool.ErrText ("Agent dispatched. Response will be written to: "
                                  ++ responseFileFinal)) ;;;
              ret 0
            else
              received <- waitForResponseOutput responseFileFinal ;;
              if negb received then ret 1
              else removeSubagentLock subagentDir ;;; ret 0
    end)
  (fun e => emit (Pool.OutError e) ;;; ret 1).

End Dispatch.
End DiskDispatch.

(** ** Readings of the filesystem used to state the properties *)
Module DiskReadings.
Import Disk.

(** The absolute path of the components [K]. *)
Definition abs_path (K : list string) : string := "/" ++ String.concat "/" K.

(** Whether [pathExists] finds the absolute path of the components [K]. *)
Definition reach (fs : FS) (K : Key) : bool :=
  match walk fs [] K with At k => exists_key fs k | _ => false end.

(** The keys of the files inside the slot [KT ++ [m]]. *)
Definition slot_keys (KT : Key) (m : string) (k : Key) : Prop :=
  exists x, k = (KT ++ [m; x])%list.

(** [pathExists(path.join(p, lk))] for a slot [p]. *)
Definition lock_at (cwd lk : string) (fs : FS) (p : string) : bool :=
  match pathExists cwd (NodePath.join [p; lk]) fs with Done b _ _ => b | _ => false end.

(** The entries [readDirEntries(target)] builds from a listing. *)
Definition listing_entries (target : string) (l : list (string * Node)) : list Pool.DirectoryEntry :=
  map (fun e => Pool.mkDirectoryEntry (fst e) (NodePath.join [target; fst e])
                  (match snd e with DirN => true | FileN _ => false end)) l.

(** The slot candidates of the pool root [tp], as the code lists them:
    [(ordinal, absolutePath)] sorted by ordinal; none when the root cannot
    be listed. *)
Definition disk_pool_candidates (cwd tp : string) (fs : FS) : list (Z * string) :=
  match readDirEntries cwd tp fs with
  | Done es _ _ => Slots.slot_candidates es
  | _ => []
  end.

End DiskReadings.

(** * Inputs and readings used by the properties *)
Module Inputs.
Import Workspace.

Definition folder (p : string) : json := JObj [("path", JStr p)].

  (** A [JSON5.parse] that knows one document. *)
Definition parse_only (text : string) (doc : json) (s : string) : option json :=
    if String.eqb s text then Some doc else None.

Definition witness_parse_C5 : string -> option json :=
    parse_only "{folders: [{path: './lib'}, {path: '/abs/x'}, {path: '.'}]}"
      (JObj [("folders", JArr [folder "./lib"; folder "/abs/x"; folder "."])]).

  (** A string without the character [c]. *)
Definition no_char (c : ascii) (s : string) : Prop := index_of c s = None.

  (** A single path component, as [readdir] lists it. *)
Definition component (n : string) : Prop :=
    no_char "/" n /\ n <> "" /\ n <> "." /\ n <> "..".

Definition text_glob : string :=
    "{settings: {'chat.promptFilesLocations': {'foo/*.md': true}}, folders: []}".
Definition doc_glob : json :=
    JObj [("settings", JObj [("chat.promptFilesLocations", JObj [("foo/*.md", JBool true)])]);
          ("folders", JArr [])].

(** A template whose chat mode location has a wildcard and no '/' before it. *)
Definition text_mode_glob : string :=
    "{settings: {'chat.modeFilesLocations': {'**/*.chatmode.md': true}}, folders: []}".
Definition doc_mode_glob : json :=
    JObj [("settings", JObj [("chat.modeFilesLocations", JObj [("**/*.chatmode.md", JBool true)])]);
          ("folders", JArr [])].

Definition text_folders_false : string := "{folders: false}".
Definition doc_folders_false : json := JObj [("folders", JBool false)].

  (** [pathExists(path.join(p, lockName))] for a slot [p] of the root [tp]. *)
Definition lock_present (lockName tp : string) (fs : Pool.FS) (p : string) : bool :=
    match Pool.pathExists_in tp p lockName fs with Pool.Done b _ => b | _ => false end.

  (** The slot candidates of the pool root [tp], as the code lists them:
      [(ordinal, absolutePath)] sorted by ordinal. *)
Definition pool_candidates (tp : string) (fs : Pool.FS) : list (Z * string) :=
    match Pool.readDirEntries tp fs with
    | Pool.Done es _ => Slots.slot_candidates es
    | _ => []
    end.

  (** Candidates ordered by ordinal. *)
Definition le_fst {A} (a b : Z * A) : Prop := (fst a <= fst b)%Z.

  (** The [DirectoryEntry] that [readDirEntries] lists for an entry. *)
Definition de_of (tp : string) (e : Pool.Entry) : Pool.DirectoryEntry :=
    Pool.mkDirectoryEntry (Pool.name e) (Pool.slot_path tp e) (Pool.isDirectory e).

  (** The candidate an entry contributes to [slot_candidates], before sorting. *)
Definition cand_of (entry : Pool.DirectoryEntry) : list (Z * string) :=
    if Pool.de_isDirectory entry && Pool.is_slot_name (Pool.de_name entry) then
      match Pool.slot_number (Pool.de_name entry) with
      | Some k => [(k, Pool.absolutePath entry)]
      | None => []
      end
    else [].


  (** [subagentRoot ?? getSubagentRoot(vscodeCmd)]. *)
Definition dispatch_root (w : Dispatch.World) (o : Dispatch.DispatchOptions) : string :=
    match Dispatch.subagentRoot o with Some r => r | None => Dispatch.defaultRoot w end.

  (** Slot 1 locked, slots 2 and 3 unlocked. *)
Definition pool_1_entries : list Pool.Entry :=
    [Pool.mkEntry "subagent-1" true [("subagent.lock", "")];
     Pool.mkEntry "subagent-2" true [];
     Pool.mkEntry "subagent-3" true []].
Definition pool_1_locked : Pool.FS := Pool.mkFS (Pool.RootDir pool_1_entries) [].

  (** Slots 1 and 2, both locked. *)
Definition pool_all_locked : Pool.FS :=
    Pool.mkFS (Pool.RootDir [Pool.mkEntry "subagent-1" true [("subagent.lock", "")];
                             Pool.mkEntry "subagent-2" true [("subagent.lock", "")]]) [].

  (** A world where every outside step succeeds and the response is read at
      the first attempt. *)
Definition world_ok : Dispatch.World :=
    Dispatch.mkWorld Dispatch.PromptOk "/p" "c0ffee12" (Some "{}") "prompt" true
      "20250101120000" false (Some "wake") true true (fun _ => Dispatch.ReadOk "answer").

  (** Options of a dispatch on the pool root "/p", without a prompt file. *)
Definition options_on (wait : bool) : Dispatch.DispatchOptions :=
    Dispatch.mkDispatchOptions "query" None None false wait "code" (Some "/p").

(** Running an effect on the slot [p] leaves the locks of the other
    slots of the root [tp] as they were. *)
Definition frame (tp p : string) (fs fs1 : Pool.FS) : Prop :=
  forall q g, p <> q -> lock_present g tp fs1 q = lock_present g tp fs q.

(** [subagentsProvisioned] is [p] after [n] slots were recorded, counting
    with doubles: [n] itself until 2^53, where it stops growing. *)
Definition count_inv (total : Z) (n : nat) (p : Z) : Prop :=
  p = Z.min (Z.of_nat n) (2 ^ 53) /\ (Z.of_nat n <= total \/ (p = 2 ^ 53 /\ 2 ^ 53 < total)).

(** The name [`subagent-${k}`] of a slot directory. *)
Definition slot_name (k : Z) : string := ("subagent-" ++ JsNumber.decimal k)%string.

(** Options of a provision call on the pool root "/p". *)
Definition provision_options (n : Z) (force dry : bool) : Provision.ProvisionOptions :=
  Provision.mkProvisionOptions "/p" n "subagent.lock" force dry "{}" "wake".


End Inputs.

(** * Readings of the further properties *)
Module Readings.
Import Inputs.

(** [fs] is left as it was by an outcome that returns or throws. *)
Definition keeps_fs {A} (fs : Pool.FS) (r : Pool.Outcome A) : Prop :=
  match r with
  | Pool.Done _ fs' | Pool.Thrown _ fs' => fs' = fs
  | Pool.Diverges => True
  end.



(** An outcome seen without the effect log. *)
Inductive POutcome (A : Type) :=
  | PDone (a : A) (r : Pool.Root)
  | PThrown (msg : string) (r : Pool.Root)
  | PDiverges.
Arguments PDone {A}. Arguments PThrown {A}. Arguments PDiverges {A}.

(** [subagentRoot ?? getSubagentRoot(vscodeCmd)] of [listSubagents]. *)
Definition list_root (homedir : string) (o : Listing.ListOptions) : string :=
  match Listing.l_subagentRoot o with
  | Some r => r
  | None => Constants.getDefaultSubagentRoot homedir (Listing.l_vscodeCmd o)
  end.

(** [subagentRoot ?? getSubagentRoot(vscodeCmd)] of [warmupSubagents]. *)
Definition warm_root (homedir : string) (o : Listing.WarmupOptions) : string :=
  match Listing.w_subagentRoot o with
  | Some r => r
  | None => Constants.getDefaultSubagentRoot homedir (Listing.w_vscodeCmd o)
  end.

(** The entry of a slot [p] in the listing: its name, path, workspace file
    when present, and whether its lock marker is present. *)
Definition listed (tp : string) (fs : Pool.FS) (p : string) : Listing.SubagentInfo :=
  Listing.mkSubagentInfo (NodePath.basename p) p
    (if lock_present (Provision.workspace_file p) tp fs p
     then Some (NodePath.join [p; Provision.workspace_file p]) else None)
    (lock_present Pool.DEFAULT_LOCK_NAME tp fs p).

(** The workspace files of the slots of [tp] that have one, by ordinal. *)
Definition provisioned_workspaces (tp : string) (fs : Pool.FS) : list string :=
  map (fun kp => NodePath.join [snd kp; Provision.workspace_file (snd kp)])
    (filter (fun kp => lock_present (Provision.workspace_file (snd kp)) tp fs (snd kp))
       (pool_candidates tp fs)).

(** Slots 1 and 2, each with its workspace file. *)
Definition pool_workspaces : Pool.FS :=
  Pool.mkFS (Pool.RootDir [Pool.mkEntry "subagent-1" true [("subagent-1.code-workspace", "{}")];
                           Pool.mkEntry "subagent-2" true [("subagent-2.code-workspace", "{}")]]) [].


End Readings.

(** ** Relations between the filesystem before and after a run *)
Module DiskRelations.
Import Disk.
Local Open Scope list_scope.

(** [m] relates the filesystem before and after by [R], whether it returns
    or throws. *)
Definition stays {A} (R : FS -> FS -> Prop) (m : M A) : Prop :=
  forall fs, match m fs with
             | Done _ fs' _ | Thrown _ fs' _ => R fs fs'
             | Diverges => True
             end.

(** Every directory before the run is still a directory after it. *)
Definition dirs_kept (fs fs' : FS) : Prop :=
  forall k, is_dir fs k = true -> is_dir fs' k = true.

(** The nodes outside [P] are left as they are. *)
Definition frame (P : Key -> Prop) (fs fs' : FS) : Prop :=
  dirs_kept fs fs' /\ forall K, ~ P K -> lookup fs' K = lookup fs K.

(** [cur], and [cur] extended by each proper prefix of [K], are directories of [fs]. *)
Fixpoint dirs_along (fs : FS) (cur : Key) (K : list string) : Prop :=
  match K with
  | [] => True
  | c :: r => is_dir fs cur = true /\ dirs_along fs (cur ++ [c])%list r
  end.

End DiskRelations.

Module DiskUnlockReadings.
Import Disk DiskReadings.

(** What [pathExists(p)] answers on [fs]. *)
Definition exists_at (cwd p : string) (fs : FS) : bool :=
  match pathExists cwd p fs with Done b _ _ => b | _ => false end.

(** [p] leads to a directory. *)
Definition is_dir_at (cwd p : string) (fs : FS) : bool :=
  match locate cwd fs p with At k => is_dir fs k | _ => false end.

(** The slot candidates of [tp] whose lock marker [pathExists] finds, in
    the order of the candidates. *)
Definition locked_slots (cwd lk tp : string) (fs : FS) : list string :=
  map snd (filter (fun c => lock_at cwd lk fs (snd c)) (disk_pool_candidates cwd tp fs)).

End DiskUnlockReadings.

Module DiskDispatchReadings.
Import Disk DiskReadings.
Local Open Scope list_scope.







End DiskDispatchReadings.

(** ** Inputs on the filesystem model *)
Module DiskInputs.
Import Disk.

(** The pool root "/p" with one slot, subagent-1, locked. *)
Definition disk_pool_one_locked : FS :=
  [(["p"], DirN); (["p"; "subagent-1"], DirN);
   (["p"; "subagent-1"; "subagent.lock"], FileN "")].

(** The pool root "/p" whose only slot, locked, has the ordinal 2^53. *)
Definition disk_pool_saturated : FS :=
  [(["p"], DirN); (["p"; "subagent-9007199254740992"], DirN);
   (["p"; "subagent-9007199254740992"; "subagent.lock"], FileN "")].

(** The pool root "/p" with a regular file named like a slot. *)
Definition disk_pool_file_slot : FS :=
  [(["p"], DirN); (["p"; "subagent-1"], FileN "")].

(** The pool root "/p" with one slot, subagent-1, and no lock marker. *)
Definition disk_pool_one_free : FS :=
  [(["p"], DirN); (["p"; "subagent-1"], DirN)].

(** The pool root "/p" with subagent-1 locked and subagent-2 free. *)
Definition disk_pool_one_of_two : FS :=
  [(["p"], DirN); (["p"; "subagent-2"], DirN); (["p"; "subagent-1"], DirN);
   (["p"; "subagent-1"; "subagent.lock"], FileN "")].




End DiskInputs.

(** * Properties *)

(** ** Materializer *)
Module WorkspaceFacts.
Import Workspace.

Lemma lookup_obj_set_eq : forall kv k v, lookup k (obj_set kv k v) = Some v.
Proof.
    induction kv as [|[k' v'] r IH]; intros k v; simpl.
    - rewrite String.eqb_refl. reflexivity.
    - destruct (String.eqb k k') eqn:E; simpl.
      + rewrite E. reflexivity.
      + rewrite E. apply IH.
Qed.

Lemma lookup_obj_set_neq : forall kv k k' v,
    k <> k' -> lookup k (obj_set kv k' v) = lookup k kv.
Proof.
    induction kv as [|[k0 v0] r IH]; intros k k' v Hne; simpl.
    - apply String.eqb_neq in Hne. rewrite Hne. reflexivity.
    - destruct (String.eqb k' k0) eqn:E; simpl.
      + apply String.eqb_eq in E; subst k0.
        apply String.eqb_neq in Hne. rewrite Hne. reflexivity.
      + destruct (String.eqb k k0); [reflexivity | apply IH; exact Hne].
Qed.

Lemma append_empty_r : forall s, (s ++ "")%string = s.
Proof. induction s; simpl; [reflexivity | now rewrite IHs]. Qed.

Lemma length_app_str : forall s t,
    String.length (s ++ t) = (String.length s + String.length t)%nat.
Proof. induction s; intros; simpl; [reflexivity | now rewrite IHs]. Qed.

Lemma index_of_app_none : forall c s t,
    index_of c s = None ->
    index_of c (s ++ t) = option_map (Nat.add (String.length s)) (index_of c t).
Proof.
    induction s as [|a s IH]; intros t H; simpl in *.
    - destruct (index_of c t); reflexivity.
    - destruct (Ascii.eqb a c); [discriminate|].
      destruct (index_of c s); [discriminate|].
      rewrite IH by reflexivity. destruct (index_of c t); reflexivity.
Qed.

Lemma last_index_upto_app : forall c s t p i,
    last_index_upto c t p = Some i ->
    last_index_upto c (s ++ t) (String.length s + p) = Some (String.length s + i)%nat.
Proof.
    induction s as [|a s IH]; intros t p i H; simpl; [exact H|].
    rewrite (IH t p i H). reflexivity.
Qed.

Lemma last_index_upto_none : forall c d m r,
    index_of c m = None -> d <> c ->
    last_index_upto c (m ++ String d r) (String.length m) = None.
Proof.
    induction m as [|a m IH]; intros r Hm Hd; simpl in *.
    - apply Ascii.eqb_neq in Hd. rewrite Hd. reflexivity.
    - destruct (Ascii.eqb a c) eqn:E; [discriminate|].
      destruct (index_of c m); [discriminate|].
      rewrite IH by auto. reflexivity.
Qed.

Lemma substring_prefix : forall s t,
    String.substring 0 (String.length s) (s ++ t) = s.
Proof. induction s; intros; simpl; [now destruct t | now rewrite IHs]. Qed.

Lemma substring_shift : forall s t n m,
    String.substring (String.length s + n) m (s ++ t) = String.substring n m t.
Proof. induction s; intros; simpl; [reflexivity | apply IHs]. Qed.

Lemma substring_all : forall s, String.substring 0 (String.length s) s = s.
Proof.
    intros s. pose proof (substring_prefix s "") as H.
    rewrite append_empty_r in H. exact H.
Qed.

Lemma substring_from_app : forall s t,
    substring_from (String.length s) (s ++ t) = t.
Proof.
    intros s t. unfold substring_from. rewrite length_app_str.
    replace (String.length s + String.length t - String.length s)%nat
      with (String.length t) by lia.
    rewrite <- (Nat.add_0_r (String.length s)) at 1.
    rewrite substring_shift. apply substring_all.
Qed.

Lemma substring_from_0 : forall s, substring_from 0 s = s.
Proof.
    intros s. unfold substring_from. rewrite Nat.sub_0_r. apply substring_all.
Qed.

Lemma settings_step_other : forall cwd td settings ts k k',
    k <> k' -> lookup k (settings_step cwd td settings ts k') = lookup k ts.
Proof.
    intros. unfold settings_step.
    destruct (prop settings k'); [|reflexivity].
    destruct (truthy _ && is_object _); [|reflexivity].
    apply lookup_obj_set_neq; assumption.
Qed.

Lemma settings_fold_other : forall cwd td settings keys ts k,
    ~ In k keys -> lookup k (fold_left (settings_step cwd td settings) keys ts) = lookup k ts.
Proof.
    induction keys as [|k' keys IH]; intros ts k Hn; simpl; [reflexivity|].
    rewrite IH by (intro; apply Hn; now right).
    apply settings_step_other. intro; subst; apply Hn; now left.
Qed.

Lemma settings_fold_key : forall cwd td settings keys ts k lm,
    NoDup keys -> In k keys -> prop settings k = Some (JObj lm) ->
    lookup k (fold_left (settings_step cwd td settings) keys ts)
    = Some (transform_location_map cwd td (JObj lm)).
Proof.
    induction keys as [|k' keys IH]; intros ts k lm Hnd Hin Hp; [destruct Hin|].
    inversion Hnd as [|? ? Hnin Hnd']; subst. simpl.
    destruct Hin as [<-|Hin].
    - rewrite settings_fold_other by assumption.
      unfold settings_step. rewrite Hp. simpl. apply lookup_obj_set_eq.
    - apply IH; assumption.
Qed.

End WorkspaceFacts.

Import Workspace WorkspaceFacts Inputs.

(** ** Paths *)
Module PathFacts.
Import NodePath.

Lemma str_app_assoc : forall a b c : string, ((a ++ b) ++ c)%string = (a ++ (b ++ c))%string.
Proof. induction a; intros; simpl; [reflexivity | now rewrite IHa]. Qed.

Lemma str_app_cancel_l : forall p a b : string, (p ++ a)%string = (p ++ b)%string -> a = b.
Proof. induction p as [|c p IH]; intros a b H; simpl in H; [exact H | injection H; apply IH]. Qed.

Lemma str_app_nonempty : forall s n : string, n <> "" -> (s ++ n)%string <> "".
Proof. intros [|c s] n Hn; simpl; [exact Hn | discriminate]. Qed.

Lemma split_on_nonnil : forall c s, split_on c s <> [].
Proof.
    intros c [|a s]; simpl; [discriminate|].
    destruct (Ascii.eqb a c); [discriminate|]. destruct (split_on c s); discriminate.
Qed.

Lemma split_on_app : forall c s t,
    split_on c (s ++ String c t) = (split_on c s ++ split_on c t)%list.
Proof.
    induction s as [|a s IH]; intros t; simpl.
    - rewrite Ascii.eqb_refl. reflexivity.
    - rewrite IH. destruct (Ascii.eqb a c); [reflexivity|].
      destruct (split_on c s) eqn:E; [exfalso; exact (split_on_nonnil c s E)|].
      reflexivity.
Qed.

Lemma split_on_nochar : forall c n, index_of c n = None -> split_on c n = [n].
Proof.
    induction n as [|a n IH]; intros H; simpl in *; [reflexivity|].
    destruct (Ascii.eqb a c); [discriminate|].
    destruct (index_of c n); [discriminate|]. rewrite IH by reflexivity. reflexivity.
Qed.

Lemma concat_snoc : forall l n,
    String.concat "/" (l ++ [n])%list
    = ((match l with [] => "" | _ => String.concat "/" l ++ "/" end) ++ n)%string.
Proof.
    induction l as [|x l IH]; intros n; [reflexivity|].
    simpl app. destruct l as [|y l].
    - simpl. rewrite str_app_assoc. reflexivity.
    - change (String.concat "/" (x :: (y :: l) ++ [n]))
        with (x ++ "/" ++ String.concat "/" ((y :: l) ++ [n]))%string.
      rewrite IH.
      change (String.concat "/" (x :: y :: l)) with (x ++ "/" ++ String.concat "/" (y :: l))%string.
      rewrite !str_app_assoc. reflexivity.
Qed.

Lemma get_app_right : forall s t k,
    String.get (String.length s + k) (s ++ t) = String.get k t.
Proof. induction s; intros; simpl; [reflexivity | apply IHs]. Qed.

Lemma get_nochar : forall c n k d, index_of c n = None -> String.get k n = Some d -> d <> c.
Proof.
    induction n as [|a n IH]; intros k d H Hg; simpl in *; [discriminate|].
    destruct (Ascii.eqb a c) eqn:E; [discriminate|].
    destruct k as [|k].
    - injection Hg as <-. apply Ascii.eqb_neq. exact E.
    - apply (IH k); [destruct (index_of c n); [discriminate|reflexivity] | exact Hg].
Qed.

Lemma ends_with_slash_component : forall s n,
    Inputs.component n -> ends_with_slash (s ++ n) = false.
Proof.
    intros s n (Hs & Hne & _).
    unfold ends_with_slash. rewrite WorkspaceFacts.length_app_str.
    destruct n as [|c n']; [congruence|].
    replace (String.length s + String.length (String c n') - 1)%nat
      with (String.length s + (String.length (String c n') - 1))%nat by (simpl; lia).
    rewrite get_app_right.
    destruct (String.get (String.length (String c n') - 1) (String c n')) as [d|] eqn:Hg;
      [|reflexivity].
    apply Ascii.eqb_neq. exact (get_nochar _ _ _ _ Hs Hg).
Qed.

Lemma norm_step_component : forall b st n,
    Inputs.component n -> norm_step b st n = n :: st.
Proof.
    intros b st n (_ & H1 & H2 & H3). unfold norm_step.
    apply String.eqb_neq in H1, H2, H3. rewrite H1, H2, H3. reflexivity.
Qed.

  (** [path.join(tp, n)] for a single component [n] is a prefix that does not
      depend on [n], followed by [n]. *)
Lemma join_component_shape : forall tp, exists P,
    (P = "" \/ exists Q, P = (Q ++ "/")%string) /\
    forall n, Inputs.component n -> join [tp; n] = (P ++ n)%string.
Proof.
    intros tp. destruct (String.eqb tp "") eqn:Etp.
    - apply String.eqb_eq in Etp. subst tp. exists "". split; [now left|].
      intros n Hc. pose proof Hc as (Hs & Hne & _).
      unfold join. simpl filter. apply String.eqb_neq in Hne. rewrite Hne. simpl.
      unfold normalize. rewrite Hne.
      assert (Ha : is_absolute n = false).
      { destruct n as [|c n']; [reflexivity|]. unfold Inputs.no_char in Hs. simpl in *.
        destruct (Ascii.eqb c "/"); [discriminate|reflexivity]. }
      rewrite Ha. rewrite (ends_with_slash_component "" n Hc : ends_with_slash n = false).
      unfold normalizeString. rewrite (split_on_nochar _ _ Hs). simpl fold_left.
      rewrite norm_step_component by exact Hc. simpl. rewrite Hne. reflexivity.
    - set (st := fold_left (norm_step (negb (is_absolute tp))) (split_on "/" tp) []).
      exists ((if is_absolute tp then "/" else "")
              ++ match rev st with [] => "" | _ => String.concat "/" (rev st) ++ "/" end)%string.
      split.
      + destruct (is_absolute tp); destruct (rev st) as [|x l].
        * right. exists "". reflexivity.
        * right. exists ("/" ++ String.concat "/" (x :: l))%string.
          rewrite str_app_assoc. reflexivity.
        * now left.
        * right. eexists. reflexivity.
      + intros n Hc. pose proof Hc as (Hs & Hne & _).
        apply String.eqb_neq in Hne as Hne'. unfold join. simpl filter. rewrite Etp, Hne'. cbn [negb fold_left].
        unfold normalize.
        assert (E1 : String.eqb (tp ++ String "/" n) "" = false).
        { destruct tp; [discriminate|reflexivity]. }
        assert (E2 : is_absolute (tp ++ String "/" n) = is_absolute tp).
        { destruct tp; [discriminate|reflexivity]. }
        assert (E3 : ends_with_slash (tp ++ String "/" n) = false).
        { pose proof (ends_with_slash_component (tp ++ "/") n Hc) as H.
          rewrite str_app_assoc in H. exact H. }
        change ("/" ++ n)%string with (String "/" n). rewrite E1, E2, E3.
        unfold normalizeString. rewrite split_on_app, (split_on_nochar _ _ Hs).
        rewrite fold_left_app. simpl fold_left. fold st.
        rewrite norm_step_component by exact Hc. simpl rev.
        rewrite concat_snoc.
        rewrite (proj2 (String.eqb_neq _ _) (str_app_nonempty _ _ Hne)).
        destruct (is_absolute tp); rewrite str_app_assoc; reflexivity.
Qed.

Lemma join_component_inj : forall tp a b,
    Inputs.component a -> Inputs.component b -> join [tp; a] = join [tp; b] -> a = b.
Proof.
    intros tp a b Ha Hb H. destruct (join_component_shape tp) as (P & _ & HP).
    rewrite (HP a Ha), (HP b Hb) in H. exact (str_app_cancel_l _ _ _ H).
Qed.

Lemma basename_join_component : forall tp n,
    Inputs.component n -> basename (join [tp; n]) = n.
Proof.
    intros tp n Hc. destruct (join_component_shape tp) as (P & HPf & HP).
    rewrite (HP n Hc). pose proof Hc as (Hs & Hne & _).
    unfold basename.
    assert (Hf : filter (fun s => negb (String.eqb s "")) [n] = [n]).
    { simpl. apply String.eqb_neq in Hne. rewrite Hne. reflexivity. }
    destruct HPf as [->|(Q & ->)].
    - simpl. rewrite (split_on_nochar _ _ Hs), Hf. reflexivity.
    - rewrite str_app_assoc. change ("/" ++ n)%string with (String "/" n).
      rewrite split_on_app, (split_on_nochar _ _ Hs), filter_app, Hf.
      apply last_last.
Qed.

End PathFacts.

(** ** Numbers *)
Module NumFacts.
Import JsNumber.

Lemma round_double_small : forall z, Z.abs z < 2 ^ 53 -> round_double z = z.
Proof.
    intros z H. unfold round_double. apply Z.ltb_lt in H. rewrite H. reflexivity.
Qed.

Lemma add1_exact : forall p, 0 <= p < 2 ^ 53 -> add1 p = p + 1.
Proof.
    intros p Hp. unfold add1.
    destruct (Z.eq_dec (p + 1) (2 ^ 53)) as [E|E].
    - rewrite E. vm_compute. reflexivity.
    - apply round_double_small. rewrite Z.abs_eq; lia.
Qed.

Lemma add1_top : add1 (2 ^ 53) = 2 ^ 53.
Proof. vm_compute. reflexivity. Qed.

  (** [+= 1] on a counter in [0, 2^53] saturates at [2^53]. *)
Lemma add1_sat : forall p, 0 <= p <= 2 ^ 53 -> add1 p = Z.min (p + 1) (2 ^ 53).
Proof.
    intros p Hp. destruct (Z.eq_dec p (2 ^ 53)) as [->|E].
    - rewrite add1_top. reflexivity.
    - rewrite add1_exact by lia. lia.
Qed.

Lemma digits_value_acc_shift : forall s a,
    digits_value_acc a s = a * 10 ^ Z.of_nat (String.length s) + digits_value_acc 0 s.
Proof.
    induction s as [|c s IH]; intros a; cbn [digits_value_acc String.length];
      [cbn; lia|].
    rewrite IH, (IH (10 * 0 + digit_value c)).
    rewrite Nat2Z.inj_succ, Z.pow_succ_r by lia. ring.
Qed.

Lemma digit_char_spec : forall d, 0 <= d < 10 ->
    is_digit (digit_char d) = true /\ digit_value (digit_char d) = d /\
    is_js_space (digit_char d) = false /\
    Ascii.eqb (digit_char d) "+" = false /\ Ascii.eqb (digit_char d) "-" = false.
Proof.
    intros d Hd.
    assert (d = 0 \/ d = 1 \/ d = 2 \/ d = 3 \/ d = 4 \/ d = 5 \/ d = 6 \/ d = 7 \/
            d = 8 \/ d = 9) as Hc by lia.
    repeat destruct Hc as [->|Hc]; try (subst d); vm_compute; repeat split.
Qed.

Lemma decimal_aux_S : forall f z acc,
    decimal_aux (S f) z acc
    = if z / 10 =? 0 then String (digit_char (z mod 10)) acc
      else decimal_aux f (z / 10) (String (digit_char (z mod 10)) acc).
Proof. reflexivity. Qed.

Lemma decimal_aux_spec : forall f z acc,
    0 <= z < 10 ^ Z.of_nat (S f) ->
    digits_value (decimal_aux (S f) z acc)
      = z * 10 ^ Z.of_nat (String.length acc) + digits_value acc /\
    (digit_prefix acc = acc ->
     digit_prefix (decimal_aux (S f) z acc) = decimal_aux (S f) z acc) /\
    decimal_aux (S f) z acc <> "".
Proof.
    induction f as [|f IH]; intros z acc Hz.
    - assert (Hq : z / 10 = 0) by (apply Z.div_small; simpl in Hz; lia).
      assert (Hm : z mod 10 = z) by (apply Z.mod_small; simpl in Hz; lia).
      destruct (digit_char_spec (z mod 10)) as (Hd & Hv & _); [lia|].
      cbn [decimal_aux]. rewrite Hq. cbn [Z.eqb].
      unfold digits_value. cbn [digits_value_acc digit_prefix].
      rewrite Hd, Hv, Hm. rewrite digits_value_acc_shift. split; [lia|].
      split; [intros H; rewrite H; reflexivity | discriminate].
    - destruct (digit_char_spec (z mod 10)) as (Hd & Hv & _); [apply Z.mod_pos_bound; lia|].
      rewrite decimal_aux_S.
      destruct (z / 10 =? 0) eqn:Hq.
      + apply Z.eqb_eq in Hq.
        assert (Hm : z mod 10 = z) by (pose proof (Z.div_mod z 10); lia).
        unfold digits_value. cbn [digits_value_acc digit_prefix].
        rewrite Hd, Hv, Hm. rewrite digits_value_acc_shift. split; [lia|].
        split; [intros H; rewrite H; reflexivity | discriminate].
      + assert (Hz' : 0 <= z / 10 < 10 ^ Z.of_nat (S f)).
        { split; [apply Z.div_pos; lia|].
          apply Z.div_lt_upper_bound; [lia|].
          rewrite Nat2Z.inj_succ, Z.pow_succ_r in Hz by lia. lia. }
        destruct (IH (z / 10) (String (digit_char (z mod 10)) acc) Hz') as (H1 & H2 & H3).
        split; [|split; [|exact H3]].
        * rewrite H1. unfold digits_value. cbn [digits_value_acc String.length].
          rewrite Hv, digits_value_acc_shift.
          rewrite Nat2Z.inj_succ, Z.pow_succ_r by lia.
          pose proof (Z.div_mod z 10). nia.
        * intros H. apply H2. cbn [digit_prefix]. rewrite Hd, H. reflexivity.
Qed.

Lemma decimal_spec : forall z, 0 <= z ->
    digits_value (decimal z) = z /\ digit_prefix (decimal z) = decimal z /\ decimal z <> "".
Proof.
    intros z Hz. unfold decimal.
    assert (Hl : 0 <= Z.log2 z) by apply Z.log2_nonneg.
    replace (Z.to_nat (Z.log2 z + 1)) with (S (Z.to_nat (Z.log2 z))) by lia.
    destruct (decimal_aux_spec (Z.to_nat (Z.log2 z)) z "") as (H1 & H2 & H3).
    { split; [exact Hz|].
      replace (Z.of_nat (S (Z.to_nat (Z.log2 z)))) with (Z.succ (Z.log2 z)) by lia.
      apply Z.lt_le_trans with (2 ^ Z.succ (Z.log2 z)).
      - destruct (Z.eq_dec z 0) as [->|Hne]; [reflexivity|].
        apply Z.log2_spec. lia.
      - apply Z.pow_le_mono_l. lia. }
    split; [rewrite H1; cbn; lia|]. split; [apply H2; reflexivity|exact H3].
Qed.

Lemma digit_not_special : forall c, is_digit c = true ->
    is_js_space c = false /\ Ascii.eqb c "+" = false /\ Ascii.eqb c "-" = false /\
    Ascii.eqb c "/" = false.
Proof.
    intros c H. unfold is_digit, is_js_space in *.
    apply andb_true_iff in H as [H1 H2]. apply Nat.leb_le in H1, H2.
    split; [|split; [|split]].
    - apply orb_false_iff. split.
      + apply Nat.eqb_neq. lia.
      + apply andb_false_iff. right. apply Nat.leb_gt. lia.
    - apply Ascii.eqb_neq. intros ->. cbn in H1. lia.
    - apply Ascii.eqb_neq. intros ->. cbn in H1. lia.
    - apply Ascii.eqb_neq. intros ->. cbn in H1. lia.
Qed.

Lemma digits_no_char : forall s c, digit_prefix s = s ->
    (forall d, is_digit d = true -> Ascii.eqb d c = false) -> Workspace.index_of c s = None.
Proof.
    induction s as [|a s IH]; intros c H Hc; [reflexivity|].
    cbn [digit_prefix] in H. cbn [Workspace.index_of].
    destruct (is_digit a) eqn:Ea; [|discriminate].
    injection H as H. rewrite (Hc a Ea), (IH c H Hc). reflexivity.
Qed.

Lemma parseInt_decimal : forall n, 0 <= n <= 2 ^ 53 -> parseInt (decimal n) = Some n.
Proof.
    intros n Hn. destruct (decimal_spec n) as (H1 & H2 & H3); [lia|].
    destruct (decimal n) as [|c r] eqn:E; [congruence|].
    cbn [digit_prefix] in H2. destruct (is_digit c) eqn:Hd; [|discriminate].
    destruct (digit_not_special c Hd) as (Hs & Hp & Hm & _).
    unfold parseInt. cbn [skip_spaces]. rewrite Hs, Hp, Hm.
    cbn [digit_prefix]. rewrite Hd. injection H2 as H2. rewrite H2.
    change (digits_value_acc (10 * 0 + digit_value c) r) with (digits_value (String c r)).
    rewrite H1.
    assert (Hr : round_double n = n).
    { destruct (Z.eq_dec n (2 ^ 53)) as [->|Hne]; [vm_compute; reflexivity|].
      apply round_double_small. rewrite Z.abs_eq; lia. }
    rewrite Hr. destruct (2 ^ 1024 <=? n) eqn:Eb; [apply Z.leb_le in Eb; lia|].
    f_equal. lia.
Qed.

Lemma toString_decimal : forall n, 0 <= n <= 2 ^ 53 -> toString n = decimal n.
Proof.
    intros n Hn. destruct (Z.eq_dec n (2 ^ 53)) as [->|Hne]; [vm_compute; reflexivity|].
    unfold toString. rewrite Z.abs_eq by lia.
    destruct (n <? 2 ^ 53) eqn:E; [|apply Z.ltb_ge in E; lia].
    destruct (n <? 0) eqn:E'; [apply Z.ltb_lt in E'; lia|]. reflexivity.
Qed.

End NumFacts.

(** C5: materializing the folders ["./lib", "/abs/x", "."] with templateDir
    "/t" yields [".", "/t/lib", "/abs/x", "/t"]: absolute entries unchanged,
    relative ones (also ".") resolved against templateDir, and a new
    { path: "." } entry first. *)
Theorem transform_folders_lib_abs_dot :
  forall (JSON5_parse : string -> option json) (cwd content : string) props,
    JSON5_parse content = Some (JObj props) ->
    lookup "folders" props = Some (JArr [folder "./lib"; folder "/abs/x"; folder "."]) ->
    exists out,
      transformWorkspacePaths JSON5_parse cwd content "/t" = inr (JObj out) /\
      lookup "folders" out = Some (JArr [folder "."; folder "/t/lib"; folder "/abs/x"; folder "/t"]).
Proof.
  intros JSON5_parse cwd content props Hparse Hfolders.
  unfold transformWorkspacePaths. rewrite Hparse. cbn [prop]. rewrite Hfolders.
  cbn -[obj_set NodePath.resolve].
  replace (NodePath.resolve cwd ["/t"; "./lib"]) with "/t/lib" by reflexivity.
  replace (NodePath.resolve cwd ["/t"; "."]) with "/t" by reflexivity.
  eexists. split; [reflexivity|].
  destruct (if truthy (lookup "settings" props) then _ else _);
    [rewrite lookup_obj_set_neq by discriminate|];
    rewrite lookup_obj_set_eq; reflexivity.
Qed.

Lemma transform_folders_lib_abs_dot_witness :
  exists out,
    transformWorkspacePaths witness_parse_C5 "/home" "{folders: [{path: './lib'}, {path: '/abs/x'}, {path: '.'}]}" "/t" = inr (JObj out) /\
    lookup "folders" out = Some (JArr [folder "."; folder "/t/lib"; folder "/abs/x"; folder "/t"]).
Proof.
  apply (transform_folders_lib_abs_dot witness_parse_C5 "/home" _
           [("folders", JArr [folder "./lib"; folder "/abs/x"; folder "."])]);
    reflexivity.
Defined.

(** C6: what the code makes of a key of a recognized chat settings map: an
    absolute key is kept; a relative key without '*' is resolved whole
    against templateDir; a relative key with a '*' is split at the last '/'
    at or before its first '*' (the separator stays with the suffix), or,
    when there is no such '/', the base is "." and the whole key is the
    suffix, appended with no separator; the base is resolved against
    templateDir and the suffix appended; backslashes of the result become
    '/'. In the output, each recognized map that is an object is replaced by
    the map of its transformed keys. *)
Theorem chat_location_keys_transform :
  forall (JSON5_parse : string -> option json) (cwd content templateDir : string),
    (forall k, NodePath.is_absolute k = true -> location_key cwd templateDir k = k) /\
    (forall k, NodePath.is_absolute k = false -> no_char "*" k ->
       location_key cwd templateDir k
       = replace_backslashes (NodePath.resolve cwd [templateDir; k])) /\
    (forall b m r,
       NodePath.is_absolute (b ++ String "/" (m ++ String "*" r)) = false ->
       no_char "*" b -> no_char "*" m -> no_char "/" m ->
       location_key cwd templateDir (b ++ String "/" (m ++ String "*" r))
       = replace_backslashes
           (NodePath.resolve cwd [templateDir; b] ++ String "/" (m ++ String "*" r))) /\
    (forall m r,
       NodePath.is_absolute (m ++ String "*" r) = false ->
       no_char "*" m -> no_char "/" m ->
       location_key cwd templateDir (m ++ String "*" r)
       = replace_backslashes (NodePath.resolve cwd [templateDir; "."] ++ m ++ String "*" r)) /\
    (forall props sprops settingKey lm out,
       JSON5_parse content = Some (JObj props) ->
       lookup "settings" props = Some (JObj sprops) ->
       In settingKey chatSettingsKeys ->
       lookup settingKey sprops = Some (JObj lm) ->
       transformWorkspacePaths JSON5_parse cwd content templateDir = inr (JObj out) ->
       exists sout, lookup "settings" out = Some (JObj sout) /\
         lookup settingKey sout = Some (transform_location_map cwd templateDir (JObj lm))).
Proof.
  intros JSON5_parse cwd content templateDir.
  split; [|split; [|split; [|split]]].
  - intros k Ha. unfold location_key. rewrite Ha. reflexivity.
  - intros k Ha Hn. unfold location_key. rewrite Ha. unfold no_char in Hn.
    rewrite Hn. reflexivity.
  - intros b m r Ha Hb Hm Hs. unfold no_char in *. unfold location_key. rewrite Ha.
    rewrite (index_of_app_none _ _ _ Hb). cbn [index_of].
    replace (Ascii.eqb "/" "*") with false by reflexivity.
    rewrite (index_of_app_none _ _ _ Hm). cbn [index_of option_map].
    rewrite Ascii.eqb_refl. cbn [option_map].
    rewrite Nat.add_0_r.
    assert (Hl : last_index_upto "/" (String "/" (m ++ String "*" r)) (S (String.length m))
                 = Some 0%nat).
    { cbn [last_index_upto]. rewrite last_index_upto_none by (auto; discriminate).
      reflexivity. }
    rewrite (last_index_upto_app _ b _ _ _ Hl). rewrite Nat.add_0_r.
    rewrite substring_prefix, substring_from_app. reflexivity.
  - intros m r Ha Hm Hs. unfold no_char in *. unfold location_key. rewrite Ha.
    rewrite (index_of_app_none _ _ _ Hm). cbn [index_of option_map].
    rewrite Ascii.eqb_refl. cbn [option_map]. rewrite Nat.add_0_r.
    rewrite last_index_upto_none by (auto; discriminate).
    rewrite substring_from_0. reflexivity.
  - intros props sprops settingKey lm out Hp Hs Hin Hk Ht.
    unfold transformWorkspacePaths in Ht. rewrite Hp in Ht. cbn [prop] in Ht.
    destruct (negb (truthy (lookup "folders" props))); [discriminate|].
    destruct (lookup "folders" props) as [[| | | | fs |]|]; try discriminate.
    destruct (map_opt _ fs); [|discriminate].
    rewrite Hs in Ht. cbn [truthy option_map] in Ht.
    injection Ht as <-. eexists. split; [apply lookup_obj_set_eq|].
    unfold transform_settings. apply settings_fold_key; [|assumption|assumption].
    repeat constructor; simpl; intuition discriminate.
Qed.

Lemma chat_location_keys_transform_witness :
  location_key "/" "/t" "foo/*.md" = "/t/foo/*.md".
Proof.
  destruct (chat_location_keys_transform witness_parse_C5 "/" "" "/t")
    as [_ [_ [H _]]].
  apply (H "foo" "" ".md"); reflexivity.
Defined.

(** C6: the key "**/*.chatmode.md" has no '/' before its wildcard, so the
    pattern part is the whole key and no separator is put between it and the
    resolved templateDir "/t": the key becomes "/t**/*.chatmode.md", a pattern
    outside "/t", not "/t/**/*.chatmode.md". *)
Lemma chat_mode_glob_separator_cex :
  transformWorkspacePaths (parse_only text_mode_glob doc_mode_glob) "/" text_mode_glob "/t"
  = inr (JObj [("settings", JObj [("chat.modeFilesLocations",
                                   JObj [("/t**/*.chatmode.md", JBool true)])]);
               ("folders", JArr [folder "."])]) /\
  location_key "/" "/t" "**/*.chatmode.md" <> "/t/**/*.chatmode.md".
Proof. split; vm_compute; [reflexivity | discriminate]. Qed.

(** C7 (amended): for content that does not parse to null,
    [transformWorkspacePaths] fails with the invalid-JSON error exactly when
    the content does not parse; with the missing-folders error exactly when
    the [folders] property of the parsed document is falsy (absent, null,
    false, 0, NaN or the empty string, so a present [folders: false] also
    counts as missing); with the folders-not-an-array error exactly when
    [folders] is truthy but not an array; and an error result carries no
    output. *)
Theorem transform_workspace_errors :
  forall (JSON5_parse : string -> option json) (cwd content templateDir : string),
    JSON5_parse content <> Some JNull ->
    let r := transformWorkspacePaths JSON5_parse cwd content templateDir in
    (r = inl InvalidWorkspaceJson <-> JSON5_parse content = None) /\
    (r = inl MissingFolders <->
       exists doc, JSON5_parse content = Some doc /\ truthy (prop doc "folders") = false) /\
    (r = inl FoldersNotArray <->
       exists doc f, JSON5_parse content = Some doc /\ prop doc "folders" = Some f /\
                     truthy (Some f) = true /\ forall l, f <> JArr l) /\
    (forall e, r = inl e -> forall out, r <> inr out).
Proof.
  intros JSON5_parse cwd content templateDir Hnull r. subst r.
  unfold transformWorkspacePaths.
  destruct (JSON5_parse content) as [doc|] eqn:Hp.
  2:{ split; [tauto|]. split; [split; [intro; discriminate|intros (d & H & _); discriminate]|].
      split; [split; [intro; discriminate|intros (d & f & H & _); discriminate]|].
      intros e He out; discriminate. }
  assert (Hnn : doc <> JNull) by congruence.
  replace (match doc with JNull => inl TypeError | _ => _ end)
    with (if negb (truthy (prop doc "folders")) then inl MissingFolders
          else match prop doc "folders" with
               | Some (JArr fs) =>
                   match map_opt (transform_folder cwd templateDir) fs with
                   | None => inl TypeError
                   | Some transformedFolders =>
                       let updatedFolders := JObj [("path", JStr ".")] :: transformedFolders in
                       let settings := prop doc "settings" in
                       let transformedSettings :=
                         if truthy settings
                         then option_map (fun s => JObj (transform_settings cwd templateDir s)) settings
                         else settings in
                       let o := obj_set (entries doc) "folders" (JArr updatedFolders) in
                       let o := match transformedSettings with
                                | Some s => obj_set o "settings" s
                                | None => o
                                end in
                       inr (JObj o)
                   end
               | _ => inl FoldersNotArray
               end : ws_error + json)
    by (destruct doc; [congruence|reflexivity..]).
  destruct (truthy (prop doc "folders")) eqn:Ht; cbn [negb].
  2:{ split; [split; intro; discriminate|].
      split; [split; [intros _; exists doc; auto|reflexivity]|].
      split; [split; [intro; discriminate|intros (d & f & H & Hf & Htf & _)]|].
      { injection H as <-. rewrite Hf in Ht. congruence. }
      intros e He out; discriminate. }
  destruct (prop doc "folders") as [f|] eqn:Hf; [|discriminate].
  assert (HnM : ~ exists d, Some doc = Some d /\ truthy (prop d "folders") = false).
  { intros (d & H & Hd). injection H as <-. rewrite Hf in Hd. congruence. }
  destruct f as [| | | | fs |]; try discriminate Ht;
    try (split; [split; intro; discriminate|];
         split; [split; [intro; discriminate|intro H; contradiction]|];
         split; [split; [intros _; exists doc; eexists; repeat split; eauto; intros l Hl; discriminate Hl
                        |reflexivity]|];
         intros e He out; discriminate).
  assert (HnA : ~ exists d f, Some doc = Some d /\ prop d "folders" = Some f /\
                   truthy (Some f) = true /\ forall l, f <> JArr l).
  { intros (d & f & H & Hf' & _ & Hn). injection H as <-.
    rewrite Hf in Hf'. injection Hf' as <-. now apply (Hn fs). }
  destruct (map_opt _ fs);
    (split; [split; intro; discriminate|];
     split; [split; [intro; discriminate|intro H; contradiction]|];
     split; [split; [intro; discriminate|intro H; contradiction]|];
     intros e He out; discriminate).
Qed.

Lemma transform_workspace_errors_witness :
  parse_only text_folders_false doc_folders_false text_folders_false <> Some JNull /\
  transformWorkspacePaths (parse_only text_folders_false doc_folders_false) "/"
    text_folders_false "/t" = inl MissingFolders.
Proof.
  split; [vm_compute; discriminate|].
  destruct (transform_workspace_errors (parse_only text_folders_false doc_folders_false)
              "/" text_folders_false "/t") as [_ [[_ H] _]]; [vm_compute; discriminate|].
  apply H. exists doc_folders_false. split; reflexivity.
Defined.

(** C7 counterexample: in {folders: false} the folders entry is present and
    is not a list, yet the error is the missing-folders one, not
    folders-not-an-array. *)
Lemma folders_false_missing_cex :
  prop doc_folders_false "folders" = Some (JBool false) /\
  transformWorkspacePaths (parse_only text_folders_false doc_folders_false) "/"
    text_folders_false "/t" = inl MissingFolders.
Proof. split; reflexivity. Qed.

(** ** Pool *)
Module PoolFacts.
Import Pool Slots.

Section Sorting.
Context {A : Type}.

Lemma insert_by_number_perm : forall (x : Z * A) l,
      Permutation (insert_by_number x l) (x :: l).
Proof.
      intros x l; induction l as [|y l IH]; simpl; [reflexivity|].
      destruct (fst x <? fst y); [reflexivity|].
      rewrite IH. apply perm_swap.
Qed.

Lemma sort_by_number_perm_acc : forall (l acc : list (Z * A)),
      Permutation (fold_left (fun acc x => insert_by_number x acc) l acc) (l ++ acc)%list.
Proof.
      induction l as [|x l IH]; intros acc; simpl; [reflexivity|].
      rewrite IH, insert_by_number_perm. apply Permutation_sym, Permutation_middle.
Qed.

Lemma sort_by_number_perm : forall (l : list (Z * A)), Permutation (sort_by_number l) l.
Proof.
      intros l. unfold sort_by_number. rewrite sort_by_number_perm_acc, app_nil_r.
      reflexivity.
Qed.

Lemma insert_by_number_hd : forall (x y : Z * A) l,
      HdRel le_fst y l -> le_fst y x -> HdRel le_fst y (insert_by_number x l).
Proof.
      intros x y [|z l] H1 H2; simpl; [constructor; exact H2|].
      destruct (fst x <? fst z); constructor; [exact H2|now inversion H1].
Qed.

Lemma insert_by_number_sorted : forall (x : Z * A) l,
      Sorted le_fst l -> Sorted le_fst (insert_by_number x l).
Proof.
      intros x l; induction l as [|y l IH]; intros H; simpl; [repeat constructor|].
      inversion H as [|? ? Hs Hh]; subst.
      destruct (fst x <? fst y) eqn:E.
      - apply Z.ltb_lt in E. constructor; [exact H|constructor; unfold le_fst; lia].
      - apply Z.ltb_ge in E. constructor; [now apply IH|].
        apply insert_by_number_hd; [exact Hh|unfold le_fst; lia].
Qed.

Lemma sort_by_number_sorted : forall (l : list (Z * A)), Sorted le_fst (sort_by_number l).
Proof.
      intros l. unfold sort_by_number.
      assert (H : forall acc, Sorted le_fst acc ->
                 Sorted le_fst (fold_left (fun acc x => insert_by_number x acc) l acc)).
      { induction l as [|x l IH]; intros acc Ha; simpl; [exact Ha|].
        apply IH, insert_by_number_sorted, Ha. }
      apply H. constructor.
Qed.

    (** In a list sorted by ordinal, [find] returns an element of least
        ordinal among those satisfying the test. *)
Lemma find_sorted_least : forall (f : Z * A -> bool) l x y,
      Sorted le_fst l -> find f l = Some x -> In y l -> f y = true -> fst x <= fst y.
Proof.
      intros f l; induction l as [|a l IH]; intros x y Hs Hf Hy Hfy; [destruct Hy|].
      apply Sorted_StronglySorted in Hs; [|intros ? ? ?; unfold le_fst; lia].
      inversion Hs as [|? ? Hs' Hall]; subst.
      simpl in Hf. destruct (f a) eqn:Ea.
      - injection Hf as <-. destruct Hy as [->|Hy]; [lia|].
        rewrite Forall_forall in Hall. exact (Hall y Hy).
      - destruct Hy as [->|Hy]; [congruence|].
        apply (IH x y); [now apply StronglySorted_Sorted|exact Hf|exact Hy|exact Hfy].
Qed.
End Sorting.

Lemma pathExists_in_lock : forall tp p f fs,
    pathExists_in tp p f fs = Done (Inputs.lock_present f tp fs p) fs.
Proof. intros. unfold Inputs.lock_present, pathExists_in. reflexivity. Qed.

Lemma first_unlocked_find : forall tp l fs,
    first_unlocked tp l fs
    = Done (option_map snd
              (find (fun kp => negb (Inputs.lock_present DEFAULT_LOCK_NAME tp fs (snd kp))) l))
           fs.
Proof.
    intros tp l fs. induction l as [|[k p] l IH]; [reflexivity|].
    simpl. unfold bind. rewrite pathExists_in_lock.
    destruct (Inputs.lock_present DEFAULT_LOCK_NAME tp fs p); simpl; [exact IH|reflexivity].
Qed.

Lemma findUnlockedSubagent_result : forall sr fs,
    findUnlockedSubagent sr fs
    = match root fs with
      | NoRoot => Done None fs
      | RootFile => Thrown "ENOTDIR" fs
      | RootDir es =>
          Done (option_map snd
                  (find (fun kp => negb (Inputs.lock_present DEFAULT_LOCK_NAME sr fs (snd kp)))
                        (Inputs.pool_candidates sr fs))) fs
      end.
Proof.
    intros sr [r lg]. unfold findUnlockedSubagent, bind, pathExists_root.
    destruct r as [| |es]; simpl; [reflexivity|reflexivity|].
    rewrite first_unlocked_find. reflexivity.
Qed.
End PoolFacts.

(** ** Frame of the slot updates *)
Module FrameFacts.
Import Pool Slots PoolFacts.

Lemma readDirEntries_dir : forall tp es l,
    readDirEntries tp (mkFS (RootDir es) l) = Done (map (de_of tp) es) (mkFS (RootDir es) l).
Proof. reflexivity. Qed.

Lemma lock_present_dir : forall f tp es l p,
    lock_present f tp (mkFS (RootDir es) l) p
    = existsb (fun e => at_slot tp p e && isDirectory e && has_file f e) es.
Proof. reflexivity. Qed.

Lemma nodup_slot_paths : forall tp es,
    NoDup (map name es) -> Forall (fun e => component (name e)) es ->
    NoDup (map (slot_path tp) es).
Proof.
    intros tp es; induction es as [|a es IH]; intros Hn Hc; simpl; [constructor|].
    inversion Hn as [|? ? Hna Hn']; subst. inversion Hc as [|? ? Hca Hc']; subst.
    constructor; [|now apply IH].
    intros Hin. apply in_map_iff in Hin as (e & He & Hine).
    apply Hna. apply in_map_iff. exists e. split; [|exact Hine].
    unfold slot_path in He.
    apply (PathFacts.join_component_inj tp); [|exact Hca|exact He].
    rewrite Forall_forall in Hc'. exact (Hc' e Hine).
Qed.

Lemma slot_candidates_perm : forall es,
    Permutation (slot_candidates es) (flat_map cand_of es).
Proof. intros es. apply sort_by_number_perm. Qed.

Lemma cand_paths_incl : forall tp es x,
    In x (map snd (flat_map cand_of (map (de_of tp) es))) -> In x (map (slot_path tp) es).
Proof.
    intros tp es x; induction es as [|a es IH]; simpl; [tauto|].
    unfold cand_of at 1. simpl.
    destruct (isDirectory a && is_slot_name (name a)); [|intros H; right; now apply IH].
    destruct (slot_number (name a)); simpl; [|intros H; right; now apply IH].
    intros [H|H]; [now left|right; now apply IH].
Qed.

Lemma nodup_candidates : forall tp es,
    NoDup (map (slot_path tp) es) ->
    NoDup (map snd (slot_candidates (map (de_of tp) es))).
Proof.
    intros tp es Hn.
    apply (Permutation_NoDup (Permutation_map snd (Permutation_sym (slot_candidates_perm _)))).
    induction es as [|a es IH]; simpl; [constructor|].
    inversion Hn as [|? ? Hna Hn']; subst.
    unfold cand_of at 1. simpl.
    destruct (isDirectory a && is_slot_name (name a)); [|now apply IH].
    destruct (slot_number (name a)); simpl; [|now apply IH].
    constructor; [|now apply IH].
    intros Hin. apply Hna. exact (cand_paths_incl tp es _ Hin).
Qed.

Lemma update_slot_paths : forall tp p g es,
    (forall e, name (g e) = name e) ->
    map (slot_path tp) (update_slot tp p g es) = map (slot_path tp) es.
Proof.
    intros tp p g es Hg. induction es as [|a es IH]; simpl; [reflexivity|].
    rewrite IH. destruct (at_slot tp p a); [|reflexivity].
    unfold slot_path at 1. rewrite Hg. reflexivity.
Qed.

Lemma update_slot_other : forall tp p q g (P : Entry -> bool) es,
    p <> q -> (forall e, name (g e) = name e) ->
    existsb (fun e => at_slot tp q e && P e) (update_slot tp p g es)
    = existsb (fun e => at_slot tp q e && P e) es.
Proof.
    intros tp p q g P es Hpq Hg. induction es as [|a es IH]; simpl; [reflexivity|].
    rewrite IH. destruct (at_slot tp p a) eqn:Ea; [|reflexivity].
    assert (Hq : at_slot tp q a = false).
    { unfold at_slot in *. apply String.eqb_eq in Ea. apply String.eqb_neq. congruence. }
    assert (Hq' : at_slot tp q (g a) = false).
    { unfold at_slot, slot_path in *. rewrite Hg. exact Hq. }
    rewrite Hq, Hq'. reflexivity.
Qed.

Lemma existsb_ext : forall {A} (f g : A -> bool) l,
    (forall x, f x = g x) -> existsb f l = existsb g l.
Proof. intros A f g l H. induction l; simpl; [reflexivity|]. now rewrite H, IHl. Qed.

End FrameFacts.

Import Pool Slots Dispatch PoolFacts.

Lemma pool_candidates_sorted : forall tp fs, Sorted le_fst (pool_candidates tp fs).
Proof.
  intros tp fs. unfold pool_candidates.
  destruct (readDirEntries tp fs); [apply sort_by_number_sorted|constructor|constructor].
Qed.

(** C4: for every pool state, [findUnlockedSubagent] returns the slot of
    least ordinal whose lock marker is absent (so with slot 1 locked and
    slots 2 and 3 free it returns slot 2); when the pool root is missing or
    every slot is locked it returns null, and the dispatch then prints the
    no-unlocked-subagent error and exits with 1, changing no file. *)
Theorem claim_lowest_unlocked_slot :
  forall (w : World) (o : DispatchOptions) (fs : FS),
    let sr := dispatch_root w o in
    let cands := pool_candidates sr fs in
    let locked := lock_present DEFAULT_LOCK_NAME sr fs in
    (forall p, findUnlockedSubagent sr fs = Done (Some p) fs ->
       exists k, In (k, p) cands /\ locked p = false /\
         forall k' q, In (k', q) cands -> locked q = false -> k <= k') /\
    (forall es, root fs = RootDir es ->
       (exists p, findUnlockedSubagent sr fs = Done (Some p) fs) \/
       (forall k p, In (k, p) cands -> locked p = true)) /\
    ((root fs = NoRoot \/
      (exists es, root fs = RootDir es) /\ (forall k p, In (k, p) cands -> locked p = true)) ->
     findUnlockedSubagent sr fs = Done None fs /\
     ((promptFile o = None \/ prompt_check w = PromptOk) ->
      dispatchAgent w o fs = Done 1 (mkFS (root fs) (log fs ++ [Print ErrNoUnlocked])))) /\
    findUnlockedSubagent "/p" pool_1_locked = Done (Some "/p/subagent-2") pool_1_locked.
Proof.
  intros w o fs sr cands locked.
  assert (Hfind : forall es, root fs = RootDir es ->
            findUnlockedSubagent sr fs
            = Done (option_map snd (find (fun kp => negb (locked (snd kp))) cands)) fs).
  { intros es Hr. rewrite findUnlockedSubagent_result, Hr. reflexivity. }
  assert (Hnone : (root fs = NoRoot \/
      (exists es, root fs = RootDir es) /\ (forall k p, In (k, p) cands -> locked p = true)) ->
     findUnlockedSubagent sr fs = Done None fs).
  { intros [Hr|[[es Hr] Hall]].
    - rewrite findUnlockedSubagent_result, Hr. reflexivity.
    - rewrite (Hfind es Hr).
      destruct (find _ cands) as [[k p]|] eqn:Ef; [|reflexivity].
      apply find_some in Ef as [Hin Hf]. simpl in Hf.
      rewrite (Hall k p Hin) in Hf. discriminate. }
  split; [|split; [|split]].
  - intros p Hp. rewrite findUnlockedSubagent_result in Hp.
    destruct (root fs) as [| |es] eqn:Hr; try discriminate.
    injection Hp as Hp.
    destruct (find _ _) as [[k p']|] eqn:Ef; [|discriminate].
    injection Hp as <-. exists k.
    pose proof (find_some _ _ Ef) as [Hin Hf]. simpl in Hf.
    split; [exact Hin|]. split; [now apply negb_true_iff|].
    intros k' q Hq Hlq.
    exact (find_sorted_least _ _ (k, p') (k', q) (pool_candidates_sorted sr fs) Ef Hq
             (proj2 (negb_true_iff _) Hlq)).
  - intros es Hr. rewrite (Hfind es Hr).
    destruct (find _ cands) as [[k p]|] eqn:Ef; [left; now exists p|].
    right. intros k p Hin. pose proof (find_none _ _ Ef (k, p) Hin) as Hf.
    simpl in Hf. now apply negb_false_iff.
  - intros H. split; [exact (Hnone H)|]. intros Hpr.
    unfold dispatchAgent, catch, bind.
    assert (Hpre : match promptFile o with
                   | Some _ => match prompt_check w with
                               | PromptOk => ret tt
                               | PromptMissing => throw "Prompt file not found"
                               | PromptNotFile =>
                                   throw "Prompt file must be a file, not a directory"
                               end
                   | None => ret tt
                   end fs = Done tt fs).
    { destruct Hpr as [-> | Hok]; [reflexivity|].
      destruct (promptFile o); [rewrite Hok|]; reflexivity. }
    rewrite Hpre. fold (dispatch_root w o). fold sr. rewrite (Hnone H).
    reflexivity.
  - vm_compute. reflexivity.
Qed.

Lemma claim_lowest_unlocked_slot_witness :
  dispatchAgent world_ok (options_on false) pool_all_locked
  = Done 1 (mkFS (root pool_all_locked) (log pool_all_locked ++ [Print ErrNoUnlocked])).
Proof.
  destruct (claim_lowest_unlocked_slot world_ok (options_on false) pool_all_locked)
    as (_ & _ & H & _).
  apply H; [|left; reflexivity].
  right. split; [eexists; reflexivity|].
  intros k p Hin. vm_compute in Hin.
  destruct Hin as [Hin|[Hin|[]]]; injection Hin as <- <-; vm_compute; reflexivity.
Defined.

(** ** Unlock *)
Import FrameFacts.

(** The entries of [pool_1_locked] have distinct names, each a path component. *)
Lemma pool_1_entries_ok :
  NoDup (map name pool_1_entries) /\ Forall (fun e => component (name e)) pool_1_entries.
Proof.
  split.
  - vm_compute. repeat constructor; simpl; intuition discriminate.
  - repeat constructor; vm_compute; try reflexivity; discriminate.
Qed.

(** ** Dispatch *)
Module DispatchFacts.
Import Pool Slots Dispatch PoolFacts FrameFacts.

Lemma bind_done : forall {A B} (m : M A) (k : A -> M B) fs a fs',
    m fs = Done a fs' -> bind m k fs = k a fs'.
Proof. intros A B m k fs a fs' H. unfold bind. rewrite H. reflexivity. Qed.

Lemma find_update_slot : forall tp d g es,
    (forall e, name (g e) = name e) ->
    find (at_slot tp d) (update_slot tp d g es) = option_map g (find (at_slot tp d) es).
Proof.
    intros tp d g es Hg. unfold update_slot.
    induction es as [|a es IH]; simpl; [reflexivity|].
    destruct (at_slot tp d a) eqn:Ea; simpl.
    - assert (Hga : at_slot tp d (g a) = true)
        by (unfold at_slot, slot_path in *; rewrite Hg; exact Ea).
      rewrite Hga. reflexivity.
    - rewrite Ea. exact IH.
Qed.

Lemma existsb_at_slot_unique : forall tp d (P : Entry -> bool) es,
    NoDup (map (slot_path tp) es) ->
    existsb (fun e => at_slot tp d e && P e) es
    = match find (at_slot tp d) es with Some e => P e | None => false end.
Proof.
    intros tp d P es Hn. induction es as [|a es IH]; simpl; [reflexivity|].
    inversion Hn as [|? ? Hna Hn']; subst.
    destruct (at_slot tp d a) eqn:Ea; simpl.
    - replace (existsb (fun e => at_slot tp d e && P e) es) with false; [apply orb_false_r|].
      symmetry. apply not_true_iff_false. intros Hx.
      apply existsb_exists in Hx as (e & Hin & He).
      apply andb_true_iff in He as [He _]. apply Hna.
      unfold at_slot in Ea, He. apply String.eqb_eq in Ea, He.
      rewrite Ea, <- He. now apply in_map.
    - exact (IH Hn').
Qed.

Lemma lock_present_find : forall g tp d es l,
    NoDup (map (slot_path tp) es) ->
    lock_present g tp (mkFS (RootDir es) l) d
    = match find (at_slot tp d) es with Some e => isDirectory e && has_file g e | None => false end.
Proof.
    intros g tp d es l Hn. rewrite lock_present_dir.
    rewrite (existsb_ext _ (fun e => at_slot tp d e && (isDirectory e && has_file g e)))
      by (intros; symmetry; apply andb_assoc).
    apply existsb_at_slot_unique, Hn.
Qed.


Lemma has_name_set_file : forall g f c fl,
    existsb (fun '((n, _) : string * string) => String.eqb n g) (set_file f c fl)
    = existsb (fun '((n, _) : string * string) => String.eqb n g) fl || String.eqb g f.
Proof.
    intros g f c fl. induction fl as [|[n c'] r IH]; simpl.
    - rewrite orb_false_r. apply String.eqb_sym.
    - destruct (String.eqb n f) eqn:E; simpl.
      + apply String.eqb_eq in E. subst n. rewrite (String.eqb_sym g f).
        destruct (String.eqb f g), (existsb _ r); reflexivity.
      + rewrite IH. apply orb_assoc.
Qed.

Lemma has_name_filter : forall g f fl,
    existsb (fun '((n, _) : string * string) => String.eqb n g)
      (filter (fun '((n, _) : string * string) => negb (String.eqb n f)) fl)
    = existsb (fun '((n, _) : string * string) => String.eqb n g) fl && negb (String.eqb g f).
Proof.
    intros g f fl. induction fl as [|[n c] r IH]; simpl; [reflexivity|].
    destruct (String.eqb n f) eqn:E; simpl.
    - apply String.eqb_eq in E. subst n. rewrite IH, (String.eqb_sym g f).
      destruct (String.eqb f g), (existsb _ r); reflexivity.
    - destruct (String.eqb n g) eqn:Eg; simpl; [|exact IH].
      apply String.eqb_eq in Eg. subst n. rewrite E. reflexivity.
Qed.


Lemma emit_then : forall {B} m (k : unit -> M B) fs,
    bind (emit m) k fs = k tt (mkFS (root fs) (log fs ++ [Print m])).
Proof. reflexivity. Qed.

End DispatchFacts.

Import DispatchFacts.

(** ** Provisioning *)
Module ProvisionFacts.
Import Pool Provision Slots PoolFacts FrameFacts DispatchFacts.

Lemma bind_inv : forall {A B} (m : M A) (k : A -> M B) fs b fs2,
    bind m k fs = Done b fs2 -> exists a fs1, m fs = Done a fs1 /\ k a fs1 = Done b fs2.
Proof.
    intros A B m k fs b fs2 H. unfold bind in H.
    destruct (m fs) as [a fs1|e fs1|]; try discriminate. eauto.
Qed.

Lemma In_set_add : forall x y s, In y (set_add x s) <-> y = x \/ In y s.
Proof.
    intros x y s. unfold set_add. destruct (existsb (String.eqb x) s) eqn:E.
    - apply existsb_exists in E as (z & Hz & Hxz). apply String.eqb_eq in Hxz. subst z.
      split; [auto|]. intros [->|H]; auto.
    - rewrite in_app_iff. simpl. intuition congruence.
Qed.

Lemma NoDup_set_add : forall x s, NoDup s -> NoDup (set_add x s).
Proof.
    intros x s H. unfold set_add. destruct (existsb (String.eqb x) s) eqn:E; [exact H|].
    apply NoDup_app; [exact H|repeat constructor; simpl; tauto|].
    intros y Hy [<-|[]]. apply not_true_iff_false in E. apply E.
    apply existsb_exists. exists x. split; [exact Hy|apply String.eqb_refl].
Qed.

Lemma In_set_delete : forall x y s, In y (set_delete x s) <-> In y s /\ y <> x.
Proof.
    intros x y s. unfold set_delete. rewrite filter_In.
    rewrite negb_true_iff, String.eqb_neq. intuition congruence.
Qed.

Lemma insert_string_perm : forall x l, Permutation (insert_string x l) (x :: l).
Proof.
    intros x l. induction l as [|y l IH]; simpl; [reflexivity|].
    destruct (str_ltb x y); [reflexivity|].
    rewrite IH. apply perm_swap.
Qed.

Lemma sort_strings_perm : forall l, Permutation (sort_strings l) l.
Proof.
    intros l. unfold sort_strings.
    assert (H : forall l acc, Permutation (fold_left (fun acc x => insert_string x acc) l acc)
                                          (l ++ acc)%list).
    { induction l0 as [|x l0 IH]; intros acc; simpl; [reflexivity|].
      rewrite IH, insert_string_perm. apply Permutation_sym, Permutation_middle. }
    rewrite H, app_nil_r. reflexivity.
Qed.

Lemma lock_update_other : forall g tp p q G es l l1,
    p <> q -> (forall e, name (G e) = name e) ->
    lock_present g tp (mkFS (RootDir (update_slot tp p G es)) l1) q
    = lock_present g tp (mkFS (RootDir es) l) q.
Proof.
    intros g tp p q G es l l1 Hpq HG. rewrite !lock_present_dir.
    rewrite !(existsb_ext (fun e => at_slot tp q e && isDirectory e && has_file g e)
                          (fun e => at_slot tp q e && (isDirectory e && has_file g e)))
      by (intros; symmetry; apply andb_assoc).
    apply update_slot_other; assumption.
Qed.


Lemma removeIfExists_in_frame : forall tp p f fs u fs1,
    removeIfExists_in tp p f fs = Done u fs1 -> frame tp p fs fs1.
Proof.
    intros tp p f [r l] u fs1 H q g Hpq. unfold removeIfExists_in in H. cbn [root] in H.
    destruct r as [| |es].
    - injection H as _ <-. reflexivity.
    - injection H as _ <-. reflexivity.
    - destruct (find (at_slot tp p) es) as [e|].
      + destruct (isDirectory e); [|discriminate].
        injection H as _ <-. apply lock_update_other; [exact Hpq|reflexivity].
      + injection H as _ <-. reflexivity.
Qed.

Lemma pathExists_in_frame : forall tp p f fs b fs1,
    pathExists_in tp p f fs = Done b fs1 -> fs1 = fs.
Proof. intros tp p f fs b fs1 H. unfold pathExists_in in H. injection H as _ <-. reflexivity. Qed.

Lemma ret_inv : forall {A} (a : A) fs b fs1, ret a fs = Done b fs1 -> b = a /\ fs1 = fs.
Proof. intros A a fs b fs1 H. unfold ret in H. injection H as <- <-. auto. Qed.

  (** Counting with [add1]. *)
Lemma count_inv_0 : forall total, 0 <= total -> count_inv total 0 0.
Proof. intros total H. split; [reflexivity|left; simpl; lia]. Qed.

Lemma count_inv_step : forall total n p,
    count_inv total n p -> p < total -> count_inv total (S n) (JsNumber.add1 p).
Proof.
    intros total n p [Hp Ht] Hlt.
    assert (H0 : 0 <= p <= 2 ^ 53) by (rewrite Hp; lia).
    rewrite NumFacts.add1_sat by exact H0. unfold count_inv. rewrite Nat2Z.inj_succ.
    split; [rewrite Hp; lia|].
    destruct (Z_lt_le_dec (Z.of_nat n) (2 ^ 53)) as [Hn|Hn].
    - left. rewrite Z.min_l in Hp by lia. lia.
    - right. rewrite Z.min_r in Hp by lia. lia.
Qed.

Lemma count_inv_end : forall total n p,
    count_inv total n p -> total <= p -> Z.of_nat n = total.
Proof. intros total n p [Hp [Ht|Ht]] Hle; lia. Qed.

Lemma count_inv_bound : forall total n p, count_inv total n p -> 0 <= p <= 2 ^ 53.
Proof. intros total n p [Hp _]. lia. Qed.

Section Loops.
Variable cwd : string.
Variable o : ProvisionOptions.

Ltac loop_effect H :=
      apply bind_inv in H as ([] & ?fs & ?He & H).

End Loops.

  (** Slot names. *)
Lemma slot_name_component : forall k, 0 <= k -> component (slot_name k).
Proof.
    intros k Hk. destruct (NumFacts.decimal_spec k Hk) as (_ & Hd & _).
    split; [|split; [|split]]; try (unfold slot_name; discriminate).
    unfold no_char, slot_name. rewrite WorkspaceFacts.index_of_app_none by reflexivity.
    rewrite (NumFacts.digits_no_char _ "/" Hd); [reflexivity|].
    intros d Hdd. apply (NumFacts.digit_not_special d Hdd).
Qed.

Lemma slot_number_name : forall k, 0 <= k <= 2 ^ 53 -> slot_number (slot_name k) = Some k.
Proof.
    intros k Hk. destruct (NumFacts.decimal_spec k ltac:(lia)) as (_ & Hd & _).
    unfold slot_number, slot_name. cbn.
    rewrite (PathFacts.split_on_nochar "-" (JsNumber.decimal k)).
    - apply NumFacts.parseInt_decimal. exact Hk.
    - apply (NumFacts.digits_no_char _ "-" Hd).
      intros d Hdd. apply (NumFacts.digit_not_special d Hdd).
Qed.


Section Loops2.
Variable o : ProvisionOptions.

Lemma scan_spec : forall tp des h L ex fs, exists h' L',
      scan o tp des h L ex fs = Done (h', L', (ex ++ flat_map cand_of des)%list) fs /\
      h <= h' /\
      (forall k p, In (k, p) (flat_map cand_of des) -> k <= h') /\
      (h' = h \/ exists p, In (h', p) (flat_map cand_of des)) /\
      (NoDup L -> NoDup L') /\
      (forall x, In x L' <-> In x L \/
                 exists k, In (k, x) (flat_map cand_of des) /\ lock_present (lockName o) tp fs x = true).
Proof.
      intros tp des. induction des as [|entry rest IH]; intros h L ex fs.
      - exists h, L. cbn [scan flat_map]. rewrite app_nil_r.
        split; [reflexivity|]. split; [lia|]. split; [intros ? ? []|].
        split; [left; reflexivity|]. split; [auto|].
        intros x. split; [auto|]. intros [Hx|(k & [] & _)]. exact Hx.
      - cbn [scan flat_map].
        destruct (de_isDirectory entry && is_slot_name (de_name entry)) eqn:Eds.
        2: { assert (Hc : cand_of entry = []) by (unfold cand_of; rewrite Eds; reflexivity).
             rewrite Hc. cbn [app].
             replace (negb (de_isDirectory entry) || negb (is_slot_name (de_name entry)))
               with true by (rewrite <- negb_andb, Eds; reflexivity).
             apply IH. }
        replace (negb (de_isDirectory entry) || negb (is_slot_name (de_name entry)))
          with false by (rewrite <- negb_andb, Eds; reflexivity).
        destruct (slot_number (de_name entry)) as [parsed|] eqn:Ep.
        2: { assert (Hc : cand_of entry = []) by (unfold cand_of; rewrite Eds, Ep; reflexivity).
             rewrite Hc. cbn [app]. apply IH. }
        assert (Hc : cand_of entry = [(parsed, absolutePath entry)])
          by (unfold cand_of; rewrite Eds, Ep; reflexivity).
        rewrite Hc. cbn [app].
        rewrite (bind_done _ _ _ _ _ (PoolFacts.pathExists_in_lock _ _ _ _)).
        set (lk := lock_present (lockName o) tp fs (absolutePath entry)).
        destruct (IH (Z.max h parsed) (if lk then set_add (absolutePath entry) L else L)
                     (ex ++ [(parsed, absolutePath entry)])%list fs)
          as (h' & L' & Hs & Hh & Hk & Hw & Hn & HL).
        exists h', L'. split; [rewrite Hs, <- app_assoc; reflexivity|].
        split; [lia|].
        split; [intros k p [Hkp|Hkp]; [injection Hkp as <- _; lia|exact (Hk k p Hkp)]|].
        split.
        { destruct Hw as [Hw|(p & Hp)]; [|right; exists p; right; exact Hp].
          destruct (Z.max_spec h parsed) as [(_ & Hm)|(_ & Hm)]; rewrite Hm in Hw.
          - right. exists (absolutePath entry). left. rewrite Hw. reflexivity.
          - left. exact Hw. }
        split; [intros HL0; apply Hn; destruct lk; [apply NoDup_set_add|]; exact HL0|].
        intros x. rewrite HL. destruct lk eqn:El.
        + rewrite In_set_add. split.
          * intros [[->|Hx]|(k & Hk' & Hl)]; [|left; exact Hx|].
            -- right. exists parsed. split; [left; reflexivity|exact El].
            -- right. exists k. split; [right; exact Hk'|exact Hl].
          * intros [Hx|(k & [Hk'|Hk'] & Hl)]; [left; right; exact Hx| |].
            -- injection Hk' as _ ->. left. left. reflexivity.
            -- right. exists k. split; [exact Hk'|exact Hl].
        + split.
          * intros [Hx|(k & Hk' & Hl)]; [left; exact Hx|].
            right. exists k. split; [right; exact Hk'|exact Hl].
          * intros [Hx|(k & [Hk'|Hk'] & Hl)]; [left; exact Hx| |].
            -- injection Hk' as _ <-. unfold lk in El. congruence.
            -- right. exists k. split; [exact Hk'|exact Hl].
Qed.

End Loops2.








Section Exact.
Variable o : ProvisionOptions.

End Exact.





End ProvisionFacts.

Import Provision ProvisionFacts.









(** * Further properties of the materializer, the pool commands and the
      dispatch session *)

(** ** Materializer: shape of a successful result *)
Module TransformFacts.
Import Workspace WorkspaceFacts.

Lemma transform_success_shape : forall JSON5_parse cwd content templateDir props out,
    JSON5_parse content = Some (JObj props) ->
    transformWorkspacePaths JSON5_parse cwd content templateDir = inr (JObj out) ->
    exists fs tfs,
      lookup "folders" props = Some (JArr fs) /\
      map_opt (transform_folder cwd templateDir) fs = Some tfs /\
      let o := obj_set props "folders" (JArr (JObj [("path", JStr ".")] :: tfs)) in
      out = match (if truthy (lookup "settings" props)
                   then option_map (fun s => JObj (transform_settings cwd templateDir s))
                          (lookup "settings" props)
                   else lookup "settings" props) with
            | Some s => obj_set o "settings" s
            | None => o
            end.
Proof.
    intros JSON5_parse cwd content templateDir props out Hp Ht.
    unfold transformWorkspacePaths in Ht. rewrite Hp in Ht. cbn [prop entries] in Ht.
    destruct (negb (truthy (lookup "folders" props))); [discriminate|].
    destruct (lookup "folders" props) as [[| | | | fs |]|] eqn:Hf; try discriminate.
    destruct (map_opt _ fs) as [tfs|] eqn:Hm; [|discriminate].
    exists fs, tfs. split; [reflexivity|]. split; [exact Hm|].
    cbn zeta. injection Ht as <-. reflexivity.
Qed.

Lemma map_opt_forall2 : forall {A B} (f : A -> option B) l l',
    map_opt f l = Some l' -> Forall2 (fun x y => f x = Some y) l l'.
Proof.
    intros A B f. induction l as [|x r IH]; intros l' H; simpl in H.
    - injection H as <-. constructor.
    - destruct (f x) eqn:Ef; [|discriminate].
      destruct (map_opt f r) eqn:Er; [|discriminate].
      injection H as <-. constructor; [exact Ef | apply IH; reflexivity].
Qed.

Lemma map_opt_some : forall {A B} (f : A -> option B) l,
    (forall x, In x l -> f x <> None) -> exists l', map_opt f l = Some l'.
Proof.
    intros A B f. induction l as [|x r IH]; intros H; simpl.
    - eexists. reflexivity.
    - destruct (f x) eqn:Ef; [|exfalso; apply (H x); [now left | exact Ef]].
      destruct IH as [l' ->]; [intros y Hy; apply H; now right|].
      eexists. reflexivity.
Qed.

Lemma map_opt_none : forall {A B} (f : A -> option B) l x,
    In x l -> f x = None -> map_opt f l = None.
Proof.
    intros A B f. induction l as [|y r IH]; intros x Hin Hx; [destruct Hin|].
    simpl. destruct Hin as [<-|Hin].
    - rewrite Hx. reflexivity.
    - destruct (f y); [|reflexivity]. rewrite (IH x Hin Hx). reflexivity.
Qed.

Lemma lookup_settings_out : forall props tfs s,
    lookup "settings"
      (obj_set (obj_set props "folders" (JArr (JObj [("path", JStr ".")] :: tfs))) "settings" s)
    = Some s.
Proof. intros. apply lookup_obj_set_eq. Qed.

  (** [path.resolve] with an absolute working directory gives an absolute
      path. *)
Lemma resolve_scan_abs : forall ps acc,
    (exists p, In p ps /\ NodePath.is_absolute p = true) ->
    snd (NodePath.resolve_scan ps acc) = true.
Proof.
    induction ps as [|p r IH]; intros acc (q & Hin & Hq); [destruct Hin|].
    simpl. destruct (String.eqb p "") eqn:Ep.
    - apply String.eqb_eq in Ep. subst p.
      apply IH. destruct Hin as [<-|Hin]; [discriminate Hq|eauto].
    - destruct (NodePath.is_absolute p) eqn:Ea; [reflexivity|].
      apply IH. destruct Hin as [<-|Hin]; [congruence|eauto].
Qed.

Lemma resolve_absolute : forall cwd args,
    NodePath.is_absolute cwd = true -> NodePath.is_absolute (NodePath.resolve cwd args) = true.
Proof.
    intros cwd args Hc. unfold NodePath.resolve.
    pose proof (resolve_scan_abs (rev args ++ [cwd]) "") as H.
    destruct (NodePath.resolve_scan (rev args ++ [cwd]) "") as [rp abs].
    simpl in H. rewrite H; [reflexivity|].
    exists cwd. split; [apply in_or_app; right; now left | exact Hc].
Qed.

Lemma replace_backslashes_app : forall s t,
    replace_backslashes (s ++ t) = (replace_backslashes s ++ replace_backslashes t)%string.
Proof. induction s; intros; simpl; [reflexivity | now rewrite IHs]. Qed.

Lemma replace_backslashes_abs : forall s,
    NodePath.is_absolute s = true -> NodePath.is_absolute (replace_backslashes s) = true.
Proof.
    intros [|c s] H; [discriminate|]. simpl in *.
    apply Ascii.eqb_eq in H. subst c. reflexivity.
Qed.

Lemma is_absolute_app : forall s t,
    NodePath.is_absolute s = true -> NodePath.is_absolute (s ++ t) = true.
Proof. intros [|c s] t H; [discriminate | exact H]. Qed.

Lemma location_key_absolute : forall cwd templateDir k,
    NodePath.is_absolute cwd = true ->
    NodePath.is_absolute (location_key cwd templateDir k) = true.
Proof.
    intros cwd templateDir k Hc. unfold location_key.
    destruct (NodePath.is_absolute k) eqn:Ek; [exact Ek|].
    destruct (index_of "*" k).
    - apply replace_backslashes_abs, is_absolute_app, resolve_absolute, Hc.
    - apply replace_backslashes_abs, resolve_absolute, Hc.
Qed.

Lemma obj_set_keys : forall (P : string -> Prop) kv k v,
    Forall (fun kv => P (fst kv)) kv -> P k -> Forall (fun kv => P (fst kv)) (obj_set kv k v).
Proof.
    intros P. induction kv as [|[k0 v0] r IH]; intros k v H Hk; simpl.
    - repeat constructor. exact Hk.
    - inversion H as [|? ? H0 Hr]; subst.
      destruct (String.eqb k k0); constructor; auto.
Qed.

Lemma location_map_keys : forall cwd templateDir lm,
    NodePath.is_absolute cwd = true ->
    exists kv, transform_location_map cwd templateDir lm = JObj kv /\
      Forall (fun kv => NodePath.is_absolute (fst kv) = true) kv.
Proof.
    intros cwd templateDir lm Hc. unfold transform_location_map. eexists. split; [reflexivity|].
    assert (G : forall l acc, Forall (fun kv => NodePath.is_absolute (fst kv) = true) acc ->
              Forall (fun kv => NodePath.is_absolute (fst kv) = true)
                (fold_left (fun acc '(k, v) => obj_set acc (location_key cwd templateDir k) v) l acc)).
    { induction l as [|[k v] l IH]; intros acc Ha; simpl; [exact Ha|].
      apply IH. apply (obj_set_keys (fun x => NodePath.is_absolute x = true)); [exact Ha|].
      apply location_key_absolute, Hc. }
    apply G. constructor.
Qed.

Lemma settings_step_lookup : forall cwd td settings ts k k',
    lookup k (settings_step cwd td settings ts k')
    = if String.eqb k k' then
        match prop settings k' with
        | Some lm => if truthy (Some lm) && is_object lm
                     then Some (transform_location_map cwd td lm) else lookup k ts
        | None => lookup k ts
        end
      else lookup k ts.
Proof.
    intros. unfold settings_step. destruct (String.eqb k k') eqn:E.
    - apply String.eqb_eq in E. subst k'.
      destruct (prop settings k); [|reflexivity].
      destruct (truthy _ && is_object _); [apply lookup_obj_set_eq | reflexivity].
    - apply String.eqb_neq in E.
      destruct (prop settings k'); [|reflexivity].
      destruct (truthy _ && is_object _); [apply lookup_obj_set_neq; exact E | reflexivity].
Qed.

  (** A chat settings key whose value is not an object (or array) is left as
      it is by the settings loop. *)
Lemma settings_fold_plain : forall cwd td settings keys ts k,
    (forall v, prop settings k = Some v -> is_object v = false) ->
    lookup k (fold_left (settings_step cwd td settings) keys ts) = lookup k ts.
Proof.
    induction keys as [|k' keys IH]; intros ts k H; simpl; [reflexivity|].
    rewrite IH by exact H. rewrite settings_step_lookup.
    destruct (String.eqb k k') eqn:E; [|reflexivity].
    apply String.eqb_eq in E. subst k'.
    destruct (prop settings k) as [v|] eqn:Ep; [|reflexivity].
    rewrite (H v eq_refl), andb_false_r. reflexivity.
Qed.

Lemma settings_fold_object : forall cwd td settings keys ts k v,
    NoDup keys -> In k keys -> prop settings k = Some v -> is_object v = true ->
    lookup k (fold_left (settings_step cwd td settings) keys ts)
    = Some (transform_location_map cwd td v).
Proof.
    induction keys as [|k' keys IH]; intros ts k v Hnd Hin Hp Ho; [destruct Hin|].
    inversion Hnd as [|? ? Hnin Hnd']; subst. simpl.
    destruct Hin as [<-|Hin].
    - rewrite settings_fold_other by assumption.
      rewrite settings_step_lookup, String.eqb_refl, Hp.
      destruct v; try discriminate; reflexivity.
    - apply IH; assumption.
Qed.

Lemma chatSettingsKeys_nodup : NoDup chatSettingsKeys.
Proof. repeat constructor; simpl; intuition discriminate. Qed.

End TransformFacts.

Import TransformFacts.

(** X1: when every folder of the document is an object with a string
    [path], the transform succeeds and its [folders] are [{ path: "." }]
    followed by one entry per input folder, in order: a folder with an
    absolute path is kept as it is; a folder with a relative path keeps its
    other properties and gets the path resolved against templateDir. When
    some folder is not an object with a string [path], the transform fails
    with a TypeError. *)
Theorem transform_folders_each :
  forall (JSON5_parse : string -> option json) (cwd content templateDir : string) props fs,
    JSON5_parse content = Some (JObj props) ->
    lookup "folders" props = Some (JArr fs) ->
    ((forall f, In f fs -> exists kv p, f = JObj kv /\ lookup "path" kv = Some (JStr p)) ->
     exists out fs',
       transformWorkspacePaths JSON5_parse cwd content templateDir = inr (JObj out) /\
       lookup "folders" out = Some (JArr (JObj [("path", JStr ".")] :: fs')) /\
       Forall2 (fun f f' => forall kv p, f = JObj kv -> lookup "path" kv = Some (JStr p) ->
                  (NodePath.is_absolute p = true -> f' = f) /\
                  (NodePath.is_absolute p = false ->
                   exists kv', f' = JObj kv' /\
                     lookup "path" kv' = Some (JStr (NodePath.resolve cwd [templateDir; p])) /\
                     forall k, k <> "path" -> lookup k kv' = lookup k kv)) fs fs') /\
    (forall f, In f fs -> (forall kv p, f = JObj kv -> lookup "path" kv <> Some (JStr p)) ->
     transformWorkspacePaths JSON5_parse cwd content templateDir = inl TypeError).
Proof.
  intros JSON5_parse cwd content templateDir props fs Hp Hf. split.
  - intros Hall.
    destruct (map_opt_some (transform_folder cwd templateDir) fs) as [tfs Hm].
    { intros f Hin. destruct (Hall f Hin) as (kv & p & -> & Hk).
      unfold transform_folder. rewrite Hk. destruct (NodePath.is_absolute p); discriminate. }
    unfold transformWorkspacePaths. rewrite Hp. cbn [prop]. rewrite Hf. cbn [truthy negb].
    rewrite Hm. cbn [entries].
    eexists. exists tfs. split; [reflexivity|]. split.
    + destruct (if truthy (lookup "settings" props) then _ else _);
        [rewrite lookup_obj_set_neq by discriminate|]; apply lookup_obj_set_eq.
    + pose proof (map_opt_forall2 _ _ _ Hm) as H2.
      clear - H2. induction H2 as [|f f' r r' Hff' _ IH]; constructor; [|exact IH].
      intros kv p -> Hk. unfold transform_folder in Hff'. rewrite Hk in Hff'.
      destruct (NodePath.is_absolute p) eqn:Ea.
      * injection Hff' as <-. split; [reflexivity | discriminate].
      * injection Hff' as <-. split; [discriminate|]. intros _.
        eexists. split; [reflexivity|]. split; [apply lookup_obj_set_eq|].
        intros k Hk'. apply lookup_obj_set_neq. exact Hk'.
  - intros f Hin Hbad.
    unfold transformWorkspacePaths. rewrite Hp. cbn [prop]. rewrite Hf. cbn [truthy negb].
    rewrite (map_opt_none _ fs f Hin); [reflexivity|].
    unfold transform_folder. destruct f as [| | | | |kv]; try reflexivity.
    destruct (lookup "path" kv) as [[| | |p| |]|] eqn:Ek; try reflexivity.
    exfalso. exact (Hbad kv p eq_refl Ek).
Qed.

(** X2: on success, every top-level property other than [folders] and
    [settings] is copied unchanged; a falsy [settings] value is copied as it
    is; and when [settings] is an object, every setting other than the three
    chat location keys, and every chat location key whose value is not an
    object or array, is copied unchanged. *)
Theorem transform_keeps_other_properties :
  forall (JSON5_parse : string -> option json) (cwd content templateDir : string) props out,
    JSON5_parse content = Some (JObj props) ->
    transformWorkspacePaths JSON5_parse cwd content templateDir = inr (JObj out) ->
    (forall k, k <> "folders" -> k <> "settings" -> lookup k out = lookup k props) /\
    (truthy (lookup "settings" props) = false ->
     lookup "settings" out = lookup "settings" props) /\
    (forall sprops, lookup "settings" props = Some (JObj sprops) ->
     exists sout, lookup "settings" out = Some (JObj sout) /\
       forall k, (~ In k chatSettingsKeys \/
                  forall v, lookup k sprops = Some v -> is_object v = false) ->
         lookup k sout = lookup k sprops).
Proof.
  intros JSON5_parse cwd content templateDir props out Hp Ht.
  destruct (transform_success_shape _ _ _ _ _ _ Hp Ht) as (fs & tfs & _ & _ & Hout).
  cbn zeta in Hout. subst out. split; [|split].
  - intros k H1 H2.
    destruct (if truthy (lookup "settings" props) then _ else _);
      [rewrite lookup_obj_set_neq by exact H2|]; apply lookup_obj_set_neq; exact H1.
  - intros Hf. rewrite Hf.
    destruct (lookup "settings" props) eqn:Es.
    + apply lookup_obj_set_eq.
    + rewrite lookup_obj_set_neq by discriminate. exact Es.
  - intros sprops Hs. rewrite Hs. cbn [truthy option_map].
    eexists. split; [apply lookup_obj_set_eq|].
    intros k [Hk|Hk]; unfold transform_settings; cbn [entries].
    + apply settings_fold_other. exact Hk.
    + apply settings_fold_plain. exact Hk.
Qed.

(** X3: with an absolute working directory (as [process.cwd()] is), every
    folder of a successful result after the leading [{ path: "." }] has an
    absolute path, and every chat location map that was an object or array
    is replaced by an object all of whose keys are absolute paths. *)
Theorem transform_paths_absolute :
  forall (JSON5_parse : string -> option json) (cwd content templateDir : string) props out,
    NodePath.is_absolute cwd = true ->
    JSON5_parse content = Some (JObj props) ->
    transformWorkspacePaths JSON5_parse cwd content templateDir = inr (JObj out) ->
    (exists fs', lookup "folders" out = Some (JArr (JObj [("path", JStr ".")] :: fs')) /\
       Forall (fun f => exists kv p, f = JObj kv /\ lookup "path" kv = Some (JStr p) /\
                          NodePath.is_absolute p = true) fs') /\
    (forall sprops k v, lookup "settings" props = Some (JObj sprops) ->
       In k chatSettingsKeys -> lookup k sprops = Some v -> is_object v = true ->
       exists sout kv, lookup "settings" out = Some (JObj sout) /\
         lookup k sout = Some (JObj kv) /\
         Forall (fun kv => NodePath.is_absolute (fst kv) = true) kv).
Proof.
  intros JSON5_parse cwd content templateDir props out Hc Hp Ht.
  destruct (transform_success_shape _ _ _ _ _ _ Hp Ht) as (fs & tfs & _ & Hm & Hout).
  cbn zeta in Hout. subst out. split.
  - exists tfs. split.
    + destruct (if truthy (lookup "settings" props) then _ else _);
        [rewrite lookup_obj_set_neq by discriminate|]; apply lookup_obj_set_eq.
    + pose proof (map_opt_forall2 _ _ _ Hm) as H2.
      clear - H2 Hc. induction H2 as [|f f' r r' Hff' _ IH]; constructor; [|exact IH].
      unfold transform_folder in Hff'.
      destruct f as [| | | | |kv]; try discriminate.
      destruct (lookup "path" kv) as [[| | |p| |]|] eqn:Ek; try discriminate.
      destruct (NodePath.is_absolute p) eqn:Ea; injection Hff' as <-.
      * exists kv, p. auto.
      * eexists _, _. split; [reflexivity|]. split; [apply lookup_obj_set_eq|].
        apply resolve_absolute, Hc.
  - intros sprops k v Hs Hin Hk Ho. rewrite Hs. cbn [truthy option_map].
    destruct (location_map_keys cwd templateDir v Hc) as (kv & Hkv & Habs).
    exists (transform_settings cwd templateDir (JObj sprops)), kv.
    split; [apply lookup_obj_set_eq|]. split; [|exact Habs].
    rewrite <- Hkv. unfold transform_settings.
    apply settings_fold_object; [exact chatSettingsKeys_nodup | exact Hin | exact Hk | exact Ho].
Qed.

(** ** Provisioning: dry runs and what a run leaves *)
Import Readings.

Module ProvisionMore.
Import Pool Provision Slots PoolFacts FrameFacts DispatchFacts ProvisionFacts.

Lemma ret_then : forall {A B} (a : A) (k : A -> M B) fs, bind (ret a) k fs = k a fs.
Proof. reflexivity. Qed.

Lemma bind_keeps : forall {A B} (m : M A) (k : A -> M B) fs,
    keeps_fs fs (m fs) ->
    (forall a, m fs = Done a fs -> keeps_fs fs (k a fs)) ->
    keeps_fs fs (bind m k fs).
Proof.
    intros A B m k fs H1 H2. unfold bind.
    destruct (m fs) as [a fs1|e fs1|] eqn:E; cbn in H1 |- *; try subst fs1; auto.
Qed.

Lemma keeps_ret : forall {A} (a : A) fs, keeps_fs fs (ret a fs).
Proof. reflexivity. Qed.

Lemma scan_keeps : forall o tp des h L ex fs, keeps_fs fs (scan o tp des h L ex fs).
Proof.
    intros o tp des h L ex fs.
    destruct (scan_spec o tp des h L ex fs) as (h' & L' & Hs & _). rewrite Hs. reflexivity.
Qed.

Lemma existing_loop_dry : forall o tp ex st fs,
    dryRun o = true -> keeps_fs fs (existing_loop o tp ex st fs).
Proof.
    intros o tp ex. induction ex as [|[k p] rest IH]; intros st fs Hd; cbn [existing_loop].
    - reflexivity.
    - destruct (subagents o <=? ls_provisioned st); [reflexivity|].
      rewrite (bind_done _ _ _ _ _ (PoolFacts.pathExists_in_lock _ _ _ _)), Hd.
      destruct (lock_present _ _ _ _), (force o); cbn [andb negb];
        rewrite ?ret_then; apply IH; exact Hd.
Qed.

Lemma new_loop_dry : forall o tp fuel idx st fs,
    dryRun o = true -> keeps_fs fs (new_loop o tp fuel idx st fs).
Proof.
    intros o tp fuel. induction fuel as [|f IH]; intros idx st fs Hd; cbn [new_loop];
      destruct (ls_provisioned st <? subagents o); try reflexivity.
    cbv zeta. rewrite Hd, ret_then. apply IH, Hd.
Qed.

Lemma writeFile_in_grows : forall tp d f c fs u fs1 g q,
    writeFile_in tp d f c fs = Done u fs1 ->
    lock_present g tp fs q = true -> lock_present g tp fs1 q = true.
Proof.
    intros tp d f c [r l] u fs1 g q H Hq. unfold writeFile_in in H. cbn [root] in H.
    destruct r as [| |es]; try discriminate.
    destruct (existsb _ es); [|discriminate]. injection H as _ <-.
    rewrite lock_present_dir in *. apply existsb_exists in Hq as (e & He & Hp).
    apply existsb_exists.
    exists (if at_slot tp d e then mkEntry (name e) true (set_file f c (files e)) else e).
    split; [unfold update_slot; apply in_map_iff; exists e; auto|].
    destruct (at_slot tp d e); [|exact Hp].
    apply andb_true_iff in Hp as [Hp Hh]. apply andb_true_iff in Hp as [Ha _].
    unfold at_slot, slot_path, has_file in *. cbn [name isDirectory files]. rewrite Ha. cbn [andb].
    rewrite has_name_set_file, Hh. reflexivity.
Qed.

Lemma ensureDir_slot_same : forall tp d fs u fs1 g q,
    ensureDir_slot tp d fs = Done u fs1 -> lock_present g tp fs1 q = lock_present g tp fs q.
Proof.
    intros tp d [r l] u fs1 g q H. unfold ensureDir_slot in H. cbn [root] in H.
    destruct r as [| |es].
    - injection H as _ <-. rewrite lock_present_dir. cbn. rewrite andb_false_r. reflexivity.
    - discriminate.
    - destruct (find (at_slot tp d) es) as [e|].
      + destruct (isDirectory e); [|discriminate]. injection H as _ <-. reflexivity.
      + injection H as _ <-. rewrite !lock_present_dir, existsb_app. cbn.
        rewrite andb_false_r, orb_false_r. reflexivity.
Qed.

Lemma ensureDir_root_same : forall tp fs u fs1 g q,
    ensureDir_root tp fs = Done u fs1 -> lock_present g tp fs1 q = lock_present g tp fs q.
Proof.
    intros tp [r l] u fs1 g q H. unfold ensureDir_root in H. cbn [root] in H.
    destruct r as [| |es]; [| discriminate |]; injection H as _ <-; reflexivity.
Qed.

Lemma write_templates_grows : forall o tp d fs u fs1 g q,
    write_templates o tp d fs = Done u fs1 ->
    lock_present g tp fs q = true -> lock_present g tp fs1 q = true.
Proof.
    intros o tp d fs u fs1 g q H Hq. unfold write_templates in H.
    apply bind_inv in H as (a & fs2 & H1 & H2).
    exact (writeFile_in_grows _ _ _ _ _ _ _ _ _ H2 (writeFile_in_grows _ _ _ _ _ _ _ _ _ H1 Hq)).
Qed.

Lemma existing_loop_grows : forall o tp ex st fs st' fs' g q,
    force o = false -> existing_loop o tp ex st fs = Done st' fs' ->
    lock_present g tp fs q = true -> lock_present g tp fs' q = true.
Proof.
    intros o tp ex. induction ex as [|[k p] rest IH]; intros st fs st' fs' g q Hf H Hq;
      cbn [existing_loop] in H.
    - apply ret_inv in H as [_ ->]. exact Hq.
    - destruct (subagents o <=? ls_provisioned st); [apply ret_inv in H as [_ ->]; exact Hq|].
      rewrite (bind_done _ _ _ _ _ (PoolFacts.pathExists_in_lock _ _ _ _)), Hf in H.
      destruct (lock_present (lockName o) tp fs p); cbn [andb negb] in H; [exact (IH _ _ _ _ _ _ Hf H Hq)|].
      apply bind_inv in H as ([] & fs1 & He & H). apply (IH _ _ _ _ _ _ Hf H).
      destruct (dryRun o); [apply ret_inv in He as [_ ->]; exact Hq|].
      apply bind_inv in He as (b & fs2 & Hb & He). apply pathExists_in_frame in Hb. subst fs2.
      destruct b; [apply ret_inv in He as [_ ->]; exact Hq|].
      exact (write_templates_grows _ _ _ _ _ _ _ _ He Hq).
Qed.

Lemma new_loop_grows : forall o tp fuel idx st fs st' fs' g q,
    new_loop o tp fuel idx st fs = Done st' fs' ->
    lock_present g tp fs q = true -> lock_present g tp fs' q = true.
Proof.
    intros o tp fuel. induction fuel as [|f IH]; intros idx st fs st' fs' g q H Hq;
      cbn [new_loop] in H; destruct (ls_provisioned st <? subagents o);
      try discriminate; try (apply ret_inv in H as [_ ->]; exact Hq).
    cbv zeta in H. apply bind_inv in H as ([] & fs1 & He & H). apply (IH _ _ _ _ _ _ _ H).
    destruct (dryRun o); [apply ret_inv in He as [_ ->]; exact Hq|].
    apply bind_inv in He as ([] & fs2 & H1 & H2).
    apply (write_templates_grows _ _ _ _ _ _ _ _ H2).
    rewrite (ensureDir_slot_same _ _ _ _ _ _ _ H1). exact Hq.
Qed.

Lemma provision_inv : forall cwd o fs r fs',
    provisionSubagents cwd o fs = Done r fs' ->
    exists fs1 h L xs st fs2 st',
      (if dryRun o then ret tt else ensureDir_root (targetPathOf cwd o)) fs = Done tt fs1 /\
      existing_loop o (targetPathOf cwd o) (sort_by_number xs) (mkLoopState [] [] L 0) fs1
        = Done st fs2 /\
      new_loop o (targetPathOf cwd o) (Z.to_nat (subagents o)) h st fs2 = Done st' fs' /\
      r = mkProvisionResult (ls_created st') (ls_skippedExisting st') (sort_strings (ls_locked st')).
Proof.
    intros cwd o fs r fs' H. unfold provisionSubagents in H.
    destruct (subagents o <? 1); [discriminate|].
    set (tp := targetPathOf cwd o) in *.
    apply bind_inv in H as ([] & fs1 & H1 & H).
    apply bind_inv in H as (ex & fs2 & Hex & H).
    unfold pathExists_root in Hex. injection Hex as _ <-.
    apply bind_inv in H as (sc & fs3 & Hsc & H).
    assert (fs3 = fs1) as ->.
    { destruct ex; [|apply ret_inv in Hsc as [_ ->]; reflexivity].
      apply bind_inv in Hsc as (es & fs4 & Hr & Hs).
      assert (fs4 = fs1) as ->.
      { unfold readDirEntries in Hr. destruct (root fs1); try discriminate. injection Hr as _ <-. reflexivity. }
      destruct (scan_spec o tp es 0 [] [] fs1) as (h' & L' & Hs' & _). congruence. }
    destruct sc as [[h L] xs].
    apply bind_inv in H as (st & fs2 & He & H).
    apply bind_inv in H as (st' & fs3 & Hn & H).
    apply ret_inv in H as [-> ->].
    exists fs1, h, L, xs, st, fs2, st'. auto.
Qed.

Lemma provision_dry_keeps : forall cwd o fs,
    dryRun o = true -> keeps_fs fs (provisionSubagents cwd o fs).
Proof.
  intros cwd o fs Hd. unfold provisionSubagents.
  destruct (subagents o <? 1); [reflexivity|].
  rewrite Hd, ret_then.
  apply bind_keeps; [reflexivity|]. intros ex Hex.
  apply bind_keeps.
  - destruct ex; [|reflexivity].
    apply bind_keeps.
    + unfold readDirEntries. destruct (root fs); reflexivity.
    + intros es _. apply scan_keeps.
  - intros [[h L] xs] _.
    apply bind_keeps; [apply existing_loop_dry, Hd|]. intros st _.
    apply bind_keeps; [apply new_loop_dry, Hd|]. intros st' _.
    reflexivity.
Qed.

End ProvisionMore.

Import Pool Provision Slots PoolFacts FrameFacts DispatchFacts ProvisionFacts ProvisionMore.

(** X4: a dry run of [provisionSubagents] never changes the filesystem: whether it returns or throws, the pool tree and the effect log are the ones it started from. *)
Theorem provision_dry_run_keeps_fs : forall cwd o fs,
  dryRun o = true -> keeps_fs fs (provisionSubagents cwd o fs).
Proof. exact provision_dry_keeps. Qed.

(** X6: without force, a successful provisioning run removes no file: a file present in a slot of the pool root before the run is present after it. *)
Theorem provision_no_force_keeps_files : forall cwd o fs r fs' p g,
  force o = false -> provisionSubagents cwd o fs = Done r fs' ->
  pathExists_in (targetPathOf cwd o) p g fs = Done true fs ->
  pathExists_in (targetPathOf cwd o) p g fs' = Done true fs'.
Proof.
  intros cwd o fs r fs' p g Hf H Hp.
  rewrite PoolFacts.pathExists_in_lock in Hp |- *. injection Hp as Hp. f_equal.
  destruct (provision_inv _ _ _ _ _ H) as (fs1 & h & L & xs & st & fs2 & st' & H1 & He & Hn & _).
  apply (new_loop_grows _ _ _ _ _ _ _ _ _ _ Hn).
  apply (existing_loop_grows _ _ _ _ _ _ _ _ _ Hf He).
  destruct (dryRun o); [apply ret_inv in H1 as [_ ->]; exact Hp|].
  rewrite (ensureDir_root_same _ _ _ _ _ _ H1). exact Hp.
Qed.

(** ** Unlocking all slots *)
Module UnlockMore.
Import Pool Slots PoolFacts FrameFacts DispatchFacts ProvisionFacts.

Lemma nodup_map_inj : forall {A B} (f : A -> B) l x y,
    NoDup (map f l) -> In x l -> In y l -> f x = f y -> x = y.
Proof.
    intros A B f l x y. induction l as [|a l IH]; intros Hn Hx Hy Hf; [destruct Hx|].
    inversion Hn as [|? ? Ha Hn']; subst.
    destruct Hx as [<-|Hx], Hy as [<-|Hy]; auto.
    - exfalso. apply Ha. rewrite Hf. now apply in_map.
    - exfalso. apply Ha. rewrite <- Hf. now apply in_map.
Qed.

Lemma slot_paths_de : forall tp es,
    map (slot_path tp) es = map absolutePath (map (de_of tp) es).
Proof. intros tp es. rewrite map_map. reflexivity. Qed.

  (** [removeIfExists(path.join(p, f))] on a slot that is a directory. *)
Lemma removeIfExists_clears : forall tp p f es l u fs1,
    NoDup (map (slot_path tp) es) ->
    lock_present f tp (mkFS (RootDir es) l) p = true ->
    removeIfExists_in tp p f (mkFS (RootDir es) l) = Done u fs1 ->
    exists es1, root fs1 = RootDir es1 /\ map (de_of tp) es1 = map (de_of tp) es /\
      lock_present f tp fs1 p = false.
Proof.
    intros tp p f es l u fs1 Hn Hl H.
    rewrite lock_present_find in Hl by exact Hn.
    destruct (find (at_slot tp p) es) as [e|] eqn:Ef; [|discriminate].
    apply andb_true_iff in Hl as [Hd _].
    unfold removeIfExists_in in H. cbn [root] in H. rewrite Ef, Hd in H.
    injection H as _ <-.
    set (G := fun e : Entry => mkEntry (name e) true
                (filter (fun '(n, _) => negb (String.eqb n f)) (files e))).
    exists (update_slot tp p G es). split; [reflexivity|]. split.
    - unfold update_slot. rewrite map_map. apply map_ext_in. intros x Hx.
      destruct (at_slot tp p x) eqn:Ex; [|reflexivity].
      assert (x = e) as ->.
      { apply find_some in Ef as [He Ea].
        apply (nodup_map_inj (slot_path tp) es); auto.
        unfold at_slot in Ex, Ea. apply String.eqb_eq in Ex, Ea. congruence. }
      unfold de_of, G. cbn. rewrite Hd. reflexivity.
    - rewrite lock_present_find by (rewrite update_slot_paths; [exact Hn|reflexivity]).
      rewrite find_update_slot, Ef by reflexivity. cbn.
      unfold has_file. cbn. rewrite has_name_filter, String.eqb_refl, andb_false_r. reflexivity.
Qed.

Lemma unlock_loop_clears : forall tp f cands u es l r fs',
    NoDup (map snd cands) -> NoDup (map (slot_path tp) es) ->
    unlock_loop tp f false cands u (mkFS (RootDir es) l) = Done r fs' ->
    exists es', root fs' = RootDir es' /\ map (de_of tp) es' = map (de_of tp) es /\
      (forall k p, In (k, p) cands -> lock_present f tp fs' p = false) /\
      (forall q g, ~ In q (map snd cands) ->
         lock_present g tp fs' q = lock_present g tp (mkFS (RootDir es) l) q).
Proof.
    intros tp f cands. induction cands as [|[k p] rest IH]; intros u es l r fs' Hc Hn H;
      cbn [unlock_loop] in H.
    - apply ret_inv in H as [_ ->]. exists es. split; [reflexivity|]. split; [reflexivity|].
      split; [intros ? ? []|reflexivity].
    - inversion Hc as [|? ? Hp Hc']; subst.
      rewrite (bind_done _ _ _ _ _ (PoolFacts.pathExists_in_lock _ _ _ _)) in H.
      destruct (lock_present f tp (mkFS (RootDir es) l) p) eqn:El.
      + apply bind_inv in H as ([] & fs1 & Hr & H).
        destruct (removeIfExists_clears tp p f es l tt fs1 Hn El Hr) as (es1 & Hr1 & Hde & Hl1).
        destruct fs1 as [r1 l1]. cbn in Hr1. subst r1.
        assert (Hn1 : NoDup (map (slot_path tp) es1)) by (rewrite slot_paths_de, Hde, <- slot_paths_de; exact Hn).
        destruct (IH _ _ _ _ _ Hc' Hn1 H) as (es' & Hr' & Hde' & Hcl & Hfr).
        exists es'. split; [exact Hr'|]. split; [congruence|]. split.
        * intros k' q [Hq|Hq]; [injection Hq as <- <-|exact (Hcl k' q Hq)].
          rewrite (Hfr p f Hp). exact Hl1.
        * intros q g Hq. cbn in Hq. rewrite (Hfr q g (fun H => Hq (or_intror H))).
          apply (removeIfExists_in_frame _ _ _ _ _ _ Hr). intros ->. apply Hq. left. reflexivity.
      + destruct (IH _ _ _ _ _ Hc' Hn H) as (es' & Hr' & Hde' & Hcl & Hfr).
        exists es'. split; [exact Hr'|]. split; [exact Hde'|]. split.
        * intros k' q [Hq|Hq]; [injection Hq as <- <-|exact (Hcl k' q Hq)].
          rewrite (Hfr p f Hp). exact El.
        * intros q g Hq. apply Hfr. intros H'. apply Hq. right. exact H'.
Qed.

Lemma unlock_loop_none : forall tp f dry cands u fs,
    (forall k p, In (k, p) cands -> lock_present f tp fs p = false) ->
    unlock_loop tp f dry cands u fs = Done u fs.
Proof.
    intros tp f dry cands. induction cands as [|[k p] rest IH]; intros u fs Hl; [reflexivity|].
    cbn [unlock_loop]. rewrite (bind_done _ _ _ _ _ (PoolFacts.pathExists_in_lock _ _ _ _)).
    rewrite (Hl k p (or_introl eq_refl)). apply IH. intros k' q Hq. exact (Hl k' q (or_intror Hq)).
Qed.

Lemma unlock_all_effect : forall cwd o fs r fs' es,
    let tp := NodePath.resolve cwd [u_targetRoot o] in
    subagentName o = None -> unlockAll o = true -> u_dryRun o = false ->
    root fs = RootDir es -> NoDup (map name es) -> Forall (fun e => component (name e)) es ->
    unlockSubagents cwd o fs = Done r fs' ->
    exists es', root fs' = RootDir es' /\ map (de_of tp) es' = map (de_of tp) es /\
      forall k p, In (k, p) (slot_candidates (map (de_of tp) es)) ->
        lock_present (u_lockName o) tp fs' p = false.
Proof.
    intros cwd o [r0 l] r fs' es tp Hs Ha Hd Hr Hnd Hc H. cbn in Hr. subst r0.
    unfold unlockSubagents in H. rewrite Hs, Ha, Hd in H. cbn [negb andb orb] in H.
    fold tp in H.
    rewrite (bind_done _ _ _ _ _ (eq_refl : pathExists_root (mkFS (RootDir es) l) = Done true _)) in H.
    cbn [negb] in H. rewrite (bind_done _ _ _ _ _ (readDirEntries_dir _ _ _)) in H.
    destruct (unlock_loop_clears tp _ _ _ _ _ _ _ (nodup_candidates tp es (nodup_slot_paths tp es Hnd Hc))
                (nodup_slot_paths tp es Hnd Hc) H) as (es' & Hr' & Hde & Hcl & _).
    exists es'. auto.
Qed.

End UnlockMore.

Import Pool Slots PoolFacts FrameFacts DispatchFacts ProvisionFacts UnlockMore.

(** X8: after a successful [--all] unlock (not a dry run) of a pool whose entries have distinct component names, unlocking all again unlocks nothing and changes nothing. *)
Theorem unlock_all_idempotent : forall cwd o fs r fs' es,
  subagentName o = None -> unlockAll o = true -> u_dryRun o = false ->
  root fs = RootDir es -> NoDup (map name es) -> Forall (fun e => component (name e)) es ->
  unlockSubagents cwd o fs = Done r fs' ->
  unlockSubagents cwd o fs' = Done [] fs'.
Proof.
  intros cwd o fs r fs' es Hs Ha Hd Hr Hnd Hc H.
  destruct (unlock_all_effect cwd o fs r fs' es Hs Ha Hd Hr Hnd Hc H) as (es' & Hr' & Hde & Hcl).
  destruct fs' as [r1 l1]. cbn in Hr'. subst r1.
  unfold unlockSubagents. rewrite Hs, Ha, Hd. cbn [negb andb orb].
  rewrite (bind_done _ _ _ _ _ (eq_refl : pathExists_root (mkFS (RootDir es') l1) = Done true _)).
  cbn [negb]. rewrite (bind_done _ _ _ _ _ (readDirEntries_dir _ _ _)).
  apply unlock_loop_none. rewrite Hde. exact Hcl.
Qed.

(** X9: after a successful [--all] unlock with the default lock name (not a dry run), the next [findUnlockedSubagent] returns the slot candidate with the lowest ordinal, or none when there is no candidate. *)
Theorem unlock_all_then_claim_first : forall cwd o fs r fs' es,
  let tp := NodePath.resolve cwd [u_targetRoot o] in
  subagentName o = None -> unlockAll o = true -> u_dryRun o = false ->
  u_lockName o = DEFAULT_LOCK_NAME ->
  root fs = RootDir es -> NoDup (map name es) -> Forall (fun e => component (name e)) es ->
  unlockSubagents cwd o fs = Done r fs' ->
  findUnlockedSubagent tp fs' = Done (option_map snd (hd_error (pool_candidates tp fs))) fs'.
Proof.
  intros cwd o fs r fs' es tp Hs Ha Hd Hlk Hr Hnd Hc H.
  destruct (unlock_all_effect cwd o fs r fs' es Hs Ha Hd Hr Hnd Hc H) as (es' & Hr' & Hde & Hcl).
  fold tp in Hde, Hcl. rewrite Hlk in Hcl.
  destruct fs' as [r1 l1]. cbn in Hr'. subst r1.
  unfold findUnlockedSubagent.
  rewrite (bind_done _ _ _ _ _ (eq_refl : pathExists_root (mkFS (RootDir es') l1) = Done true _)).
  cbn [negb]. rewrite (bind_done _ _ _ _ _ (readDirEntries_dir _ _ _)).
  rewrite first_unlocked_find, Hde.
  unfold pool_candidates. destruct fs as [r0 l0]. cbn in Hr. subst r0.
  rewrite readDirEntries_dir.
  destruct (slot_candidates (map (de_of tp) es)) as [|[k p] rest] eqn:Ec; [reflexivity|].
  cbn [find snd]. rewrite (Hcl k p (or_introl eq_refl)). reflexivity.
Qed.

(** ** Dispatch: dry runs, failures and the session API *)
Module DispatchMore.
Import Pool Slots Dispatch PoolFacts FrameFacts DispatchFacts.



End DispatchMore.

Import Pool Slots Dispatch PoolFacts FrameFacts DispatchFacts DispatchMore.



(** ** Listing and warm-up *)
Module ListingMore.
Import Pool Slots Listing PoolFacts FrameFacts DispatchFacts.

Lemma infos_of_result : forall tp l fs,
    infos_of tp l fs = Done (map (fun kp => listed tp fs (snd kp)) l) fs.
Proof.
  intros tp l fs. induction l as [|[k p] l IH]; [reflexivity|].
  cbn [infos_of]. unfold subagent_info. cbn [snd].
  rewrite (bind_done _ _ fs (listed tp fs p) fs).
  2: { rewrite (bind_done _ _ _ _ _ (pathExists_in_lock tp p DEFAULT_LOCK_NAME fs)).
       rewrite (bind_done _ _ _ _ _ (pathExists_in_lock tp p (Provision.workspace_file p) fs)).
       reflexivity. }
  rewrite (bind_done _ _ _ _ _ IH). reflexivity.
Qed.

Lemma workspaces_loop_result : forall tp l acc fs,
    workspaces_loop tp l acc fs
    = Done (acc ++ map (fun kp => NodePath.join [snd kp; Provision.workspace_file (snd kp)])
                   (filter (fun kp => lock_present (Provision.workspace_file (snd kp)) tp fs (snd kp)) l))%list
           fs.
Proof.
  intros tp l. induction l as [|[k p] l IH]; intros acc fs; cbn [workspaces_loop].
  - rewrite app_nil_r. reflexivity.
  - rewrite (bind_done _ _ _ _ _ (pathExists_in_lock tp p (Provision.workspace_file p) fs)).
    rewrite IH. cbn [filter snd].
    destruct (lock_present (Provision.workspace_file p) tp fs p); cbn [map].
    + rewrite <- app_assoc. reflexivity.
    + reflexivity.
Qed.

Lemma getAll_result : forall tp fs,
    getAllSubagentWorkspaces tp fs
    = match root fs with
      | RootFile => Thrown "ENOTDIR" fs
      | _ => Done (provisioned_workspaces tp fs) fs
      end.
Proof.
  intros tp [r lg]. unfold getAllSubagentWorkspaces, provisioned_workspaces.
  destruct r as [| |es]; [reflexivity|reflexivity|].
  rewrite (bind_done pathExists_root _ (mkFS (RootDir es) lg) true _ eq_refl). cbn [negb].
  rewrite (bind_done _ _ _ _ _ (readDirEntries_dir tp es lg)).
  rewrite workspaces_loop_result. reflexivity.
Qed.

Lemma emit_all_root : forall ms fs, exists l, emit_all ms fs = Done tt (mkFS (root fs) l).
Proof.
  intros ms. induction ms as [|m ms IH]; intros fs; cbn [emit_all].
  - exists (log fs). destruct fs; reflexivity.
  - rewrite emit_then. destruct (IH (mkFS (root fs) (log fs ++ [Print m]))) as (l & H).
    exists l. exact H.
Qed.

Lemma warmup_result : forall homedir o fs,
  root fs <> RootFile ->
  let ws := provisioned_workspaces (warm_root homedir o) fs in
  exists l, warmupSubagents homedir o fs
    = Done (if (length ws =? 0)%nat then (1, [])
            else (0, if w_dryRun o then []
                     else firstn (slice_end (length ws) (max1 (w_subagents o))) ws))
           (mkFS (root fs) l).
Proof.
  intros homedir o fs Hr ws. unfold warmupSubagents. cbv zeta.
  fold (warm_root homedir o).
  assert (Hg : getAllSubagentWorkspaces (warm_root homedir o) fs = Done ws fs)
    by (rewrite getAll_result; destruct (root fs); [reflexivity|congruence|reflexivity]).
  rewrite (bind_done _ _ _ _ _ Hg). cbn beta. fold ws.
  destruct (length ws =? 0)%nat; [eexists; reflexivity|].
  rewrite !emit_then. cbn [root log].
  destruct (w_dryRun o); rewrite emit_then; cbn [root log].
  all: match goal with |- context [bind (emit_all ?ms) _ ?f] =>
         destruct (emit_all_root ms f) as (l2 & E); rewrite (bind_done _ _ _ _ _ E) end.
  all: eexists; reflexivity.
Qed.

Lemma list_result : forall homedir o fs,
  let tp := list_root homedir o in
  match root fs with
  | RootFile => listSubagents homedir o fs = Thrown "ENOTDIR" fs
  | _ => exists l, listSubagents homedir o fs
           = Done ((if (length (pool_candidates tp fs) =? 0)%nat then 1 else 0),
                   map (fun kp => listed tp fs (snd kp)) (pool_candidates tp fs))
                  (mkFS (root fs) l)
  end.
Proof.
  intros homedir o [r lg] tp. cbn [root].
  unfold listSubagents. cbv zeta. fold (list_root homedir o). fold tp.
  destruct r as [| |es]; [|reflexivity|].
  - unfold no_subagents_found. destruct (jsonOutput o); eexists; reflexivity.
  - rewrite (bind_done pathExists_root _ (mkFS (RootDir es) lg) true _ eq_refl). cbn [negb].
    rewrite (bind_done _ _ _ _ _ (readDirEntries_dir tp es lg)).
    change (pool_candidates tp (mkFS (RootDir es) lg)) with (slot_candidates (map (de_of tp) es)).
    destruct (slot_candidates (map (de_of tp) es)) as [|c cs] eqn:Ec; cbn [length Nat.eqb].
    + unfold no_subagents_found. destruct (jsonOutput o); eexists; reflexivity.
    + rewrite (bind_done _ _ _ _ _ (infos_of_result tp (c :: cs) _)).
      destruct (jsonOutput o); eexists; reflexivity.
Qed.

End ListingMore.

Import Pool Slots Listing PoolFacts FrameFacts DispatchFacts ListingMore.

(** X15: [listSubagents] on a root that is a file throws ENOTDIR. Otherwise it leaves the pool tree unchanged, reports one entry per slot candidate in ordinal order (its basename, its path, its workspace file when present, and whether its lock marker is present), and exits 1 when there is no candidate, 0 otherwise. *)
Theorem list_subagents_report : forall homedir o fs,
  let tp := list_root homedir o in
  match root fs with
  | RootFile => listSubagents homedir o fs = Thrown "ENOTDIR" fs
  | _ => exists l, listSubagents homedir o fs
           = Done ((if (length (pool_candidates tp fs) =? 0)%nat then 1 else 0),
                   map (fun kp => listed tp fs (snd kp)) (pool_candidates tp fs))
                  (mkFS (root fs) l)
  end.
Proof. exact list_result. Qed.

(** X16: when [listSubagents] returns, the slot that [findUnlockedSubagent] claims on the same root is the path of the first reported entry that is not locked, and none when every entry is locked. *)
Theorem list_agrees_with_claim : forall homedir o fs code infos fs',
  listSubagents homedir o fs = Done (code, infos) fs' ->
  findUnlockedSubagent (list_root homedir o) fs
  = Done (option_map info_path (find (fun i => negb (info_locked i)) infos)) fs.
Proof.
  intros homedir o fs code infos fs' H.
  pose proof (list_result homedir o fs) as R. cbv zeta in R.
  rewrite findUnlockedSubagent_result.
  destruct fs as [r lg]. cbn [root] in R |- *.
  destruct r as [| |es].
  - destruct R as (l & R). rewrite R in H. injection H as _ <- _. reflexivity.
  - rewrite R in H. discriminate H.
  - destruct R as (l & R). rewrite R in H. injection H as _ <- _.
    f_equal. generalize (pool_candidates (list_root homedir o) (mkFS (RootDir es) lg)).
    intros cands. induction cands as [|[k p] cands IH]; [reflexivity|].
    cbn [map find snd]. unfold listed at 1. cbn [info_locked info_path].
    destruct (lock_present DEFAULT_LOCK_NAME _ _ p); cbn [negb]; [exact IH|reflexivity].
Qed.

(** X17: [getAllSubagentWorkspaces] on a root that is a file throws ENOTDIR; otherwise it changes nothing and returns, in ordinal order, the workspace file paths of the slot candidates that have one. *)
Theorem all_workspaces_listed : forall tp fs,
  match root fs with
  | RootFile => getAllSubagentWorkspaces tp fs = Thrown "ENOTDIR" fs
  | _ => getAllSubagentWorkspaces tp fs = Done (provisioned_workspaces tp fs) fs
  end.
Proof. intros tp fs. rewrite getAll_result. destruct (root fs); reflexivity. Qed.

(** X18: with an integer count z and a root that is not a file, [warmupSubagents] exits 1 and opens nothing when no slot has a workspace file; otherwise it exits 0 and opens the first max(1, z) workspaces (all of them when there are fewer), none in a dry run. The pool tree is unchanged. *)
Theorem warmup_opens_count : forall homedir o fs z,
  root fs <> RootFile -> w_subagents o = Int z ->
  let ws := provisioned_workspaces (warm_root homedir o) fs in
  exists l, warmupSubagents homedir o fs
    = Done (if (length ws =? 0)%nat then (1, [])
            else (0, if w_dryRun o then [] else firstn (Z.to_nat (Z.max 1 z)) ws))
           (mkFS (root fs) l).
Proof.
  intros homedir o fs z Hr Hz ws.
  destruct (warmup_result homedir o fs Hr) as (l & H). fold ws in H.
  exists l. rewrite H, Hz. cbn [max1 slice_end].
  replace (Z.max 1 z <? 0) with false by (symmetry; apply Z.ltb_ge; lia).
  destruct (Nat.min_spec (Z.to_nat (Z.max 1 z)) (length ws)) as [[_ ->]|[Hle ->]]; [reflexivity|].
  rewrite firstn_all, firstn_all2 by exact Hle. reflexivity.
Qed.

(** X19: with a NaN count and a root that is not a file, [warmupSubagents] opens no workspace, yet exits 0 whenever some slot has a workspace file. *)
Theorem warmup_nan_opens_nothing : forall homedir o fs,
  root fs <> RootFile -> w_subagents o = NaN ->
  exists l, warmupSubagents homedir o fs
    = Done ((if (length (provisioned_workspaces (warm_root homedir o) fs) =? 0)%nat then 1 else 0), [])
           (mkFS (root fs) l).
Proof.
  intros homedir o fs Hr Hz.
  destruct (warmup_result homedir o fs Hr) as (l & H).
  exists l. rewrite H, Hz. cbn [max1 slice_end firstn].
  destruct (_ =? 0)%nat; [reflexivity|]. destruct (w_dryRun o); reflexivity.
Qed.

(** ** Request prompt and default root *)
Module MiscMore.
Import RequestPrompt NodePath PathFacts.

Lemma escape_head : forall s c r, escape_backticks s = String c r -> c <> "`"%char.
Proof.
  intros [|a s] c r H; cbn in H; [discriminate|].
  destruct (Ascii.eqb a "`") eqn:E.
  - injection H as <- _. discriminate.
  - injection H as <- _. intros ->. discriminate E.
Qed.

Lemma escape_inj : forall s t, escape_backticks s = escape_backticks t -> s = t.
Proof.
  induction s as [|a s IH]; intros [|b t] H; cbn in H.
  - reflexivity.
  - destruct (Ascii.eqb b "`"); discriminate H.
  - destruct (Ascii.eqb a "`"); discriminate H.
  - destruct (Ascii.eqb a "`") eqn:Ea, (Ascii.eqb b "`") eqn:Eb.
    + apply Ascii.eqb_eq in Ea, Eb. subst. injection H as H. f_equal. apply IH, H.
    + apply Ascii.eqb_eq in Ea. subst a. injection H as Hb H. subst b.
      symmetry in H. exfalso. exact (escape_head _ _ _ H eq_refl).
    + apply Ascii.eqb_eq in Eb. subst b. injection H as Ha H. subst a.
      exfalso. exact (escape_head _ _ _ H eq_refl).
    + injection H as -> H. f_equal. apply IH, H.
Qed.

Lemma app_cancel_r : forall a b x : string, (a ++ x)%string = (b ++ x)%string -> a = b.
Proof.
  induction a as [|c a IH]; intros [|d b] x H; cbn in H.
  - reflexivity.
  - exfalso. apply (f_equal String.length) in H. cbn in H.
    rewrite WorkspaceFacts.length_app_str in H. lia.
  - exfalso. apply (f_equal String.length) in H. cbn in H.
    rewrite WorkspaceFacts.length_app_str in H. lia.
  - injection H as -> H. f_equal. exact (IH b x H).
Qed.

Lemma join3 : forall h a b, a <> "" -> b <> "" ->
    join [h; a; b] = join [(if String.eqb h "" then a else h ++ "/" ++ a); b].
Proof.
  intros h a b Ha Hb. apply String.eqb_neq in Ha, Hb. unfold join. cbn [filter].
  rewrite Ha, Hb. destruct (String.eqb h "") eqn:Eh; cbn [negb filter].
  - rewrite ?Ha, ?Hb. reflexivity.
  - assert (E : String.eqb (h ++ "/" ++ a) "" = false)
      by (destruct h; [discriminate|reflexivity]).
    rewrite E. reflexivity.
Qed.

End MiscMore.

Import MiscMore.

(** X20: [createRequestPrompt] loses nothing of the query: with the other arguments fixed, equal prompts come from equal queries (the backtick escaping is injective). *)
Theorem request_prompt_injective : forall q1 q2 tmp fin name cmd,
  RequestPrompt.createRequestPrompt q1 tmp fin name cmd
  = RequestPrompt.createRequestPrompt q2 tmp fin name cmd -> q1 = q2.
Proof.
  intros q1 q2 tmp fin name cmd H. unfold RequestPrompt.createRequestPrompt in H.
  apply PathFacts.str_app_cancel_l in H.
  apply PathFacts.str_app_cancel_l in H.
  apply app_cancel_r in H.
  exact (escape_inj _ _ H).
Qed.

(** X21: whatever the home directory, the default subagent root ends in the folder vscode-insiders-agents for the command code-insiders and vscode-agents for any other command; so code-insiders never shares its default root with another command. *)
Theorem default_root_folder : forall homedir cmd,
  NodePath.basename (Constants.getDefaultSubagentRoot homedir cmd)
  = (if String.eqb cmd "code-insiders" then "vscode-insiders-agents" else "vscode-agents") /\
  (cmd <> "code-insiders" ->
   Constants.getDefaultSubagentRoot homedir cmd
   <> Constants.getDefaultSubagentRoot homedir "code-insiders").
Proof.
  assert (Hb : forall homedir cmd,
    NodePath.basename (Constants.getDefaultSubagentRoot homedir cmd)
    = (if String.eqb cmd "code-insiders" then "vscode-insiders-agents" else "vscode-agents")).
  { intros homedir cmd. unfold Constants.getDefaultSubagentRoot.
    destruct (String.eqb cmd "code-insiders");
      (rewrite join3 by discriminate; apply PathFacts.basename_join_component;
       split; [reflexivity|]; split; [|split]; discriminate). }
  intros homedir cmd. split; [apply Hb|].
  intros Hc E. apply (f_equal NodePath.basename) in E. rewrite !Hb in E.
  apply String.eqb_neq in Hc. rewrite Hc in E. discriminate E.
Qed.

(** ** Witnesses of the further properties *)

Lemma transform_folders_each_witness : exists out fs',
  transformWorkspacePaths witness_parse_C5 "/w"
    "{folders: [{path: './lib'}, {path: '/abs/x'}, {path: '.'}]}" "/t" = inr (JObj out) /\
  lookup "folders" out = Some (JArr (JObj [("path", JStr ".")] :: fs')).
Proof.
  destruct (proj1 (transform_folders_each witness_parse_C5 "/w"
                     "{folders: [{path: './lib'}, {path: '/abs/x'}, {path: '.'}]}" "/t"
                     [("folders", JArr [folder "./lib"; folder "/abs/x"; folder "."])]
                     [folder "./lib"; folder "/abs/x"; folder "."] eq_refl eq_refl))
    as (out & fs' & H1 & H2 & _).
  - intros f Hf. destruct Hf as [<-|[<-|[<-|[]]]]; eexists _, _; split; reflexivity.
  - exists out, fs'. split; [exact H1|exact H2].
Defined.

Lemma transform_keeps_other_properties_witness : exists sout,
  lookup "settings"
    [("settings", JObj [("chat.promptFilesLocations", JObj [("/t/foo/*.md", JBool true)])]);
     ("folders", JArr [folder "."])] = Some (JObj sout).
Proof.
  destruct (transform_keeps_other_properties (parse_only text_glob doc_glob) "/" text_glob "/t"
              [("settings", JObj [("chat.promptFilesLocations", JObj [("foo/*.md", JBool true)])]);
               ("folders", JArr [])]
              [("settings", JObj [("chat.promptFilesLocations", JObj [("/t/foo/*.md", JBool true)])]);
               ("folders", JArr [folder "."])]
              eq_refl ltac:(vm_compute; reflexivity)) as (_ & _ & H3).
  destruct (H3 _ eq_refl) as (sout & Hs & _). exists sout. exact Hs.
Defined.

Lemma transform_paths_absolute_witness : exists fs',
  lookup "folders"
    [("settings", JObj [("chat.promptFilesLocations", JObj [("/t/foo/*.md", JBool true)])]);
     ("folders", JArr [folder "."])] = Some (JArr (JObj [("path", JStr ".")] :: fs')).
Proof.
  destruct (transform_paths_absolute (parse_only text_glob doc_glob) "/" text_glob "/t"
              [("settings", JObj [("chat.promptFilesLocations", JObj [("foo/*.md", JBool true)])]);
               ("folders", JArr [])]
              [("settings", JObj [("chat.promptFilesLocations", JObj [("/t/foo/*.md", JBool true)])]);
               ("folders", JArr [folder "."])]
              eq_refl eq_refl ltac:(vm_compute; reflexivity)) as ((fs' & H & _) & _).
  exists fs'. exact H.
Defined.

Lemma provision_dry_run_keeps_fs_witness :
  keeps_fs pool_1_locked (provisionSubagents "/" (provision_options 4 false true) pool_1_locked).
Proof. apply (provision_dry_run_keeps_fs "/" (provision_options 4 false true) pool_1_locked). reflexivity. Defined.

Lemma provision_no_force_keeps_files_witness : exists r fs',
  provisionSubagents "/" (provision_options 4 false false) pool_1_locked = Done r fs' /\
  pathExists_in "/p" "/p/subagent-1" "subagent.lock" fs' = Done true fs'.
Proof.
  destruct (provisionSubagents "/" (provision_options 4 false false) pool_1_locked)
    as [r fs'|e fs'|] eqn:E; [|vm_compute in E; discriminate E|vm_compute in E; discriminate E].
  exists r, fs'. split; [reflexivity|].
  apply (provision_no_force_keeps_files "/" (provision_options 4 false false) pool_1_locked r fs'
           "/p/subagent-1" "subagent.lock" eq_refl E).
  vm_compute. reflexivity.
Defined.

Lemma unlock_all_idempotent_witness : exists r fs',
  unlockSubagents "/" (mkUnlockOptions "/p" "subagent.lock" None true false) pool_1_locked
  = Done r fs' /\
  unlockSubagents "/" (mkUnlockOptions "/p" "subagent.lock" None true false) fs' = Done [] fs'.
Proof.
  destruct (unlockSubagents "/" (mkUnlockOptions "/p" "subagent.lock" None true false) pool_1_locked)
    as [r fs'|e fs'|] eqn:E; [|vm_compute in E; discriminate E|vm_compute in E; discriminate E].
  exists r, fs'. split; [reflexivity|].
  destruct pool_1_entries_ok as [Hn Hc].
  exact (unlock_all_idempotent "/" (mkUnlockOptions "/p" "subagent.lock" None true false)
           pool_1_locked r fs' pool_1_entries eq_refl eq_refl eq_refl eq_refl Hn Hc E).
Defined.

Lemma unlock_all_then_claim_first_witness : exists r fs',
  unlockSubagents "/" (mkUnlockOptions "/p" "subagent.lock" None true false) pool_1_locked
  = Done r fs' /\
  findUnlockedSubagent "/p" fs' = Done (Some "/p/subagent-1") fs'.
Proof.
  destruct (unlockSubagents "/" (mkUnlockOptions "/p" "subagent.lock" None true false) pool_1_locked)
    as [r fs'|e fs'|] eqn:E; [|vm_compute in E; discriminate E|vm_compute in E; discriminate E].
  exists r, fs'. split; [reflexivity|].
  destruct pool_1_entries_ok as [Hn Hc].
  refine (eq_trans (unlock_all_then_claim_first "/" (mkUnlockOptions "/p" "subagent.lock" None true false)
             pool_1_locked r fs' pool_1_entries eq_refl eq_refl eq_refl eq_refl eq_refl Hn Hc E) _).
  vm_compute. reflexivity.
Defined.



Lemma list_agrees_with_claim_witness : exists code infos fs',
  Listing.listSubagents "/h" (Listing.mkListOptions (Some "/p") false "code") pool_1_locked
  = Done (code, infos) fs' /\
  findUnlockedSubagent "/p" pool_1_locked
  = Done (option_map Listing.info_path
            (find (fun i => negb (Listing.info_locked i)) infos)) pool_1_locked.
Proof.
  destruct (Listing.listSubagents "/h" (Listing.mkListOptions (Some "/p") false "code") pool_1_locked)
    as [[code infos] fs'|e fs'|] eqn:E; [|vm_compute in E; discriminate E|vm_compute in E; discriminate E].
  exists code, infos, fs'. split; [reflexivity|].
  exact (list_agrees_with_claim "/h" (Listing.mkListOptions (Some "/p") false "code")
           pool_1_locked code infos fs' E).
Defined.

Lemma warmup_opens_count_witness : exists l,
  Listing.warmupSubagents "/h" (Listing.mkWarmupOptions (Some "/p") (Listing.Int 1) false "code")
    pool_workspaces
  = Done (0, ["/p/subagent-1/subagent-1.code-workspace"]) (mkFS (root pool_workspaces) l).
Proof.
  destruct (warmup_opens_count "/h" (Listing.mkWarmupOptions (Some "/p") (Listing.Int 1) false "code")
              pool_workspaces 1 ltac:(discriminate) eq_refl) as (l & H).
  exists l. rewrite H. vm_compute. reflexivity.
Defined.

Lemma warmup_nan_opens_nothing_witness : exists l,
  Listing.warmupSubagents "/h" (Listing.mkWarmupOptions (Some "/p") Listing.NaN false "code")
    pool_workspaces
  = Done (0, []) (mkFS (root pool_workspaces) l).
Proof.
  destruct (warmup_nan_opens_nothing "/h" (Listing.mkWarmupOptions (Some "/p") Listing.NaN false "code")
              pool_workspaces ltac:(discriminate) eq_refl) as (l & H).
  exists l. rewrite H. vm_compute. reflexivity.
Defined.

Lemma request_prompt_injective_witness : "say `hi`" = "say `hi`".
Proof.
  apply (request_prompt_injective "say `hi`" "say `hi`" "/m/r.tmp.md" "/m/r.md" "subagent-1" "code").
  reflexivity.
Defined.

Lemma default_root_folder_witness :
  Constants.getDefaultSubagentRoot "/home/u" "code"
  <> Constants.getDefaultSubagentRoot "/home/u" "code-insiders".
Proof. apply (proj2 (default_root_folder "/home/u" "code")). discriminate. Defined.

Module DiskFacts.
Import Disk DiskRelations.

(** *** Keys and updates *)

Lemma key_eqb_true : forall a b, key_eqb a b = true <-> a = b.
Proof.
  intros a b. unfold key_eqb. destruct (list_eq_dec String.string_dec a b); split; congruence.
Qed.

Lemma key_eqb_refl : forall a, key_eqb a a = true.
Proof. intros a. apply key_eqb_true. reflexivity. Qed.

Lemma key_eqb_false : forall a b, a <> b -> key_eqb a b = false.
Proof.
  intros a b H. destruct (key_eqb a b) eqn:E; [apply key_eqb_true in E; congruence|reflexivity].
Qed.

Lemma key_eqb_sym : forall a b, key_eqb a b = key_eqb b a.
Proof.
  intros a b. destruct (key_eqb a b) eqn:E1, (key_eqb b a) eqn:E2; auto.
  - apply key_eqb_true in E1. subst. rewrite key_eqb_refl in E2. discriminate.
  - apply key_eqb_true in E2. subst. rewrite key_eqb_refl in E1. discriminate.
Qed.

Lemma lookup_set_node : forall fs k n K,
  lookup (set_node fs k n) K = if key_eqb k K then Some n else lookup fs K.
Proof.
  induction fs as [|[k' n'] r IH]; intros k n K; simpl.
  - destruct (key_eqb k K); reflexivity.
  - destruct (key_eqb k' k) eqn:E.
    + apply key_eqb_true in E. subst k'. simpl. destruct (key_eqb k K); reflexivity.
    + simpl. rewrite IH. destruct (key_eqb k' K) eqn:E2; [|reflexivity].
      apply key_eqb_true in E2. subst K. rewrite key_eqb_sym, E. reflexivity.
Qed.

Lemma lookup_remove_node : forall fs k K,
  lookup (remove_node fs k) K = if key_eqb k K then None else lookup fs K.
Proof.
  induction fs as [|[k' n'] r IH]; intros k K; simpl.
  - destruct (key_eqb k K); reflexivity.
  - unfold remove_node in *. simpl. destruct (key_eqb k' k) eqn:E; simpl.
    + rewrite IH. apply key_eqb_true in E. subst k'.
      destruct (key_eqb k K); reflexivity.
    + rewrite IH. destruct (key_eqb k' K) eqn:E2.
      * apply key_eqb_true in E2. subst K. rewrite key_eqb_sym, E. reflexivity.
      * reflexivity.
Qed.

Lemma lookup_app : forall fs1 fs2 K,
  lookup (fs1 ++ fs2)%list K = match lookup fs1 K with Some n => Some n | None => lookup fs2 K end.
Proof.
  induction fs1 as [|[k' n'] r IH]; intros fs2 K; simpl; [reflexivity|].
  destruct (key_eqb k' K); [reflexivity|apply IH].
Qed.

Lemma is_dir_node : forall fs k, is_dir fs k = true <-> node_at fs k = Some DirN.
Proof. intros fs k. unfold is_dir. destruct (node_at fs k) as [[c|]|]; split; congruence. Qed.

(** *** The monad *)

Lemma prepend_nil : forall A (r : Outcome A), prepend [] r = r.
Proof. intros A [a fs o|e fs o|]; reflexivity. Qed.

Lemma bind_Done : forall A B (m : M A) (k : A -> M B) fs a fs' o,
  m fs = Done a fs' o -> bind m k fs = prepend o (k a fs').
Proof. intros A B m k fs a fs' o H. unfold bind. rewrite H. reflexivity. Qed.



Lemma bind_Done_inv : forall A B (m : M A) (k : A -> M B) fs b fs'' o,
  bind m k fs = Done b fs'' o ->
  exists a fs' o1 o2, m fs = Done a fs' o1 /\ k a fs' = Done b fs'' o2 /\ o = (o1 ++ o2)%list.
Proof.
  intros A B m k fs b fs'' o H. unfold bind in H.
  destruct (m fs) as [a fs' o1|e fs' o1|]; [|discriminate|discriminate].
  destruct (k a fs') as [b' f2 o2|e f2 o2|] eqn:Ek; simpl in H; try discriminate.
  injection H as <- <- <-. exists a, fs', o1, o2. auto.
Qed.


(** *** Invariants of runs *)

Section Stays.
Variable R : FS -> FS -> Prop.
Hypothesis R_refl : forall fs, R fs fs.
Hypothesis R_trans : forall a b c, R a b -> R b c -> R a c.

Lemma stays_ret : forall A (a : A), stays R (ret a).
Proof. intros A a fs. apply R_refl. Qed.

Lemma stays_throw : forall A e, stays R (@throw A e).
Proof. intros A e fs. apply R_refl. Qed.


Lemma stays_prepend : forall A o fs (r : Outcome A),
  match r with Done _ fs' _ | Thrown _ fs' _ => R fs fs' | Diverges => True end ->
  match prepend o r with Done _ fs' _ | Thrown _ fs' _ => R fs fs' | Diverges => True end.
Proof. intros A o fs [a f oo|e f oo|] H; exact H. Qed.

Lemma stays_bind : forall A B (m : M A) (k : A -> M B),
  stays R m -> (forall a, stays R (k a)) -> stays R (bind m k).
Proof.
  intros A B m k Hm Hk fs. unfold bind. specialize (Hm fs).
  destruct (m fs) as [a fs' o|e fs' o|]; [|exact Hm|exact I].
  specialize (Hk a fs'). apply stays_prepend.
  destruct (k a fs'); eauto.
Qed.

Lemma stays_catch : forall A (m : M A) h,
  stays R m -> (forall e, stays R (h e)) -> stays R (catch m h).
Proof.
  intros A m h Hm Hh fs. unfold catch. specialize (Hm fs).
  destruct (m fs) as [a fs' o|e fs' o|]; [exact Hm| |exact I].
  specialize (Hh e fs'). apply stays_prepend.
  destruct (h e fs'); eauto.
Qed.

Lemma stays_if : forall A (b : bool) (m1 m2 : M A),
  stays R m1 -> stays R m2 -> stays R (if b then m1 else m2).
Proof. intros A [|] m1 m2 H1 H2; assumption. Qed.

End Stays.

Lemma stays_mono : forall (R1 R2 : FS -> FS -> Prop) A (m : M A),
  (forall a b, R1 a b -> R2 a b) -> stays R1 m -> stays R2 m.
Proof.
  intros R1 R2 A m H Hm fs. specialize (Hm fs). destruct (m fs); auto.
Qed.

Lemma dirs_kept_refl : forall fs, dirs_kept fs fs.
Proof. intros fs k H. exact H. Qed.

Lemma dirs_kept_trans : forall a b c, dirs_kept a b -> dirs_kept b c -> dirs_kept a c.
Proof. intros a b c H1 H2 k H. apply H2, H1, H. Qed.

Lemma dirs_kept_set : forall fs k n,
  node_at fs k <> Some DirN -> dirs_kept fs (set_node fs k n).
Proof.
  intros fs k n Hk K HK. apply is_dir_node in HK. apply is_dir_node.
  destruct K as [|x K']; [reflexivity|]. simpl in *. rewrite lookup_set_node.
  destruct (key_eqb k (x :: K')) eqn:E; [|exact HK].
  apply key_eqb_true in E. subst k. simpl in Hk. congruence.
Qed.

Lemma dirs_kept_remove : forall fs k,
  node_at fs k <> Some DirN -> dirs_kept fs (remove_node fs k).
Proof.
  intros fs k Hk K HK. apply is_dir_node in HK. apply is_dir_node.
  destruct K as [|x K']; [reflexivity|]. simpl in *. rewrite lookup_remove_node.
  destruct (key_eqb k (x :: K')) eqn:E; [|exact HK].
  apply key_eqb_true in E. subst k. simpl in Hk. congruence.
Qed.

Lemma disk_frame_refl : forall P fs, frame P fs fs.
Proof. intros P fs. split; [apply dirs_kept_refl|auto]. Qed.

Lemma disk_frame_trans : forall P a b c, frame P a b -> frame P b c -> frame P a c.
Proof.
  intros P a b c [H1 H2] [H3 H4]. split; [eapply dirs_kept_trans; eauto|].
  intros K HK. rewrite H4, H2; auto.
Qed.

Lemma frame_mono : forall (P Q : Key -> Prop) a b,
  (forall K, P K -> Q K) -> frame P a b -> frame Q a b.
Proof. intros P Q a b HPQ [H1 H2]. split; [exact H1|]. intros K HK. apply H2. auto. Qed.

End DiskFacts.

Module DiskPaths.
Import Disk DiskFacts DiskRelations DiskReadings PathFacts.

Lemma component_noslash : forall c, Inputs.component c -> Workspace.index_of "/" c = None.
Proof. intros c (H & _). exact H. Qed.

Lemma split_on_noslash : forall c s, Forall (fun t => Workspace.index_of c t = None) (NodePath.split_on c s).
Proof.
  intros c. induction s as [|a r IH]; simpl; [constructor; [reflexivity|constructor]|].
  destruct (Ascii.eqb a c) eqn:E.
  - constructor; [reflexivity|exact IH].
  - destruct (NodePath.split_on c r) as [|x xs] eqn:Er.
    + constructor; [simpl; rewrite E; reflexivity|constructor].
    + inversion IH as [|? ? Hx Hxs]; subst. constructor; [|exact Hxs].
      simpl. rewrite E, Hx. reflexivity.
Qed.

Lemma split_concat : forall K, Forall Inputs.component K -> K <> [] ->
  NodePath.split_on "/" (String.concat "/" K) = K.
Proof.
  induction K as [|c K IH]; intros HK Hne; [congruence|].
  inversion HK as [|? ? Hc HK']; subst.
  destruct K as [|c' K'].
  - simpl. apply split_on_nochar. apply component_noslash, Hc.
  - change (String.concat "/" (c :: c' :: K')) with (c ++ String "/" (String.concat "/" (c' :: K'))).
    rewrite split_on_app, (split_on_nochar _ _ (component_noslash _ Hc)), IH; [reflexivity|exact HK'|discriminate].
Qed.

Lemma fold_components : forall b K st, Forall Inputs.component K ->
  fold_left (NodePath.norm_step b) K st = (rev K ++ st)%list.
Proof.
  intros b K. induction K as [|c K IH]; intros st HK; [reflexivity|].
  inversion HK; subst. simpl. rewrite norm_step_component by assumption.
  rewrite IH by assumption. rewrite <- app_assoc. reflexivity.
Qed.

Lemma fold_split_concat : forall b K st, Forall Inputs.component K ->
  fold_left (NodePath.norm_step b) (NodePath.split_on "/" (String.concat "/" K)) st = (rev K ++ st)%list.
Proof.
  intros b K st HK. destruct K as [|c K'].
  - reflexivity.
  - rewrite split_concat by (assumption || discriminate). apply fold_components, HK.
Qed.

Lemma norm_step_false_components : forall st seg,
  Forall Inputs.component st -> Workspace.index_of "/" seg = None ->
  Forall Inputs.component (NodePath.norm_step false st seg).
Proof.
  intros st seg Hst Hseg. unfold NodePath.norm_step.
  destruct (String.eqb seg "" || String.eqb seg ".") eqn:E1; [exact Hst|].
  destruct (String.eqb seg "..") eqn:E2.
  - destruct st as [|x r]; [constructor|].
    inversion Hst; subst. destruct (String.eqb x ".."); [exact Hst|assumption].
  - apply orb_false_iff in E1 as [E1 E1']. apply String.eqb_neq in E1, E1', E2.
    constructor; [|exact Hst]. repeat split; assumption.
Qed.

Lemma fold_norm_false_components : forall segs st,
  Forall (fun t => Workspace.index_of "/" t = None) segs -> Forall Inputs.component st ->
  Forall Inputs.component (fold_left (NodePath.norm_step false) segs st).
Proof.
  induction segs as [|s r IH]; intros st Hs Hst; simpl; [exact Hst|].
  inversion Hs; subst. apply IH; [assumption|]. apply norm_step_false_components; assumption.
Qed.

Lemma concat_nonempty : forall K, Forall Inputs.component K -> K <> [] -> String.concat "/" K <> "".
Proof.
  intros [|c K] HK Hne; [congruence|]. inversion HK as [|? ? (_ & Hc & _) _]; subst.
  destruct K as [|c' K']; simpl; [exact Hc|].
  destruct c; [congruence|discriminate].
Qed.

(** [path.resolve] with an absolute working directory gives the absolute
    path of some components. *)
Lemma resolve_abs_path : forall cwd args,
  NodePath.is_absolute cwd = true ->
  exists K, Forall Inputs.component K /\ NodePath.resolve cwd args = abs_path K.
Proof.
  intros cwd args Hc. unfold NodePath.resolve.
  pose proof (TransformFacts.resolve_scan_abs (rev args ++ [cwd]) "") as H.
  destruct (NodePath.resolve_scan (rev args ++ [cwd]) "") as [rp abs].
  simpl in H. rewrite H; [|exists cwd; split; [apply in_or_app; right; now left | exact Hc]].
  unfold NodePath.normalizeString. simpl negb.
  exists (rev (fold_left (NodePath.norm_step false) (NodePath.split_on "/" rp) [])).
  split; [|reflexivity].
  apply Forall_rev, fold_norm_false_components; [apply split_on_noslash|constructor].
Qed.


Lemma split_abs_path : forall K, Forall Inputs.component K ->
  NodePath.split_on "/" (abs_path K) = "" :: match K with [] => [""] | _ => K end.
Proof.
  intros K HK. unfold abs_path. simpl. try rewrite Ascii.eqb_refl. f_equal.
  destruct K as [|c K']; [reflexivity|]. apply split_concat; [exact HK|discriminate].
Qed.

Lemma ends_with_slash_abs_snoc : forall K x, Inputs.component x ->
  NodePath.ends_with_slash (abs_path K ++ "/" ++ x) = false.
Proof.
  intros K x Hx. pose proof (ends_with_slash_component (abs_path K ++ "/") x Hx) as H.
  rewrite str_app_assoc in H. exact H.
Qed.

(** [path.join(abs_path K, x)] for a component [x]. *)
Lemma join_abs : forall K x, Forall Inputs.component K -> Inputs.component x ->
  NodePath.join [abs_path K; x] = abs_path (K ++ [x]).
Proof.
  intros K x HK Hx. pose proof Hx as (Hs & Hne & _).
  unfold NodePath.join. simpl filter.
  apply String.eqb_neq in Hne as Hne'. rewrite Hne'. cbn [negb fold_left].
  fold (abs_path K).
  unfold NodePath.normalize.
  assert (E1 : String.eqb (abs_path K ++ "/" ++ x) "" = false) by reflexivity.
  rewrite E1. change (NodePath.is_absolute (abs_path K ++ "/" ++ x)) with true.
  rewrite ends_with_slash_abs_snoc by exact Hx. simpl negb.
  unfold NodePath.normalizeString.
  assert (Hsp : NodePath.split_on "/" (abs_path K ++ "/" ++ x)
                = ("" :: NodePath.split_on "/" (String.concat "/" K) ++ [x])%list).
  { unfold abs_path. simpl. try rewrite Ascii.eqb_refl. f_equal.
    change ("/" ++ x) with (String "/" x). rewrite split_on_app, (split_on_nochar _ _ Hs).
    reflexivity. }
  rewrite Hsp. simpl fold_left. rewrite fold_left_app, fold_split_concat by exact HK.
  simpl. rewrite norm_step_component by exact Hx. rewrite app_nil_r.
  replace (rev (x :: rev K)) with (K ++ [x])%list by (simpl; rewrite rev_involutive; reflexivity).
  assert (Hn : String.eqb (String.concat "/" (K ++ [x])) "" = false).
  { apply String.eqb_neq, concat_nonempty.
    - apply Forall_app; split; [exact HK|constructor; [exact Hx|constructor]].
    - destruct K; discriminate. }
  rewrite Hn. reflexivity.
Qed.

(** [basename(abs_path (K ++ [n]))] *)
Lemma basename_abs : forall K n, Forall Inputs.component K -> Inputs.component n ->
  NodePath.basename (abs_path (K ++ [n])) = n.
Proof.
  intros K n HK Hn. rewrite <- join_abs by assumption. apply basename_join_component, Hn.
Qed.

(** *** Walking components *)

Lemma walk_components_at : forall fs K cur k, Forall Inputs.component K ->
  walk fs cur K = At k -> k = (cur ++ K)%list /\ dirs_along fs cur K.
Proof.
  intros fs K. induction K as [|c r IH]; intros cur k HK Hw; simpl in Hw.
  - injection Hw as <-. rewrite app_nil_r. split; [reflexivity|exact I].
  - inversion HK as [|? ? Hc Hr]; subst. pose proof Hc as (_ & H1 & H2 & H3).
    apply String.eqb_neq in H1, H2, H3. rewrite H1, H2, H3 in Hw. simpl in Hw.
    destruct (is_dir fs cur) eqn:Ed; simpl in Hw; [|destruct (exists_key fs cur); discriminate].
    destruct (IH _ _ Hr Hw) as [-> Hd]. rewrite <- app_assoc. split; [reflexivity|].
    split; [exact Ed|exact Hd].
Qed.

Lemma walk_components_ok : forall fs K cur, Forall Inputs.component K ->
  dirs_along fs cur K -> walk fs cur K = At (cur ++ K)%list.
Proof.
  intros fs K. induction K as [|c r IH]; intros cur HK Hd; simpl.
  - rewrite app_nil_r. reflexivity.
  - inversion HK as [|? ? Hc Hr]; subst. pose proof Hc as (_ & H1 & H2 & H3).
    apply String.eqb_neq in H1, H2, H3. rewrite H1, H2, H3. destruct Hd as [Hcur Hd].
    rewrite Hcur. simpl. rewrite IH by assumption. rewrite <- app_assoc. reflexivity.
Qed.

Lemma dirs_along_app : forall fs cur K1 K2,
  dirs_along fs cur (K1 ++ K2) <-> dirs_along fs cur K1 /\ dirs_along fs (cur ++ K1)%list K2.
Proof.
  intros fs cur K1. revert cur. induction K1 as [|c r IH]; intros cur K2; simpl.
  - rewrite app_nil_r. tauto.
  - rewrite IH, <- app_assoc. simpl. tauto.
Qed.

Lemma dirs_along_snoc : forall fs K c,
  dirs_along fs [] (K ++ [c]) <-> dirs_along fs [] K /\ is_dir fs K = true.
Proof. intros fs K c. rewrite dirs_along_app. simpl. tauto. Qed.


Lemma locate_abs : forall cwd fs K, Forall Inputs.component K ->
  locate cwd fs (abs_path K) = walk fs [] K.
Proof.
  intros cwd fs K HK. unfold locate. rewrite split_abs_path by exact HK.
  change (String.eqb (abs_path K) "") with false.
  change (NodePath.is_absolute (abs_path K)) with true. simpl.
  destruct K; reflexivity.
Qed.

(** *** Paths and existence under [wf] *)

Lemma proper_component : forall c, proper c = true <-> Inputs.component c.
Proof.
  intros c. unfold proper, Inputs.component, Inputs.no_char.
  rewrite !andb_true_iff, !negb_true_iff, !String.eqb_neq.
  destruct (Workspace.index_of "/" c); split; intros H; intuition congruence.
Qed.

Lemma lookup_in : forall fs k n, lookup fs k = Some n -> In (k, n) fs.
Proof.
  induction fs as [|[k' n'] r IH]; intros k n H; simpl in H; [discriminate|].
  destruct (key_eqb k' k) eqn:E.
  - apply key_eqb_true in E. subst. injection H as <-. now left.
  - right. apply IH, H.
Qed.

Lemma wf_entry : forall fs k n, wf fs = true -> In (k, n) fs ->
  k <> [] /\ Forall Inputs.component k /\ is_dir fs (removelast k) = true.
Proof.
  intros fs k n Hwf Hin. unfold wf in Hwf. apply andb_true_iff in Hwf as [_ Hwf].
  rewrite forallb_forall in Hwf. specialize (Hwf _ Hin). simpl in Hwf.
  destruct k as [|c k']; [discriminate|]. apply andb_true_iff in Hwf as [H1 H2].
  split; [discriminate|]. split; [|exact H2].
  change (forallb proper (c :: k') = true) in H1.
  apply Forall_forall. intros x Hx. rewrite forallb_forall in H1. apply proper_component, H1, Hx.
Qed.

Lemma wf_dirs_along : forall fs K, wf fs = true -> exists_key fs K = true -> dirs_along fs [] K.
Proof.
  intros fs K Hwf. induction K as [|c K IH] using rev_ind; intros He; [exact I|].
  apply dirs_along_snoc.
  unfold exists_key, node_at in He. destruct (K ++ [c])%list eqn:Ek; [destruct K; discriminate|].
  rewrite <- Ek in He. destruct (lookup fs (K ++ [c])%list) as [n|] eqn:El; [|discriminate].
  destruct (wf_entry fs _ n Hwf (lookup_in _ _ _ El)) as (_ & _ & Hp).
  rewrite removelast_last in Hp. split; [|exact Hp].
  apply IH. apply is_dir_node in Hp. unfold exists_key. rewrite Hp. reflexivity.
Qed.

End DiskPaths.

Module DiskOps.
Import Disk DiskFacts DiskRelations DiskReadings DiskPaths.
Local Open Scope list_scope.

(** *** Walks that see the same nodes *)

Lemma walk_agree : forall fs fs' K cur, Forall Inputs.component K ->
  (forall j, (j <= length K)%nat -> node_at fs (cur ++ firstn j K) = node_at fs' (cur ++ firstn j K)) ->
  walk fs cur K = walk fs' cur K.
Proof.
  intros fs fs' K. induction K as [|c r IH]; intros cur HK Ha; [reflexivity|].
  inversion HK as [|? ? Hc Hr]; subst. pose proof Hc as (_ & H1 & H2 & H3).
  apply String.eqb_neq in H1, H2, H3. simpl. rewrite H1, H2, H3. simpl.
  assert (H0 : node_at fs cur = node_at fs' cur).
  { specialize (Ha O ltac:(lia)). simpl in Ha. rewrite app_nil_r in Ha. exact Ha. }
  unfold is_dir, exists_key. rewrite H0.
  destruct (node_at fs' cur) as [[x|]|]; try reflexivity.
  apply IH; [exact Hr|]. intros j Hj. rewrite <- app_assoc.
  exact (Ha (S j) ltac:(simpl; lia)).
Qed.

Lemma pathExists_reach : forall cwd fs K, Forall Inputs.component K ->
  pathExists cwd (abs_path K) fs = Done (reach fs K) fs [].
Proof. intros cwd fs K HK. unfold pathExists. rewrite locate_abs by exact HK. reflexivity. Qed.

Lemma reach_agree : forall fs fs' K, Forall Inputs.component K ->
  (forall j, (j <= length K)%nat -> node_at fs (firstn j K) = node_at fs' (firstn j K)) ->
  reach fs K = reach fs' K.
Proof.
  intros fs fs' K HK Ha. unfold reach.
  rewrite (walk_agree fs fs' K []) by (exact HK || exact Ha).
  destruct (walk fs' [] K) as [k| |] eqn:Hw; [|reflexivity|reflexivity].
  destruct (walk_components_at fs' K [] k HK Hw) as [-> _]. simpl.
  unfold exists_key. rewrite <- (firstn_all K). rewrite Ha by lia. reflexivity.
Qed.

Lemma frame_node_at : forall (P : Key -> Prop) fs fs' k,
  frame P fs fs' -> ~ P k -> node_at fs' k = node_at fs k.
Proof.
  intros P fs fs' [|x k] [_ H] Hk; [reflexivity|]. simpl. apply H, Hk.
Qed.

(** *** One node changed *)

Lemma writeFile_abs_frame : forall cwd K0 c, Forall Inputs.component K0 ->
  stays (frame (fun k => k = K0)) (writeFile cwd (abs_path K0) c).
Proof.
  intros cwd K0 c HK fs. unfold writeFile. rewrite locate_abs by exact HK.
  destruct (walk fs [] K0) as [k| |] eqn:Hw; try apply disk_frame_refl.
  destruct (walk_components_at fs K0 [] k HK Hw) as [Hk _]. simpl in Hk. subst k.
  destruct (node_at fs K0) as [[x|]|] eqn:En; try apply disk_frame_refl.
  all: split; [apply dirs_kept_set; congruence|].
  all: intros K HK'; rewrite lookup_set_node, key_eqb_false by congruence; reflexivity.
Qed.

Lemma rm_force_abs_frame : forall cwd K0, Forall Inputs.component K0 ->
  stays (frame (fun k => k = K0)) (rm_force cwd (abs_path K0)).
Proof.
  intros cwd K0 HK fs. unfold rm_force. rewrite locate_abs by exact HK.
  destruct (walk fs [] K0) as [k| |] eqn:Hw; try apply disk_frame_refl.
  destruct (walk_components_at fs K0 [] k HK Hw) as [Hk _]. simpl in Hk. subst k.
  destruct (node_at fs K0) as [[x|]|] eqn:En; try apply disk_frame_refl.
  split; [apply dirs_kept_remove; congruence|].
  intros K HK'. rewrite lookup_remove_node, key_eqb_false by congruence. reflexivity.
Qed.

Lemma removeIfExists_abs_frame : forall cwd K0, Forall Inputs.component K0 ->
  stays (frame (fun k => k = K0)) (removeIfExists cwd (abs_path K0)).
Proof.
  intros cwd K0 HK. unfold removeIfExists.
  apply stays_catch.
  - exact (disk_frame_trans _).
  - exact (rm_force_abs_frame cwd K0 HK).
  - intros e. apply stays_if; [apply stays_ret|apply stays_throw]; exact (disk_frame_refl _).
Qed.

Lemma pathExists_stays : forall (R : FS -> FS -> Prop) cwd p,
  (forall fs, R fs fs) -> stays R (pathExists cwd p).
Proof. intros R cwd p HR fs. apply HR. Qed.


(** *** Paths below a slot *)

Lemma str_length_app : forall s t, String.length (s ++ t)%string = (String.length s + String.length t)%nat.
Proof. induction s as [|a s IH]; intros t; simpl; [reflexivity|rewrite IH; reflexivity]. Qed.

Lemma component_suffix : forall m sfx, Inputs.component m ->
  Workspace.index_of "/" sfx = None -> (2 < String.length sfx)%nat ->
  Inputs.component (m ++ sfx)%string.
Proof.
  intros m sfx (Hm & _) Hs Hl. unfold Inputs.component, Inputs.no_char.
  rewrite WorkspaceFacts.index_of_app_none by assumption. split; [rewrite Hs; reflexivity|].
  split; [|split]; intros E; apply (f_equal String.length) in E;
    rewrite str_length_app in E; simpl in E; lia.
Qed.

Lemma workspace_file_abs : forall KT m, Forall Inputs.component KT -> Inputs.component m ->
  Provision.workspace_file (abs_path (KT ++ [m])) = (m ++ ".code-workspace")%string /\
  Inputs.component (m ++ ".code-workspace")%string.
Proof.
  intros KT m HKT Hm. unfold Provision.workspace_file. rewrite basename_abs by assumption.
  split; [reflexivity|]. apply component_suffix; [exact Hm|reflexivity|simpl; lia].
Qed.

Lemma component_wakeup : Inputs.component Pool.DEFAULT_WAKEUP_FILENAME.
Proof. split; [reflexivity|]. split; [|split]; discriminate. Qed.


Lemma join_abs2 : forall KT m x, Forall Inputs.component KT -> Inputs.component m ->
  Inputs.component x -> NodePath.join [abs_path (KT ++ [m]); x] = abs_path (KT ++ [m; x]).
Proof.
  intros KT m x HKT Hm Hx. rewrite join_abs.
  - rewrite <- app_assoc. reflexivity.
  - apply Forall_app. split; [exact HKT|constructor; [exact Hm|constructor]].
  - exact Hx.
Qed.

Lemma components_snoc2 : forall KT m x, Forall Inputs.component KT -> Inputs.component m ->
  Inputs.component x -> Forall Inputs.component (KT ++ [m; x]).
Proof.
  intros KT m x HKT Hm Hx. apply Forall_app. split; [exact HKT|repeat (constructor; try assumption)].
Qed.

Lemma slot_key_prefix : forall KT m n x j,
  m <> n -> ~ slot_keys KT m (firstn j (KT ++ [n; x])).
Proof.
  intros KT m n x j Hmn (y & Hy).
  assert (Hl : length (firstn j (KT ++ [n; x])) = length (KT ++ [m; y])) by (rewrite Hy; reflexivity).
  rewrite length_firstn, !length_app in Hl. simpl in Hl.
  assert (Hj : firstn j (KT ++ [n; x]) = (KT ++ [n; x])%list).
  { apply firstn_all2. rewrite length_app. simpl. lia. }
  rewrite Hj in Hy. apply app_inv_head in Hy. congruence.
Qed.

Lemma pathExists_lock_at : forall cwd lk fs p,
  pathExists cwd (NodePath.join [p; lk]) fs = Done (lock_at cwd lk fs p) fs [].
Proof. reflexivity. Qed.

Lemma lock_at_abs : forall cwd lk fs KT n, Forall Inputs.component KT -> Inputs.component n ->
  Inputs.component lk -> lock_at cwd lk fs (abs_path (KT ++ [n])) = reach fs (KT ++ [n; lk]).
Proof.
  intros cwd lk fs KT n HKT Hn Hlk. unfold lock_at. rewrite join_abs2 by assumption.
  rewrite pathExists_reach by (apply components_snoc2; assumption). reflexivity.
Qed.

(** Work inside the slot [m] leaves the lock of every other slot as it was. *)
Lemma lock_at_frame : forall cwd lk fs fs' KT m n,
  Forall Inputs.component KT -> Inputs.component n -> Inputs.component lk -> m <> n ->
  frame (slot_keys KT m) fs fs' ->
  lock_at cwd lk fs' (abs_path (KT ++ [n])) = lock_at cwd lk fs (abs_path (KT ++ [n])).
Proof.
  intros cwd lk fs fs' KT m n HKT Hn Hlk Hmn Hf. rewrite !lock_at_abs by assumption.
  symmetry. apply reach_agree; [apply components_snoc2; assumption|].
  intros j _. symmetry. apply (frame_node_at _ _ _ _ Hf). apply slot_key_prefix, Hmn.
Qed.

Lemma file_in_slot_frame : forall (op : M unit) KT m x,
  stays (frame (fun k => k = (KT ++ [m; x])%list)) op -> stays (frame (slot_keys KT m)) op.
Proof.
  intros op KT m x H. apply (stays_mono _ _ _ _ (fun a b => frame_mono _ _ a b (fun k Hk => ex_intro _ x Hk)) H).
Qed.

(** *** [mkdir -p] on an absolute path *)

Lemma mkdir_walk_adds : forall K fs cur fs' o, Forall Inputs.component K ->
  mkdir_walk fs cur K = Done tt fs' o ->
  o = [] /\ exists nw, fs' = (fs ++ nw)%list /\
    forall k n, In (k, n) nw -> exists j, (1 <= j <= length K)%nat /\ k = (cur ++ firstn j K)%list.
Proof.
  induction K as [|c r IH]; intros fs cur fs' o HK H; simpl in H.
  - injection H as <- <-. split; [reflexivity|]. exists []. rewrite app_nil_r. split; [reflexivity|intros ? ? []].
  - inversion HK as [|? ? Hc Hr]; subst. pose proof Hc as (_ & H1 & H2 & H3).
    apply String.eqb_neq in H1, H2, H3. rewrite H1, H2, H3 in H. simpl in H.
    destruct (is_dir fs cur); simpl in H; [|discriminate].
    destruct (node_at fs (cur ++ [c])%list) as [[x|]|] eqn:En; [discriminate| |].
    + destruct (IH _ _ _ _ Hr H) as (Ho & nw & Hfs & Hnw). split; [exact Ho|].
      exists nw. split; [exact Hfs|]. intros k n Hin. destruct (Hnw k n Hin) as (j & Hj & ->).
      exists (S j). split; [simpl; lia|]. rewrite <- app_assoc. reflexivity.
    + destruct (IH _ _ _ _ Hr H) as (Ho & nw & Hfs & Hnw). split; [exact Ho|].
      exists ((cur ++ [c], DirN) :: nw). split; [rewrite Hfs, <- app_assoc; reflexivity|].
      intros k n [Hk|Hin].
      * injection Hk as <- _. exists 1%nat. split; [simpl; lia|reflexivity].
      * destruct (Hnw k n Hin) as (j & Hj & ->).
        exists (S j). split; [simpl; lia|]. rewrite <- app_assoc. reflexivity.
Qed.

Lemma strip_some : forall k k' r, strip k k' = Some r -> k' = (k ++ r)%list.
Proof.
  induction k as [|x k IH]; intros [|y k'] r H; simpl in H; try discriminate.
  - injection H as <-. reflexivity.
  - injection H as <-. reflexivity.
  - destruct (String.eqb x y) eqn:E; [|discriminate]. apply String.eqb_eq in E. subst y.
    simpl. f_equal. apply IH, H.
Qed.

Lemma list_dir_app : forall fs1 fs2 k, list_dir (fs1 ++ fs2) k = (list_dir fs1 k ++ list_dir fs2 k)%list.
Proof. intros. unfold list_dir. apply flat_map_app. Qed.

Lemma list_dir_short : forall nw k,
  (forall k' n, In (k', n) nw -> (length k' <= length k)%nat) -> list_dir nw k = [].
Proof.
  induction nw as [|[k' n] r IH]; intros k H; [reflexivity|]. unfold list_dir. simpl.
  destruct (strip k k') as [[|c [|c' r']]|] eqn:Es; try (apply IH; intros; eapply H; right; eauto).
  apply strip_some in Es. specialize (H k' n (or_introl eq_refl)). subst k'.
  rewrite length_app in H. simpl in H. lia.
Qed.

Lemma dirs_kept_app : forall fs nw, dirs_kept fs (fs ++ nw)%list.
Proof.
  intros fs nw K HK. apply is_dir_node in HK. apply is_dir_node.
  destruct K as [|x K']; [reflexivity|]. simpl in *. rewrite lookup_app, HK. reflexivity.
Qed.

Lemma ensureDir_abs : forall cwd KT fs fs1 o, Forall Inputs.component KT ->
  ensureDir cwd (abs_path KT) fs = Done tt fs1 o ->
  o = [] /\ list_dir fs1 KT = list_dir fs KT /\ dirs_kept fs fs1.
Proof.
  intros cwd KT fs fs1 o HKT H. unfold ensureDir in H.
  change (String.eqb (abs_path KT) "") with false in H.
  change (NodePath.is_absolute (abs_path KT)) with true in H.
  rewrite split_abs_path in H by exact HKT. cbn [mkdir_walk] in H.
  change (negb (is_dir fs [])) with false in H. cbn [String.eqb orb] in H.
  assert (H' : mkdir_walk fs [] KT = Done tt fs1 o).
  { destruct KT; [exact H|exact H]. }
  destruct (mkdir_walk_adds KT fs [] fs1 o HKT H') as (-> & nw & -> & Hnw).
  split; [reflexivity|]. split; [|apply dirs_kept_app].
  rewrite list_dir_app, (list_dir_short nw), app_nil_r; [reflexivity|].
  intros k n Hin. destruct (Hnw k n Hin) as (j & Hj & ->). simpl. rewrite length_firstn. lia.
Qed.

(** *** Directory listings under [wf] *)

Lemma keys_distinct_NoDup : forall ks, keys_distinct ks = true -> NoDup ks.
Proof.
  induction ks as [|k r IH]; intros H; simpl in H; [constructor|].
  apply andb_true_iff in H as [H1 H2]. constructor; [|apply IH, H2].
  intros Hin. apply negb_true_iff in H1. apply not_true_iff_false in H1. apply H1.
  apply existsb_exists. exists k. split; [exact Hin|apply key_eqb_refl].
Qed.

Lemma list_dir_in : forall fs KT c n, In (c, n) (list_dir fs KT) -> In (KT ++ [c], n) fs.
Proof.
  induction fs as [|[k n'] r IH]; intros KT c n H; [destruct H|].
  unfold list_dir in H. simpl in H. apply in_app_iff in H as [H|H].
  - destruct (strip KT k) as [[|c' [|? ?]]|] eqn:Es; simpl in H; try contradiction.
    destruct H as [H|[]]. injection H as <- <-. apply strip_some in Es. subst k. now left.
  - right. apply IH, H.
Qed.

Lemma list_dir_nodup : forall fs KT, NoDup (map fst fs) -> NoDup (map fst (list_dir fs KT)).
Proof.
  induction fs as [|[k n] r IH]; intros KT H; [constructor|].
  simpl in H. inversion H as [|? ? Hk Hr]; subst.
  unfold list_dir. simpl. fold (list_dir r KT).
  destruct (strip KT k) as [[|c [|? ?]]|] eqn:Es; try (apply IH, Hr).
  simpl. constructor; [|apply IH, Hr].
  intros Hin. apply in_map_iff in Hin as ([c' n'] & Hc & Hin). simpl in Hc. subst c'.
  apply list_dir_in in Hin. apply strip_some in Es. subst k.
  apply Hk. apply in_map_iff. exists (KT ++ [c], n'). auto.
Qed.

Lemma wf_list_dir_names : forall fs KT, wf fs = true ->
  NoDup (map fst (list_dir fs KT)) /\ Forall Inputs.component (map fst (list_dir fs KT)).
Proof.
  intros fs KT Hwf. split.
  - apply list_dir_nodup. unfold wf in Hwf. apply andb_true_iff in Hwf as [H _].
    apply keys_distinct_NoDup, H.
  - apply Forall_forall. intros c Hc. apply in_map_iff in Hc as ([c' n] & Hc & Hin).
    simpl in Hc. subst c'. apply list_dir_in in Hin.
    destruct (wf_entry fs _ _ Hwf Hin) as (_ & Hk & _).
    apply Forall_app in Hk as [_ Hk]. inversion Hk; assumption.
Qed.

Lemma wf_list_dir_root : forall fs KT, wf fs = true -> Forall Inputs.component KT ->
  list_dir fs KT <> [] -> walk fs [] KT = At KT /\ node_at fs KT = Some DirN.
Proof.
  intros fs KT Hwf HKT Hne.
  destruct (list_dir fs KT) as [|[c n] l] eqn:El; [congruence|].
  assert (Hin : In (c, n) (list_dir fs KT)) by (rewrite El; now left).
  apply list_dir_in in Hin.
  destruct (wf_entry fs _ _ Hwf Hin) as (_ & _ & Hd). rewrite removelast_last in Hd.
  apply is_dir_node in Hd as Hd'. split; [|exact Hd'].
  apply walk_components_ok; [exact HKT|]. apply wf_dirs_along; [exact Hwf|].
  unfold exists_key. rewrite Hd'. reflexivity.
Qed.

Lemma readDirEntries_abs_inv : forall cwd KT fs es fs' o, Forall Inputs.component KT ->
  readDirEntries cwd (abs_path KT) fs = Done es fs' o ->
  fs' = fs /\ o = [] /\ es = listing_entries (abs_path KT) (list_dir fs KT).
Proof.
  intros cwd KT fs es fs' o HKT H. unfold readDirEntries, readdir_types, bind in H.
  rewrite locate_abs in H by exact HKT.
  destruct (walk fs [] KT) as [k| |] eqn:Hw; try discriminate.
  destruct (walk_components_at fs KT [] k HKT Hw) as [Hk _]. simpl in Hk. subst k.
  destruct (node_at fs KT) as [[x|]|]; try discriminate.
  simpl in H. injection H as <- <- <-. auto.
Qed.

Lemma readDirEntries_abs_ok : forall cwd KT fs, Forall Inputs.component KT ->
  walk fs [] KT = At KT -> node_at fs KT = Some DirN ->
  readDirEntries cwd (abs_path KT) fs = Done (listing_entries (abs_path KT) (list_dir fs KT)) fs [].
Proof.
  intros cwd KT fs HKT Hw Hd. unfold readDirEntries, readdir_types, bind.
  rewrite locate_abs, Hw, Hd by exact HKT. reflexivity.
Qed.

Lemma listing_entries_abs : forall KT l e, Forall Inputs.component KT ->
  Forall Inputs.component (map fst l) -> In e (listing_entries (abs_path KT) l) ->
  Inputs.component (Pool.de_name e) /\ Pool.absolutePath e = abs_path (KT ++ [Pool.de_name e]).
Proof.
  intros KT l e HKT Hl He. unfold listing_entries in He.
  apply in_map_iff in He as ([c n] & <- & Hin). simpl.
  assert (Hc : Inputs.component c).
  { rewrite Forall_forall in Hl. apply Hl. apply in_map_iff. exists (c, n). auto. }
  split; [exact Hc|]. apply join_abs; assumption.
Qed.

End DiskOps.

Module DiskProvisionFacts.
Import Inputs Provision ProvisionFacts Disk DiskFacts DiskRelations DiskReadings DiskPaths DiskOps DiskProvision.

Lemma disk_ret_inv : forall {A} (a : A) fs b fs1 o, ret a fs = Done b fs1 o -> b = a /\ fs1 = fs /\ o = [].
Proof. intros A a fs b fs1 o H. unfold ret in H. injection H as <- <- <-. auto. Qed.

Lemma stays_done : forall (R : FS -> FS -> Prop) A (m : M A) fs a fs' o,
  stays R m -> m fs = Done a fs' o -> R fs fs'.
Proof. intros R A m fs a fs' o H E. specialize (H fs). rewrite E in H. exact H. Qed.

Section Slot.
Variable cwd : string.
Variable o : ProvisionOptions.
Variable KT : Key.
Hypothesis HKT : Forall component KT.

Lemma disk_write_templates_frame : forall m, component m ->
  stays (frame (slot_keys KT m)) (write_templates cwd o (abs_path (KT ++ [m]))).
Proof.
  intros m Hm. unfold write_templates.
  destruct (workspace_file_abs KT m HKT Hm) as (-> & Hw).
  rewrite !join_abs2 by (exact HKT || exact Hm || exact Hw || exact component_wakeup).
  apply stays_bind; [exact (disk_frame_trans _)| |intros _].
  - eapply file_in_slot_frame, writeFile_abs_frame, components_snoc2; eassumption.
  - eapply file_in_slot_frame, writeFile_abs_frame, components_snoc2;
      [eassumption|eassumption|exact component_wakeup].
Qed.

Lemma lock_remove_frame : forall m, component m -> component (lockName o) ->
  stays (frame (slot_keys KT m))
    (removeIfExists cwd (NodePath.join [abs_path (KT ++ [m]); lockName o])).
Proof.
  intros m Hm Hl. rewrite join_abs2 by assumption.
  eapply file_in_slot_frame, removeIfExists_abs_frame, components_snoc2; eassumption.
Qed.

Ltac split_done H :=
  apply bind_Done_inv in H as (?a & ?fs & ?o1 & ?o2 & ?He & H & ?Ho).

(** What the loop over the existing slots adds to the state. *)
Lemma disk_existing_loop_spec : forall ex st fs st' fs' out,
  existing_loop cwd o ex st fs = Done st' fs' out ->
  component (lockName o) ->
  (forall k p, In (k, p) ex -> exists m, component m /\ p = abs_path (KT ++ [m])) ->
  NoDup (map snd ex) ->
  (forall k p, In (k, p) ex -> (In p (ls_locked st) <-> lock_at cwd (lockName o) fs p = true)) ->
  count_inv (subagents o) (length (ls_created st) + length (ls_skippedExisting st))
    (ls_provisioned st) ->
  exists cr sk,
    ls_created st' = (ls_created st ++ cr)%list /\
    ls_skippedExisting st' = (ls_skippedExisting st ++ sk)%list /\
    incl (cr ++ sk) (map snd ex) /\ NoDup (cr ++ sk) /\
    (force o = true -> sk = []) /\ (force o = false -> cr = []) /\
    incl (ls_locked st') (ls_locked st) /\
    (forall x, In x cr -> ~ In x (ls_locked st')) /\
    count_inv (subagents o) (length (ls_created st') + length (ls_skippedExisting st'))
      (ls_provisioned st').
Proof.
  intros ex. induction ex as [|[k p] rest IH]; intros st fs st' fs' out H Hlk Hsl Hnd Hl Hc.
  - simpl in H. apply disk_ret_inv in H as (-> & _).
    exists [], []. rewrite !app_nil_r.
    split; [reflexivity|]. split; [reflexivity|]. split; [intros ? []|].
    split; [constructor|]. split; [reflexivity|]. split; [reflexivity|].
    split; [intros ? ?; assumption|]. split; [intros ? []|exact Hc].
  - cbn [existing_loop] in H. simpl in Hnd. inversion Hnd as [|? ? Hp Hnd']; subst.
    assert (Hsl' : forall k p, In (k, p) rest -> exists m, component m /\ p = abs_path (KT ++ [m]))
      by (intros k' q Hq; apply (Hsl k' q); right; exact Hq).
    destruct (Hsl k p (or_introl eq_refl)) as (m & Hm & Hpm).
    destruct (subagents o <=? ls_provisioned st) eqn:Es.
    { apply disk_ret_inv in H as (-> & _).
      exists [], []. rewrite !app_nil_r.
      split; [reflexivity|]. split; [reflexivity|]. split; [intros ? []|].
      split; [constructor|]. split; [reflexivity|]. split; [reflexivity|].
      split; [intros ? ?; assumption|]. split; [intros ? []|exact Hc]. }
    apply Z.leb_gt in Es.
    split_done H. rewrite pathExists_lock_at in He. injection He as <- <- <-.
    assert (Hlp := Hl k p (or_introl eq_refl)).
    assert (Hrest : forall fs1 L, frame (slot_keys KT m) fs fs1 ->
              (forall q, p <> q -> (In q L <-> In q (ls_locked st))) ->
              forall k' q, In (k', q) rest -> (In q L <-> lock_at cwd (lockName o) fs1 q = true)).
    { intros fs2 L Hf HL k' q Hq.
      assert (Hpq : p <> q) by (intros <-; apply Hp; apply in_map_iff; exists (k', p); auto).
      destruct (Hsl' k' q Hq) as (n & Hn & Hqn).
      rewrite HL by exact Hpq. subst q.
      rewrite (lock_at_frame cwd (lockName o) fs fs2 KT m n HKT Hn Hlk) by
        (exact Hf || (intros <-; apply Hpq; rewrite Hpm; reflexivity)).
      apply (Hl k' (abs_path (KT ++ [n]))). right. exact Hq. }
    destruct (lock_at cwd (lockName o) fs p) eqn:El, (force o) eqn:Ef; cbn [andb negb] in H.
    + (* locked, force *)
      split_done H.
      assert (Hf : frame (slot_keys KT m) fs fs0).
      { refine (stays_done _ _ _ _ _ _ _ _ He).
        destruct (dryRun o); [apply stays_ret; exact (disk_frame_refl _)|].
        apply stays_bind; [exact (disk_frame_trans _)|rewrite Hpm; apply lock_remove_frame; assumption|].
        intros _; rewrite Hpm; apply disk_write_templates_frame, Hm. }
      assert (HL : forall q, p <> q -> (In q (Pool.set_delete p (ls_locked st)) <-> In q (ls_locked st))).
      { intros q Hq. rewrite In_set_delete. split; [intros [H1 _]; exact H1|].
        intros H1. split; [exact H1|intros ->; apply Hq; reflexivity]. }
      destruct (IH _ _ _ _ _ H Hlk Hsl' Hnd' (Hrest fs0 _ Hf HL))
        as (cr & sk & Hcr & Hsk & Hi & Hn & Hf1 & Hf2 & Hlk' & Hx & Hc').
      { cbn [ls_created ls_skippedExisting ls_provisioned]. rewrite length_app. cbn [length].
        replace (length (ls_created st) + 1 + length (ls_skippedExisting st))%nat
          with (S (length (ls_created st) + length (ls_skippedExisting st))) by lia.
        apply count_inv_step; assumption. }
      exists (p :: cr), sk. cbn [ls_created ls_skippedExisting ls_locked] in *.
      split; [rewrite Hcr, <- app_assoc; reflexivity|].
      split; [exact Hsk|].
      split; [intros x [<-|Hx']; [left; reflexivity|right; apply Hi, Hx']|].
      split; [constructor; [intros Hin; apply Hp; apply Hi, Hin|exact Hn]|].
      split; [exact Hf1|]. split; [discriminate|].
      split; [intros x Hx'; apply Hlk' in Hx'; apply In_set_delete in Hx'; tauto|].
      split; [|exact Hc'].
      intros x [<-|Hx'] Hin; [|exact (Hx x Hx' Hin)].
      apply Hlk' in Hin. apply In_set_delete in Hin. tauto.
    + (* locked, no force *)
      destruct (IH _ _ _ _ _ H Hlk Hsl' Hnd' (Hrest fs _ (disk_frame_refl _ _) (fun q _ => iff_refl _)) Hc)
        as (cr & sk & Hcr & Hsk & Hi & Hn & Hf1 & Hf2 & Hlk' & Hx & Hc').
      exists cr, sk. split; [exact Hcr|]. split; [exact Hsk|].
      split; [intros x Hx'; right; apply Hi, Hx'|]. split; [exact Hn|].
      split; [exact Hf1|]. split; [exact Hf2|]. split; [exact Hlk'|].
      split; [exact Hx|exact Hc'].
    + (* unlocked, force *)
      split_done H.
      assert (Hf : frame (slot_keys KT m) fs fs0).
      { refine (stays_done _ _ _ _ _ _ _ _ He).
        destruct (dryRun o); [apply stays_ret; exact (disk_frame_refl _)|].
        rewrite Hpm; apply disk_write_templates_frame, Hm. }
      destruct (IH _ _ _ _ _ H Hlk Hsl' Hnd' (Hrest fs0 _ Hf (fun q _ => iff_refl _)))
        as (cr & sk & Hcr & Hsk & Hi & Hn & Hf1 & Hf2 & Hlk' & Hx & Hc').
      { cbn [ls_created ls_skippedExisting ls_provisioned]. rewrite length_app. cbn [length].
        replace (length (ls_created st) + 1 + length (ls_skippedExisting st))%nat
          with (S (length (ls_created st) + length (ls_skippedExisting st))) by lia.
        apply count_inv_step; assumption. }
      exists (p :: cr), sk. cbn [ls_created ls_skippedExisting ls_locked] in *.
      split; [rewrite Hcr, <- app_assoc; reflexivity|].
      split; [exact Hsk|].
      split; [intros x [<-|Hx']; [left; reflexivity|right; apply Hi, Hx']|].
      split; [constructor; [intros Hin; apply Hp; apply Hi, Hin|exact Hn]|].
      split; [exact Hf1|]. split; [discriminate|].
      split; [exact Hlk'|].
      split; [|exact Hc'].
      intros x [<-|Hx'] Hin; [|exact (Hx x Hx' Hin)].
      apply Hlk', Hlp in Hin. discriminate Hin.
    + (* unlocked, no force *)
      split_done H.
      assert (Hf : frame (slot_keys KT m) fs fs0).
      { refine (stays_done _ _ _ _ _ _ _ _ He).
        destruct (dryRun o); [apply stays_ret; exact (disk_frame_refl _)|].
        apply stays_bind; [exact (disk_frame_trans _)|apply pathExists_stays; exact (disk_frame_refl _)|].
        intros b; apply stays_if; [apply stays_ret; exact (disk_frame_refl _)|].
        rewrite Hpm; apply disk_write_templates_frame, Hm. }
      destruct (IH _ _ _ _ _ H Hlk Hsl' Hnd' (Hrest fs0 _ Hf (fun q _ => iff_refl _)))
        as (cr & sk & Hcr & Hsk & Hi & Hn & Hf1 & Hf2 & Hlk' & Hx & Hc').
      { cbn [ls_created ls_skippedExisting ls_provisioned]. rewrite length_app. cbn [length].
        replace (length (ls_created st) + (length (ls_skippedExisting st) + 1))%nat
          with (S (length (ls_created st) + length (ls_skippedExisting st))) by lia.
        apply count_inv_step; assumption. }
      exists cr, (p :: sk). cbn [ls_created ls_skippedExisting ls_locked] in *.
      assert (Hcr0 : cr = []) by (apply Hf2; reflexivity). subst cr.
      split; [rewrite Hcr; reflexivity|].
      split; [rewrite Hsk, <- app_assoc; reflexivity|].
      split; [intros x [<-|Hx']; [left; reflexivity|right; apply Hi, Hx']|].
      split; [constructor; [intros Hin; apply Hp; apply Hi, Hin|exact Hn]|].
      split; [discriminate|]. split; [reflexivity|].
      split; [exact Hlk'|]. split; [intros x []|exact Hc'].
Qed.

End Slot.

Section Scan.
Variable cwd : string.
Variable o : ProvisionOptions.

Lemma disk_scan_spec : forall des h L ex fs, exists h' L',
  scan cwd o des h L ex fs = Done (h', L', (ex ++ flat_map cand_of des)%list) fs [] /\
  h <= h' /\
  (forall k p, In (k, p) (flat_map cand_of des) -> k <= h') /\
  (h' = h \/ exists p, In (h', p) (flat_map cand_of des)) /\
  (forall x, In x L' <-> In x L \/
             exists k, In (k, x) (flat_map cand_of des) /\ lock_at cwd (lockName o) fs x = true).
Proof.
  intros des. induction des as [|entry rest IH]; intros h L ex fs.
  - exists h, L. cbn [scan flat_map]. rewrite app_nil_r.
    split; [reflexivity|]. split; [lia|]. split; [intros ? ? []|].
    split; [left; reflexivity|].
    intros x. split; [auto|]. intros [Hx|(k & [] & _)]. exact Hx.
  - cbn [scan flat_map].
    destruct (Pool.de_isDirectory entry && Pool.is_slot_name (Pool.de_name entry)) eqn:Eds.
    2: { assert (Hc : cand_of entry = []) by (unfold cand_of; rewrite Eds; reflexivity).
         rewrite Hc. cbn [app].
         replace (negb (Pool.de_isDirectory entry) || negb (Pool.is_slot_name (Pool.de_name entry)))
           with true by (rewrite <- negb_andb, Eds; reflexivity).
         apply IH. }
    replace (negb (Pool.de_isDirectory entry) || negb (Pool.is_slot_name (Pool.de_name entry)))
      with false by (rewrite <- negb_andb, Eds; reflexivity).
    destruct (Pool.slot_number (Pool.de_name entry)) as [parsed|] eqn:Ep.
    2: { assert (Hc : cand_of entry = []) by (unfold cand_of; rewrite Eds, Ep; reflexivity).
         rewrite Hc. cbn [app]. apply IH. }
    assert (Hc : cand_of entry = [(parsed, Pool.absolutePath entry)])
      by (unfold cand_of; rewrite Eds, Ep; reflexivity).
    rewrite Hc. cbn [app].
    rewrite (bind_Done _ _ _ _ _ _ _ _ (pathExists_lock_at _ _ _ _)), prepend_nil.
    set (lk := lock_at cwd (lockName o) fs (Pool.absolutePath entry)).
    destruct (IH (Z.max h parsed) (if lk then Pool.set_add (Pool.absolutePath entry) L else L)
                 (ex ++ [(parsed, Pool.absolutePath entry)])%list fs)
      as (h' & L' & Hs & Hh & Hk & Hw & HL).
    exists h', L'. split; [rewrite Hs, <- app_assoc; reflexivity|].
    split; [lia|].
    split; [intros k p [Hkp|Hkp]; [injection Hkp as <- _; lia|exact (Hk k p Hkp)]|].
    split.
    { destruct Hw as [Hw|(p & Hp)]; [|right; exists p; right; exact Hp].
      destruct (Z.max_spec h parsed) as [(_ & Hm)|(_ & Hm)]; rewrite Hm in Hw.
      - right. exists (Pool.absolutePath entry). left. rewrite Hw. reflexivity.
      - left. exact Hw. }
    intros x. rewrite HL. destruct lk eqn:El.
    + rewrite In_set_add. split.
      * intros [[->|Hx]|(k & Hk' & Hl)]; [|left; exact Hx|].
        -- right. exists parsed. split; [left; reflexivity|exact El].
        -- right. exists k. split; [right; exact Hk'|exact Hl].
      * intros [Hx|(k & [Hk'|Hk'] & Hl)]; [left; right; exact Hx| |].
        -- injection Hk' as _ ->. left. left. reflexivity.
        -- right. exists k. split; [exact Hk'|exact Hl].
    + split.
      * intros [Hx|(k & Hk' & Hl)]; [left; exact Hx|].
        right. exists k. split; [right; exact Hk'|exact Hl].
      * intros [Hx|(k & [Hk'|Hk'] & Hl)]; [left; exact Hx| |].
        -- injection Hk' as _ <-. unfold lk in El. congruence.
        -- right. exists k. split; [exact Hk'|exact Hl].
Qed.

Lemma disk_new_loop_spec : forall tp h fuel idx st fs st' fs' out,
  new_loop cwd o tp fuel idx st fs = Done st' fs' out ->
  0 <= h < 2 ^ 53 -> h <= idx <= 2 ^ 53 ->
  exists nw, ls_created st' = (ls_created st ++ nw)%list /\
    ls_skippedExisting st' = ls_skippedExisting st /\
    ls_locked st' = ls_locked st /\
    (forall x, In x nw -> exists j, h < j <= 2 ^ 53 /\ x = NodePath.join [tp; slot_name j]) /\
    (count_inv (subagents o) (length (ls_created st) + length (ls_skippedExisting st))
       (ls_provisioned st) ->
     count_inv (subagents o) (length (ls_created st') + length (ls_skippedExisting st'))
       (ls_provisioned st')) /\
    subagents o <= ls_provisioned st'.
Proof.
  intros tp h fuel. induction fuel as [|f IH]; intros idx st fs st' fs' out H Hh Hi;
    cbn [new_loop] in H; destruct (ls_provisioned st <? subagents o) eqn:E.
  1: discriminate H.
  1, 3: apply disk_ret_inv in H as (-> & _); apply Z.ltb_ge in E;
        exists []; rewrite app_nil_r; split; [reflexivity|]; split; [reflexivity|];
        split; [reflexivity|]; split; [intros ? []|]; split; [intros Hc0; exact Hc0|exact E].
  cbv zeta in H. apply bind_Done_inv in H as ([] & fs1 & o1 & o2 & _ & H & _).
  apply Z.ltb_lt in E.
  assert (Hi' : h <= JsNumber.add1 idx <= 2 ^ 53)
    by (rewrite NumFacts.add1_sat by lia; lia).
  destruct (IH _ _ _ _ _ _ H Hh Hi') as (nw & Hcr & Hsk & Hlk & Hnw & Hc & Hend).
  cbn [ls_created ls_skippedExisting ls_locked ls_provisioned] in *.
  exists (NodePath.join [tp; "subagent-" ++ JsNumber.toString (JsNumber.add1 idx)] :: nw).
  split; [rewrite Hcr, <- app_assoc; reflexivity|].
  split; [exact Hsk|]. split; [exact Hlk|].
  split.
  { intros x [<-|Hx]; [|exact (Hnw x Hx)].
    exists (JsNumber.add1 idx).
    rewrite NumFacts.add1_sat by lia.
    split; [lia|]. rewrite NumFacts.toString_decimal by lia. reflexivity. }
  split; [|exact Hend].
  intros Hc0. apply Hc. rewrite length_app. cbn [length].
  replace (length (ls_created st) + 1 + length (ls_skippedExisting st))%nat
    with (S (length (ls_created st) + length (ls_skippedExisting st))) by lia.
  apply count_inv_step; assumption.
Qed.

End Scan.

Lemma cand_in_entry : forall des k p, In (k, p) (flat_map cand_of des) ->
  exists e, In e des /\ p = Pool.absolutePath e /\ Pool.slot_number (Pool.de_name e) = Some k.
Proof.
  intros des k p H. apply in_flat_map in H as (e & He & Hin). exists e. split; [exact He|].
  unfold cand_of in Hin.
  destruct (Pool.de_isDirectory e && Pool.is_slot_name (Pool.de_name e)); [|destruct Hin].
  destruct (Pool.slot_number (Pool.de_name e)) eqn:En; [|destruct Hin].
  destruct Hin as [Hin|[]]. injection Hin as <- <-. auto.
Qed.

(** The candidates of a listing of [KT] with distinct proper names. *)
Lemma listing_cands : forall KT l k p, Forall component KT -> Forall component (map fst l) ->
  In (k, p) (flat_map cand_of (listing_entries (abs_path KT) l)) ->
  exists m, component m /\ Pool.slot_number m = Some k /\ p = abs_path (KT ++ [m]).
Proof.
  intros KT l k p HKT Hl H. apply cand_in_entry in H as (e & He & -> & Hk).
  destruct (listing_entries_abs KT l e HKT Hl He) as (Hc & Hp).
  exists (Pool.de_name e). auto.
Qed.

Lemma listing_cands_nodup : forall KT l, Forall component KT ->
  Forall component (map fst l) -> NoDup (map fst l) ->
  NoDup (map snd (flat_map cand_of (listing_entries (abs_path KT) l))).
Proof.
  intros KT l HKT. induction l as [|[c n] l IH]; intros Hl Hn; [constructor|].
  simpl in Hl, Hn. inversion Hl as [|? ? Hc Hl']; subst. inversion Hn as [|? ? Hcn Hn']; subst.
  unfold listing_entries. simpl. fold (listing_entries (abs_path KT) l).
  unfold cand_of at 1. simpl.
  destruct (match n with DirN => true | FileN _ => false end && Pool.is_slot_name c); [|apply IH; assumption].
  destruct (Pool.slot_number c); [|apply IH; assumption].
  simpl. constructor; [|apply IH; assumption].
  intros Hin. apply in_map_iff in Hin as ([k p] & Hp & Hin). simpl in Hp. subst p.
  apply cand_in_entry in Hin as (e & He & Hpe & _).
  destruct (listing_entries_abs KT l e HKT Hl' He) as (He1 & He2).
  rewrite join_abs in Hpe by assumption. rewrite He2 in Hpe.
  apply (f_equal NodePath.basename) in Hpe. rewrite !basename_abs in Hpe by assumption.
  apply Hcn. rewrite Hpe. unfold listing_entries in He.
  apply in_map_iff in He as ([c' n'] & <- & Hin'). simpl.
  apply in_map_iff. exists (c', n'). auto.
Qed.

End DiskProvisionFacts.

Module DiskUnlockFacts.
Import Inputs Disk DiskFacts DiskRelations DiskReadings DiskPaths DiskOps DiskSlots DiskUnlockReadings.

Lemma abs_path_inj : forall K K', Forall component K -> Forall component K' ->
  abs_path K = abs_path K' -> K = K'.
Proof.
  intros K K' HK HK' H. apply (f_equal (NodePath.split_on "/")) in H.
  rewrite !split_abs_path in H by assumption. injection H as H.
  destruct K as [|a K], K' as [|b K']; try reflexivity; try exact H.
  - injection H as <- _. inversion HK' as [|? ? (_ & Hb & _)]. congruence.
  - injection H as -> _. inversion HK as [|? ? (_ & Hb & _)]. congruence.
Qed.

Lemma exists_at_locate : forall cwd p fs, exists_at cwd p fs = true ->
  exists K n, locate cwd fs p = At K /\ node_at fs K = Some n.
Proof.
  intros cwd p fs H. unfold exists_at, pathExists in H.
  destruct (locate cwd fs p) as [K| |]; try discriminate.
  unfold exists_key in H. destruct (node_at fs K) as [n|] eqn:Hn; [|discriminate]. eauto.
Qed.

Lemma removeIfExists_present : forall cwd p fs K n,
  locate cwd fs p = At K -> node_at fs K = Some n ->
  removeIfExists cwd p fs = match n with
                            | DirN => Thrown "ERR_FS_EISDIR" fs []
                            | FileN _ => Done tt (remove_node fs K) []
                            end.
Proof.
  intros cwd p fs K n Hl Hn. unfold removeIfExists, catch, rm_force.
  rewrite Hl, Hn. destruct n; reflexivity.
Qed.

Lemma reach_removed : forall fs K, Forall component K -> K <> [] ->
  lookup fs K = None -> reach fs K = false.
Proof.
  intros fs K HK Hne Hl. unfold reach.
  destruct (walk fs [] K) as [k| |] eqn:Hw; [|reflexivity|reflexivity].
  destruct (walk_components_at fs K [] k HK Hw) as [-> _]. simpl.
  unfold exists_key, node_at. destruct K; [contradiction|]. rewrite Hl. reflexivity.
Qed.

Lemma unlock_loop_dry : forall cwd lk cands acc fs,
  unlock_loop cwd lk true cands acc fs
  = Done (acc ++ map snd (filter (fun c => lock_at cwd lk fs (snd c)) cands))%list fs [].
Proof.
  intros cwd lk cands. induction cands as [|[k p] r IH]; intros acc fs.
  - simpl. rewrite app_nil_r. reflexivity.
  - cbn [unlock_loop]. unfold bind at 1. rewrite pathExists_lock_at. cbn [prepend app filter snd].
    destruct (lock_at cwd lk fs p).
    + unfold bind, ret. rewrite IH. cbn [prepend app map]. rewrite <- app_assoc. reflexivity.
    + rewrite IH. reflexivity.
Qed.

Lemma unlock_loop_cons : forall cwd lk dry k p r acc fs,
  unlock_loop cwd lk dry ((k, p) :: r) acc fs =
  if lock_at cwd lk fs p
  then match (if dry then ret tt else removeIfExists cwd (NodePath.join [p; lk])) fs with
       | Done _ fs1 o => prepend o (unlock_loop cwd lk dry r (acc ++ [p])%list fs1)
       | Thrown e fs1 o => Thrown e fs1 o
       | Diverges => Diverges
       end
  else unlock_loop cwd lk dry r acc fs.
Proof.
  intros cwd lk dry k p r acc fs. cbn [unlock_loop]. unfold bind at 1.
  rewrite pathExists_lock_at. destruct (lock_at cwd lk fs p); rewrite prepend_nil; reflexivity.
Qed.

Section NonDry.
Variable cwd : string.
Variable lk : string.
Variable KT : Key.
Hypothesis HKT : Forall component KT.
Hypothesis Hlk : component lk.

Lemma is_dir_at_frame : forall fs fs' m n, component n -> m <> n ->
  frame (slot_keys KT m) fs fs' ->
  is_dir_at cwd (abs_path (KT ++ [n; lk])) fs' = is_dir_at cwd (abs_path (KT ++ [n; lk])) fs.
Proof.
  intros fs fs' m n Hn Hmn Hf. unfold is_dir_at.
  assert (HK : Forall component (KT ++ [n; lk])) by (apply components_snoc2; assumption).
  rewrite !locate_abs by exact HK.
  assert (Ha : forall j, (j <= length (KT ++ [n; lk]))%nat ->
            node_at fs ([] ++ firstn j (KT ++ [n; lk]))%list
            = node_at fs' ([] ++ firstn j (KT ++ [n; lk]))%list).
  { intros j _. symmetry. apply (frame_node_at _ _ _ _ Hf). apply slot_key_prefix, Hmn. }
  rewrite (walk_agree fs fs' _ [] HK Ha).
  destruct (walk fs' [] (KT ++ [n; lk])) as [k| |] eqn:Hw; [|reflexivity|reflexivity].
  destruct (walk_components_at fs' _ [] k HK Hw) as [-> _].
  unfold is_dir. specialize (Ha (length (KT ++ [n; lk])) (le_n _)).
  rewrite firstn_all in Ha. cbn [app] in Ha |- *. rewrite Ha. reflexivity.
Qed.

Lemma unlock_loop_nondry : forall cands acc fs,
  (forall k p, In (k, p) cands -> exists m, component m /\ p = abs_path (KT ++ [m])) ->
  NoDup (map snd cands) ->
  let L := map snd (filter (fun c => lock_at cwd lk fs (snd c)) cands) in
  (exists fs', unlock_loop cwd lk false cands acc fs = Done (acc ++ L)%list fs' [] /\
     (forall p, In p L -> lock_at cwd lk fs' p = false) /\
     (forall K, (forall p, In p L -> abs_path K <> NodePath.join [p; lk]) ->
                lookup fs' K = lookup fs K) /\
     (forall p, In p L -> is_dir_at cwd (NodePath.join [p; lk]) fs = false))
  \/ (exists fs', unlock_loop cwd lk false cands acc fs = Thrown "ERR_FS_EISDIR" fs' [] /\
      exists p, In p L /\ is_dir_at cwd (NodePath.join [p; lk]) fs = true).
Proof.
  intros cands. induction cands as [|[k p] r IH]; intros acc fs Hsl Hnd L; subst L.
  - left. exists fs. cbn. rewrite app_nil_r.
    split; [reflexivity|]. split; [intros ? []|]. split; [reflexivity|intros ? []].
  - destruct (Hsl k p (or_introl eq_refl)) as (m & Hm & ->).
    assert (Hsl' : forall k' p', In (k', p') r -> exists m', component m' /\ p' = abs_path (KT ++ [m'])).
    { intros k' p' Hin. exact (Hsl k' p' (or_intror Hin)). }
    cbn [map] in Hnd. inversion Hnd as [|? ? Hnin Hnd']; subst.
    (* the other slots are named differently *)
    assert (Hne : forall k' p', In (k', p') r -> exists m', component m' /\ m <> m' /\
                    p' = abs_path (KT ++ [m'])).
    { intros k' p' Hin. destruct (Hsl' k' p' Hin) as (m' & Hm' & ->).
      exists m'. split; [exact Hm'|]. split; [|reflexivity].
      intros <-. apply Hnin. apply in_map_iff. exists (k', abs_path (KT ++ [m])). auto. }
    set (K0 := (KT ++ [m; lk])%list).
    assert (HK0 : Forall component K0) by (apply components_snoc2; assumption).
    assert (Hj0 : NodePath.join [abs_path (KT ++ [m]); lk] = abs_path K0) by (apply join_abs2; assumption).
    rewrite unlock_loop_cons. cbn [filter snd].
    destruct (lock_at cwd lk fs (abs_path (KT ++ [m]))) eqn:El.
    + (* the marker is there *)
      rewrite lock_at_abs in El by assumption. fold K0 in El.
      unfold reach in El. destruct (walk fs [] K0) as [k'| |] eqn:Hw; try discriminate.
      destruct (walk_components_at fs K0 [] k' HK0 Hw) as [Hk' _]. cbn [app] in Hk'. subst k'.
      unfold exists_key in El. destruct (node_at fs K0) as [n|] eqn:Hn; [|discriminate].
      assert (Hloc : locate cwd fs (NodePath.join [abs_path (KT ++ [m]); lk]) = At K0)
        by (rewrite Hj0, locate_abs by exact HK0; exact Hw).
      cbv beta iota. rewrite (removeIfExists_present _ _ _ _ _ Hloc Hn). cbv beta iota.
      destruct n as [c|].
      * set (fs1 := remove_node fs K0).
        assert (Hf : frame (fun k => k = K0) fs fs1).
        { pose proof (removeIfExists_abs_frame cwd K0 HK0 fs) as Hs.
          rewrite <- Hj0, (removeIfExists_present _ _ _ _ _ Hloc Hn) in Hs. exact Hs. }
        assert (Hfm : frame (slot_keys KT m) fs fs1)
          by (apply (frame_mono _ _ _ _ (fun k0 (Hk0 : k0 = K0) => ex_intro (fun x => k0 = (KT ++ [m; x])%list) lk Hk0) Hf)).
        assert (Hfl : filter (fun c0 => lock_at cwd lk fs1 (snd c0)) r
                      = filter (fun c0 => lock_at cwd lk fs (snd c0)) r).
        { apply filter_ext_in. intros [k' p'] Hin. cbn [snd].
          destruct (Hne k' p' Hin) as (m' & Hm' & Hmm' & ->).
          apply (lock_at_frame cwd lk fs fs1 KT m m'); assumption. }

        destruct (IH (acc ++ [abs_path (KT ++ [m])])%list fs1 Hsl' Hnd') as
          [(fs' & Hr & Hgone & Hkeep & Hnot)|(fs' & Hr & p0 & Hp0 & Hd)];
          rewrite Hfl in *.
        -- left. exists fs'. rewrite Hr. cbn [prepend app map].
           rewrite <- app_assoc. split; [reflexivity|].
           assert (HK0' : lookup fs' K0 = None).
           { rewrite Hkeep.
             - unfold fs1. rewrite lookup_remove_node, key_eqb_refl. reflexivity.
             - intros p' Hin Heq. apply in_map_iff in Hin as ([k' p''] & Hp'' & Hin).
               cbn [snd] in Hp''. subst p''. apply filter_In in Hin as (Hin & _).
               destruct (Hne k' p' Hin) as (m' & Hm' & Hmm' & ->).
               rewrite join_abs2 in Heq by assumption.
               apply abs_path_inj in Heq; [|exact HK0|apply components_snoc2; assumption].
               apply app_inv_head in Heq. injection Heq as Heq. exact (Hmm' Heq). }
           split; [|split].
           ++ intros p' [<-|Hin]; [|exact (Hgone p' Hin)].
              cbn [snd]. rewrite lock_at_abs by assumption. apply reach_removed; [exact HK0| |exact HK0'].
              unfold K0. destruct KT; discriminate.
           ++ intros K HK. rewrite Hkeep by (intros p' Hin; apply HK; right; exact Hin).
              unfold fs1. rewrite lookup_remove_node.
              destruct (key_eqb K0 K) eqn:Ek; [|reflexivity].
              apply key_eqb_true in Ek. subst K. exfalso. apply (HK _ (or_introl eq_refl)).
              symmetry. exact Hj0.
           ++ intros p' [<-|Hin].
              ** cbn [snd]. rewrite Hj0. unfold is_dir_at. rewrite locate_abs, Hw by exact HK0.
                 unfold is_dir. rewrite Hn. reflexivity.
              ** pose proof (Hnot p' Hin) as Hn'.
                 apply in_map_iff in Hin as ([k' p''] & Hp'' & Hin).
                 cbn [snd] in Hp''. subst p''. apply filter_In in Hin as (Hin & _).
                 destruct (Hne k' p' Hin) as (m' & Hm' & Hmm' & ->).
                 rewrite join_abs2 in * by assumption.
                 rewrite <- (is_dir_at_frame fs fs1 m m'); assumption.
        -- right. exists fs'. rewrite Hr. split; [reflexivity|].
           exists p0. split; [right; exact Hp0|].
           apply in_map_iff in Hp0 as ([k' p''] & Hp'' & Hin).
           cbn [snd] in Hp''. subst p''. apply filter_In in Hin as (Hin & _).
           destruct (Hne k' p0 Hin) as (m' & Hm' & Hmm' & ->).
           rewrite join_abs2 in * by assumption.
           rewrite <- (is_dir_at_frame fs fs1 m m'); assumption.
      * right. exists fs. split; [reflexivity|].
        exists (abs_path (KT ++ [m])). split; [left; reflexivity|].
        rewrite Hj0. unfold is_dir_at. rewrite locate_abs, Hw by exact HK0.
        unfold is_dir. rewrite Hn. reflexivity.
    + (* no marker *)
      destruct (IH acc fs Hsl' Hnd') as [(fs' & Hr & H1 & H2 & H3)|(fs' & Hr & H1)].
      * left. exists fs'. rewrite Hr. auto.
      * right. exists fs'. rewrite Hr. auto.
Qed.

End NonDry.
End DiskUnlockFacts.

Module DiskDispatchFacts.
Import Inputs Disk DiskFacts DiskRelations DiskReadings DiskPaths DiskOps DiskProvisionFacts DiskUnlockFacts DiskDispatchReadings.
Local Open Scope list_scope.

(** *** Computations that return *)
















(** *** The lock file through a run *)

Section Held.
Variable K : Key.
Hypothesis HK : Forall component K.







End Held.






(** *** The slot a dispatch claims *)

Section Find.
Variable cwd : string.
Variable KR : Key.
Hypothesis HKR : Forall component KR.



End Find.

(** *** Writing a file *)


(** *** Preparing the slot *)






(** *** Launching *)


Section Launch.
Variable cwd : string.
Variable w : DiskDispatch.World.
Variable KR : Key.
Variable m : string.
Hypothesis HKR : Forall component KR.
Hypothesis Hm : component m.





End Launch.

(** *** Waiting and releasing *)



End DiskDispatchFacts.

Module DiskProvisionClaims.
Import Inputs Provision ProvisionFacts Disk DiskFacts DiskRelations DiskReadings DiskPaths DiskOps DiskProvisionFacts DiskInputs.

(** A slot numbered above every candidate ordinal of the listing is not
    one of its candidates. *)
Lemma disk_new_slot_not_candidate : forall KT l h k x j,
  Forall component KT -> Forall component (map fst l) ->
  (forall k p, In (k, p) (flat_map cand_of (listing_entries (abs_path KT) l)) -> k <= h) ->
  In (k, x) (flat_map cand_of (listing_entries (abs_path KT) l)) ->
  0 <= h < j -> j <= 2 ^ 53 -> x = NodePath.join [abs_path KT; slot_name j] -> False.
Proof.
  intros KT l h k x j HKT Hl Hh Hin Hj Hj' Hx.
  pose proof (Hh k x Hin) as Hk.
  destruct (listing_cands KT l k x HKT Hl Hin) as (m & Hm & Hn & Hxm).
  assert (Hs : component (slot_name j)) by (apply slot_name_component; lia).
  rewrite join_abs in Hx by assumption. rewrite Hxm in Hx.
  apply (f_equal NodePath.basename) in Hx. rewrite !basename_abs in Hx by assumption.
  subst m. rewrite slot_number_name in Hn by lia. injection Hn as ->. lia.
Qed.

(** C10 (amended): on a well-formed filesystem, with the lock name a
    single path component and every slot ordinal of the pool root below
    2^53, a provision call that returns has disjoint [created] and
    [skippedExisting] lists whose lengths add up to the requested count,
    and no slot is both in [created] and in [skippedLocked]. *)
Theorem provision_result_partition : forall cwd o fs r fs' out,
  wf fs = true -> NodePath.is_absolute cwd = true -> component (lockName o) ->
  (forall k p, In (k, p) (disk_pool_candidates cwd (targetPathOf cwd o) fs) -> k < 2 ^ 53) ->
  DiskProvision.provisionSubagents cwd o fs = Done r fs' out ->
  (forall x, In x (created r) -> ~ In x (skippedExisting r)) /\
  Z.of_nat (length (created r) + length (skippedExisting r)) = subagents o /\
  (forall x, In x (created r) -> ~ In x (skippedLocked r)).
Proof.
  intros cwd o fs r fs' out Hwf Hcwd Hlk Hord H.
  unfold DiskProvision.provisionSubagents in H.
  destruct (subagents o <? 1) eqn:E1; [discriminate H|]. apply Z.ltb_ge in E1.
  destruct (resolve_abs_path cwd [targetRoot o] Hcwd) as (KT & HKT & Htp).
  unfold targetPathOf in Hord, H. rewrite Htp in Hord, H.
  apply bind_Done_inv in H as ([] & fs1 & o1 & o2 & H0 & H & _).
  assert (Hl1 : list_dir fs1 KT = list_dir fs KT).
  { destruct (dryRun o).
    - apply disk_ret_inv in H0 as (_ & -> & _). reflexivity.
    - apply ensureDir_abs in H0 as (_ & Hl & _); assumption. }
  apply bind_Done_inv in H as (ex & fs2 & o3 & o4 & Hex & H & _).
  unfold pathExists in Hex. injection Hex as _ <- _.
  apply bind_Done_inv in H as (sc & fs3 & o5 & o6 & Hsc & H & _).
  destruct sc as [[h L] ex0].
  apply bind_Done_inv in H as (st & fs4 & o7 & o8 & Hst & H & _).
  apply bind_Done_inv in H as (st' & fs5 & o9 & o10 & Hst' & H & _).
  apply disk_ret_inv in H as (Hr & _). subst r. cbn [created skippedExisting skippedLocked].
  destruct (wf_list_dir_names fs KT Hwf) as (Hnd & Hcs).
  (* the listing the scan walks *)
  assert (Hsc' : exists l o', Forall component (map fst l) /\ NoDup (map fst l) /\
            (forall k p, In (k, p) (flat_map cand_of (listing_entries (abs_path KT) l)) -> k < 2 ^ 53) /\
            DiskProvision.scan cwd o (listing_entries (abs_path KT) l) 0 [] [] fs1 = Done (h, L, ex0) fs3 o').
  { destruct ex.
    - apply bind_Done_inv in Hsc as (es & fs6 & o11 & o12 & Hr & Hs & Ho).
      apply readDirEntries_abs_inv in Hr as (-> & -> & ->); [|exact HKT].
      exists (list_dir fs1 KT), o12. rewrite Hl1.
      split; [exact Hcs|]. split; [exact Hnd|]. split; [|rewrite <- Hl1; exact Hs].
      intros k p Hin. apply (Hord k p).
      destruct (list_dir fs KT) as [|e l'] eqn:El; [destruct Hin|].
      destruct (wf_list_dir_root fs KT Hwf HKT ltac:(rewrite El; discriminate)) as (Hw & Hd).
      unfold disk_pool_candidates. rewrite readDirEntries_abs_ok by assumption. rewrite El.
      exact (Permutation_in _ (Permutation_sym (FrameFacts.slot_candidates_perm _)) Hin).
    - apply disk_ret_inv in Hsc as (Hsc & -> & ->). injection Hsc as -> -> ->.
      exists [], []. split; [constructor|]. split; [constructor|]. split; [intros k p []|].
      reflexivity. }
  destruct Hsc' as (l & o' & Hc & Hn & Hk & Hs).
  destruct (disk_scan_spec cwd o (listing_entries (abs_path KT) l) 0 [] [] fs1)
    as (h' & L' & Hs' & Hh0 & Hkh & Hhw & HL).
  rewrite Hs in Hs'. injection Hs' as <- <- Hex0 -> _. cbn [app] in Hex0. subst ex0.
  set (cands := flat_map cand_of (listing_entries (abs_path KT) l)) in *.
  assert (Hperm : Permutation (Pool.sort_by_number cands) cands) by apply PoolFacts.sort_by_number_perm.
  destruct (disk_existing_loop_spec cwd o KT HKT _ _ _ _ _ _ Hst Hlk) as
    (cr & sk & Hcr & Hsk & Hi & Hnd' & Hf1 & Hf2 & Hlk' & Hx & Hc1).
  { intros k p Hin. apply (Permutation_in _ Hperm) in Hin.
    destruct (listing_cands KT l k p HKT Hc Hin) as (m & Hm & _ & Hpm). eauto. }
  { apply (Permutation_NoDup (Permutation_map snd (Permutation_sym Hperm))).
    apply listing_cands_nodup; assumption. }
  { intros k p Hin. cbn [ls_locked]. rewrite HL.
    apply (Permutation_in _ Hperm) in Hin. split.
    - intros [[]|(k' & _ & Hl')]. exact Hl'.
    - intros Hl'. right. exists k. split; [exact Hin|exact Hl']. }
  { apply count_inv_0. lia. }
  cbn [ls_created ls_skippedExisting ls_locked ls_provisioned app] in *.
  assert (Hh : 0 <= h < 2 ^ 53).
  { destruct Hhw as [->|(p & Hp)]; [lia|]. split; [lia|exact (Hk h p Hp)]. }
  destruct (disk_new_loop_spec cwd o (abs_path KT) h _ _ _ _ _ _ _ Hst' Hh ltac:(lia))
    as (nw & Hcr' & Hsk' & Hlk'' & Hnw & Hc2 & Hend).
  rewrite Hcr', Hsk', Hlk'', Hcr, Hsk.
  assert (Hsnd : forall x, In x sk -> exists k, In (k, x) cands).
  { intros x Hx0. assert (Hin : In x (map snd (Pool.sort_by_number cands)))
      by (apply Hi, in_app_iff; right; exact Hx0).
    apply in_map_iff in Hin as ([k x'] & Hx' & Hin). cbn in Hx'. subst x'.
    exists k. exact (Permutation_in _ Hperm Hin). }
  split; [|split].
  - intros x Hx0 Hx1. destruct (force o) eqn:Ef.
    + rewrite (Hf1 eq_refl) in Hx1. destruct Hx1.
    + rewrite (Hf2 eq_refl) in Hx0. cbn [app] in Hx0.
      destruct (Hnw x Hx0) as (j & Hj & Hxj).
      destruct (Hsnd x Hx1) as (k & Hkx).
      exact (disk_new_slot_not_candidate KT l h k x j HKT Hc Hkh Hkx ltac:(lia) ltac:(lia) Hxj).
  - apply (count_inv_end _ _ (ls_provisioned st')); [|exact Hend].
    pose proof (Hc2 Hc1) as Hc3. rewrite Hcr', Hsk', Hcr, Hsk in Hc3. exact Hc3.
  - intros x Hx0 Hx1.
    apply (Permutation_in _ (sort_strings_perm _)) in Hx1.
    apply in_app_iff in Hx0 as [Hx0|Hx0]; [exact (Hx x Hx0 Hx1)|].
    apply Hlk', HL in Hx1 as [[]|(k & Hkx & _)].
    destruct (Hnw x Hx0) as (j & Hj & Hxj).
    exact (disk_new_slot_not_candidate KT l h k x j HKT Hc Hkh Hkx ltac:(lia) ltac:(lia) Hxj).
Qed.

(** One slot requested on a pool whose only slot, locked, has the ordinal
    2^53: that slot is both created and skipped as locked. *)
Lemma provision_saturated_slot_cex : exists r fs' out,
  wf disk_pool_saturated = true /\
  DiskProvision.provisionSubagents "/" (provision_options 1 false false) disk_pool_saturated
    = Done r fs' out /\
  created r = ["/p/subagent-9007199254740992"] /\
  skippedLocked r = ["/p/subagent-9007199254740992"].
Proof.
  do 3 eexists. split; [vm_compute; reflexivity|].
  split; [vm_compute; reflexivity|]. split; reflexivity.
Defined.

(** Two slots requested on a pool with subagent-1 locked. *)
Lemma provision_result_partition_witness : exists r fs' out,
  DiskProvision.provisionSubagents "/" (provision_options 2 false false) disk_pool_one_locked
    = Done r fs' out /\
  (forall x, In x (created r) -> ~ In x (skippedExisting r)) /\
  Z.of_nat (length (created r) + length (skippedExisting r)) = 2 /\
  (forall x, In x (created r) -> ~ In x (skippedLocked r)).
Proof.
  do 3 eexists. split; [vm_compute; reflexivity|].
  eapply (provision_result_partition "/" (provision_options 2 false false) disk_pool_one_locked).
  - vm_compute. reflexivity.
  - reflexivity.
  - repeat split; discriminate.
  - intros k p Hin. vm_compute in Hin.
    destruct Hin as [Hin|[]]; injection Hin as <- _; lia.
  - vm_compute. reflexivity.
Defined.

End DiskProvisionClaims.

Module DiskUnlockClaims.
Import Inputs Disk DiskFacts DiskRelations DiskReadings DiskPaths DiskOps DiskProvisionFacts DiskUnlockReadings DiskUnlockFacts DiskInputs.

(** C8 (amended): [unlockSubagents] throws unless exactly one of a slot
    name and [--all] is given, and throws when nothing exists at the pool
    root. For a name, it throws when nothing exists at that path; it returns
    [[]] when the path exists (a directory or a regular file) and its lock
    path does not; with the lock present it returns the slot, after removing
    the lock unless in dry-run mode, and the removal throws [EISDIR] when the
    lock path is a directory. For [--all], the candidates are in ordinal
    order; a pool root that is not a directory throws [ENOTDIR]; a dry run
    returns the slots whose lock [pathExists] finds and changes nothing; a
    real run on a well-formed filesystem, with the lock name a single path
    component, returns the same list, removes exactly those locks and keeps
    every other path, unless one of those lock paths is a directory, in which
    case it throws [EISDIR]. *)
Theorem unlock_subagents_spec : forall cwd o fs,
  let tp := NodePath.resolve cwd [Slots.u_targetRoot o] in
  let lk := Slots.u_lockName o in
  let named := match Slots.subagentName o with Some _ => true | None => false end in
  (named = Slots.unlockAll o ->
     DiskSlots.unlockSubagents cwd o fs
     = Thrown "must specify either --subagent or --all (but not both)" fs []) /\
  (named <> Slots.unlockAll o -> exists_at cwd tp fs = false ->
     DiskSlots.unlockSubagents cwd o fs = Thrown ("target root " ++ tp ++ " does not exist") fs []) /\
  (forall n, Slots.subagentName o = Some n -> Slots.unlockAll o = false -> exists_at cwd tp fs = true ->
     let d := NodePath.join [tp; n] in
     let L := NodePath.join [d; lk] in
     (exists_at cwd d fs = false ->
        DiskSlots.unlockSubagents cwd o fs = Thrown (n ++ " does not exist in " ++ tp) fs []) /\
     (exists_at cwd d fs = true -> exists_at cwd L fs = false ->
        DiskSlots.unlockSubagents cwd o fs = Done [] fs []) /\
     (exists_at cwd d fs = true -> exists_at cwd L fs = true -> Slots.u_dryRun o = true ->
        DiskSlots.unlockSubagents cwd o fs = Done [d] fs []) /\
     (exists_at cwd d fs = true -> exists_at cwd L fs = true -> Slots.u_dryRun o = false ->
        exists K nd, locate cwd fs L = At K /\ node_at fs K = Some nd /\
          DiskSlots.unlockSubagents cwd o fs
          = match nd with
            | DirN => Thrown "ERR_FS_EISDIR" fs []
            | FileN _ => Done [d] (remove_node fs K) []
            end)) /\
  (Slots.subagentName o = None -> Slots.unlockAll o = true -> exists_at cwd tp fs = true ->
     let L := locked_slots cwd lk tp fs in
     Sorted le_fst (disk_pool_candidates cwd tp fs) /\
     (is_dir_at cwd tp fs = false ->
        DiskSlots.unlockSubagents cwd o fs = Thrown "ENOTDIR" fs []) /\
     (is_dir_at cwd tp fs = true -> Slots.u_dryRun o = true ->
        DiskSlots.unlockSubagents cwd o fs = Done L fs []) /\
     (wf fs = true -> NodePath.is_absolute cwd = true -> component lk ->
      is_dir_at cwd tp fs = true -> Slots.u_dryRun o = false ->
        ((forall p, In p L -> is_dir_at cwd (NodePath.join [p; lk]) fs = false) ->
           exists fs', DiskSlots.unlockSubagents cwd o fs = Done L fs' [] /\
             (forall p, In p L -> lock_at cwd lk fs' p = false) /\
             (forall K, (forall p, In p L -> abs_path K <> NodePath.join [p; lk]) ->
                        lookup fs' K = lookup fs K)) /\
        ((exists p, In p L /\ is_dir_at cwd (NodePath.join [p; lk]) fs = true) ->
           exists fs', DiskSlots.unlockSubagents cwd o fs = Thrown "ERR_FS_EISDIR" fs' []))).
Proof.
  intros cwd o fs tp lk named.
  assert (Hpe : forall p, pathExists cwd p fs = Done (exists_at cwd p fs) fs []) by reflexivity.
  split; [|split; [|split]].
  - intros Hn. unfold named in Hn. unfold DiskSlots.unlockSubagents.
    destruct (Slots.subagentName o), (Slots.unlockAll o); try discriminate Hn; reflexivity.
  - intros Hn He. unfold named in Hn. unfold DiskSlots.unlockSubagents. fold tp.
    destruct (Slots.subagentName o), (Slots.unlockAll o); try congruence;
      cbn [negb andb orb]; unfold bind at 1; rewrite Hpe, He; reflexivity.
  - intros n Hn Ha He d L.
    assert (Hstep : DiskSlots.unlockSubagents cwd o fs
                    = if exists_at cwd d fs
                      then (if exists_at cwd L fs
                            then (if Slots.u_dryRun o then ret tt else removeIfExists cwd L) ;;; ret [d]
                            else ret []) fs
                      else Thrown (n ++ " does not exist in " ++ tp) fs []).
    { unfold DiskSlots.unlockSubagents. rewrite Hn, Ha. fold tp. cbn [negb andb orb].
      unfold bind at 1. rewrite Hpe, He. cbn [negb prepend app].
      unfold bind at 1. rewrite Hpe. fold d. destruct (exists_at cwd d fs); [|rewrite !prepend_nil; reflexivity].
      cbn [negb]. unfold bind at 1. rewrite Hpe. rewrite !prepend_nil. reflexivity. }
    rewrite Hstep. clear Hstep.
    split; [|split; [|split]].
    + intros Hd. rewrite Hd. reflexivity.
    + intros Hd Hl. rewrite Hd, Hl. reflexivity.
    + intros Hd Hl Hdry. rewrite Hd, Hl, Hdry. reflexivity.
    + intros Hd Hl Hdry. rewrite Hd, Hl, Hdry.
      destruct (exists_at_locate _ _ _ Hl) as (K & nd & Hloc & Hnd).
      exists K, nd. split; [exact Hloc|]. split; [exact Hnd|].
      unfold bind. rewrite (removeIfExists_present _ _ _ _ _ Hloc Hnd).
      destruct nd; reflexivity.
  - intros Hn Ha He L.
    assert (Hstep : DiskSlots.unlockSubagents cwd o fs
                    = prepend [] (match readDirEntries cwd tp fs with
                                  | Done es fs1 o1 => prepend o1 (DiskSlots.unlock_loop cwd lk (Slots.u_dryRun o) (Slots.slot_candidates es) [] fs1)
                                  | Thrown e fs1 o1 => Thrown e fs1 o1
                                  | Diverges => Diverges
                                  end)).
    { unfold DiskSlots.unlockSubagents. rewrite Hn, Ha. fold tp. cbn [negb andb orb].
      unfold bind at 1. rewrite Hpe, He. reflexivity. }
    rewrite Hstep. clear Hstep.
    destruct (exists_at_locate _ _ _ He) as (KR & nr & Hloc & Hnr).
    assert (Hrd : forall es fs1 o1, readDirEntries cwd tp fs = Done es fs1 o1 ->
                  fs1 = fs /\ o1 = [] /\ disk_pool_candidates cwd tp fs = Slots.slot_candidates es).
    { intros es fs1 o1 Hr. unfold disk_pool_candidates. rewrite Hr.
      unfold readDirEntries, bind, readdir_types in Hr. rewrite Hloc, Hnr in Hr.
      destruct nr; [discriminate|]. injection Hr as _ <- <-. auto. }
    split; [|split; [|split]].
    + unfold disk_pool_candidates. destruct (readDirEntries cwd tp fs); try constructor.
      apply PoolFacts.sort_by_number_sorted.
    + intros Hd. unfold is_dir_at in Hd. rewrite Hloc in Hd. unfold is_dir in Hd. rewrite Hnr in Hd.
      destruct nr; [|discriminate].
      unfold readDirEntries, bind, readdir_types. rewrite Hloc, Hnr. reflexivity.
    + intros Hd Hdry. unfold is_dir_at in Hd. rewrite Hloc in Hd. unfold is_dir in Hd. rewrite Hnr in Hd.
      destruct nr; [discriminate|].
      destruct (readDirEntries cwd tp fs) as [es fs1 o1| |] eqn:Hr;
        [|unfold readDirEntries, bind, readdir_types in Hr; rewrite Hloc, Hnr in Hr; discriminate
         |unfold readDirEntries, bind, readdir_types in Hr; rewrite Hloc, Hnr in Hr; discriminate].
      destruct (Hrd _ _ _ eq_refl) as (-> & -> & Hc).
      rewrite Hdry, unlock_loop_dry. unfold L, locked_slots. rewrite Hc. reflexivity.
    + intros Hwf Hcwd Hlk Hd Hdry.
      destruct (resolve_abs_path cwd [Slots.u_targetRoot o] Hcwd) as (KT & HKT & Htp).
      fold tp in Htp.
      unfold is_dir_at in Hd. rewrite Htp, locate_abs in Hd by exact HKT.
      destruct (walk fs [] KT) as [k| |] eqn:Hw; try discriminate.
      destruct (walk_components_at fs KT [] k HKT Hw) as [Hk _]. cbn [app] in Hk. subst k.
      apply is_dir_node in Hd.
      assert (Hr : readDirEntries cwd tp fs
                   = Done (listing_entries (abs_path KT) (list_dir fs KT)) fs [])
        by (rewrite Htp; apply readDirEntries_abs_ok; assumption).
      rewrite Hr. cbn [prepend app].
      assert (Hc : disk_pool_candidates cwd tp fs
                   = Slots.slot_candidates (listing_entries (abs_path KT) (list_dir fs KT)))
        by (unfold disk_pool_candidates; rewrite Hr; reflexivity).
      set (cands := Slots.slot_candidates (listing_entries (abs_path KT) (list_dir fs KT))) in *.
      assert (Hperm : Permutation cands (flat_map cand_of (listing_entries (abs_path KT) (list_dir fs KT))))
        by apply FrameFacts.slot_candidates_perm.
      destruct (wf_list_dir_names fs KT Hwf) as (Hnd & Hcs).
      assert (Hsl : forall k p, In (k, p) cands -> exists m, component m /\ p = abs_path (KT ++ [m])).
      { intros k p Hin. apply (Permutation_in _ Hperm) in Hin.
        destruct (listing_cands KT _ k p HKT Hcs Hin) as (m & Hm & _ & Hpm). eauto. }
      assert (Hnd' : NoDup (map snd cands)).
      { apply (Permutation_NoDup (Permutation_map snd (Permutation_sym Hperm))).
        apply listing_cands_nodup; assumption. }
      rewrite Hdry.
      assert (HL : L = map snd (filter (fun c => lock_at cwd lk fs (snd c)) cands))
        by (unfold L, locked_slots; rewrite Hc; reflexivity).
      rewrite HL.
      destruct (unlock_loop_nondry cwd lk KT HKT Hlk cands [] fs Hsl Hnd') as
        [(fs' & Hrun & Hgone & Hkeep & Hnot)|(fs' & Hrun & p & Hp & Hpd)];
        cbn [app] in Hrun; rewrite Hrun.
      * split.
        -- intros _. exists fs'. auto.
        -- intros (p & Hp & Hpd). rewrite (Hnot p Hp) in Hpd. discriminate.
      * split.
        -- intros Hall. rewrite (Hall p Hp) in Hpd. discriminate.
        -- intros _. exists fs'. reflexivity.
Qed.

(** A regular file [subagent-1] in the pool root is unlocked by name with
    the answer [[]], not an error; [--all] with an empty lock name throws
    [EISDIR] on a pool with one free slot. *)
Lemma unlock_named_file_slot_cex :
  wf disk_pool_file_slot = true /\
  DiskSlots.unlockSubagents "/" (Slots.mkUnlockOptions "/p" "subagent.lock" (Some "subagent-1") false false)
    disk_pool_file_slot = Done [] disk_pool_file_slot [] /\
  wf disk_pool_one_free = true /\
  DiskSlots.unlockSubagents "/" (Slots.mkUnlockOptions "/p" "" None true false) disk_pool_one_free
    = Thrown "ERR_FS_EISDIR" disk_pool_one_free [].
Proof. repeat split; vm_compute; reflexivity. Qed.

(** [--all] on a pool with subagent-1 locked and subagent-2 free returns
    slot 1 and removes its lock. *)
Lemma unlock_subagents_spec_witness : exists fs',
  DiskSlots.unlockSubagents "/" (Slots.mkUnlockOptions "/p" "subagent.lock" None true false)
    disk_pool_one_of_two = Done ["/p/subagent-1"] fs' [] /\
  lock_at "/" "subagent.lock" fs' "/p/subagent-1" = false.
Proof.
  pose proof (unlock_subagents_spec "/" (Slots.mkUnlockOptions "/p" "subagent.lock" None true false)
                disk_pool_one_of_two) as H.
  cbv zeta in H. destruct H as (_ & _ & _ & H).
  destruct (H eq_refl eq_refl ltac:(vm_compute; reflexivity)) as (_ & _ & _ & H4).
  destruct (H4 ltac:(vm_compute; reflexivity) eq_refl ltac:(repeat split; discriminate)
              ltac:(vm_compute; reflexivity) eq_refl) as (H5 & _).
  destruct H5 as (fs' & Hr & Hg & _).
  { intros p Hp. vm_compute in Hp. destruct Hp as [<-|[]]. vm_compute. reflexivity. }
  exists fs'. split.
  - rewrite Hr; f_equal; vm_compute; reflexivity.
  - apply Hg. vm_compute. left. reflexivity.
Defined.

End DiskUnlockClaims.

Module DiskDispatchClaims.
Import Inputs Disk DiskFacts DiskRelations DiskReadings DiskPaths DiskOps DiskProvisionFacts DiskUnlockReadings DiskUnlockFacts DiskDispatchReadings DiskDispatchFacts DiskInputs.
Local Open Scope list_scope.






End DiskDispatchClaims.
